(** * NetSuite client: filename sanitizer and authenticated request engine

    A shallow embedding of [src/utils/normalize.utils.js] (class
    [NormalizeUtils]) and of the class [NetSuiteService].  The repository has
    two versions of the service: one with [downloadFile], which is the one
    embedded here, and [src/services/netSuite.service.js], which has
    [uploadFile] in its place, no script or deploy identifier, and another
    path for the request that [signIn] uses to check a token; the checks of the
    constructor, [logout], the token exchange, [#requestApi] and the request
    operations are the same in both.  Of that other version, [uploadFile] is
    embedded in a module of its own.

    Strings.  A JavaScript string is a sequence of UTF-16 code units.  Here a
    string is a Rocq [string] whose characters stand for the code units
    0..255; every character the regular expressions of the source name is in
    that range.  Of the code units that the class [\s] and [trim] treat as
    white space, those below 256 are 9, 10, 11, 12, 13, 32 and 160. *)

From Stdlib Require Import Ascii String List Bool Arith ZArith Lia.
From stdpp Require Import base option gmap strings pretty.

(** ** Characters and character classes *)

Module Chars.

Definition tab : ascii := "009"%char.
Definition lf : ascii := "010"%char.
Definition vt : ascii := "011"%char.
Definition ff : ascii := "012"%char.
Definition cr : ascii := "013"%char.
Definition space : ascii := " "%char.
Definition nbsp : ascii := "160"%char.
Definition dquote : ascii := "034"%char.
Definition tilde : ascii := "~"%char.
Definition dot : ascii := "."%char.
Definition amp : ascii := "&"%char.
Definition star : ascii := "*"%char.
Definition colon : ascii := ":"%char.

(** The text of one line feed. *)
Definition newline : string := String lf EmptyString.

Definition one_of (l : list ascii) (c : ascii) : bool :=
  existsb (Ascii.eqb c) l.

(** The class [\s] of a regular expression, which is also what [trim]
    strips, restricted to code units below 256. *)
Definition is_space : ascii -> bool :=
  one_of [tab; lf; vt; ff; cr; space; nbsp].

(** The alternation of single characters in the second [replace] of
    [normalize]: double quote, braces, star, colon, angle brackets, question
    mark, slash, percent, plus and pipe. *)
Definition reserved_set : list ascii :=
  [dquote; "{"; "}"; "*"; ":"; "<"; ">"; "?"; "/"; "%"; "+"; "|"]%char.

Definition is_reserved : ascii -> bool := one_of reserved_set.

Definition is_star : ascii -> bool := one_of [star].
Definition is_cr_or_tab : ascii -> bool := one_of [cr; tab].
Definition is_lf : ascii -> bool := one_of [lf].
Definition is_amp : ascii -> bool := one_of [amp].
Definition is_dot : ascii -> bool := one_of [dot].

(** The class [[^ ~]]. *)
Definition not_space_tilde (c : ascii) : bool := negb (one_of [space; tilde] c).

End Chars.

(** ** A small model of [String.prototype.replace] with a regular expression

    A [matcher] stands for one regular expression: given whether the current
    position is the start of the subject ([^]) and the text from the current
    position on, it answers with the text that follows the match, when the
    expression matches at this very position.  [$] is "nothing follows".
    None of the expressions of the source matches the empty string. *)

Module Regex.

Definition matcher := bool -> string -> option string.

(** A matcher consumes at least one character. *)
Definition consuming (m : matcher) : Prop :=
  forall b s r, m b s = Some r -> String.length r < String.length s.

Fixpoint drop_while (p : ascii -> bool) (s : string) : string :=
  match s with
  | EmptyString => EmptyString
  | String c s' => if p c then drop_while p s' else s
  end.

Fixpoint strip_prefix (p s : string) : option string :=
  match p, s with
  | EmptyString, _ => Some s
  | String a p', String b s' => if Ascii.eqb a b then strip_prefix p' s' else None
  | String _ _, EmptyString => None
  end.

(** A single character of the class [p]. *)
Definition re_class (p : ascii -> bool) : matcher := fun _ s =>
  match s with
  | String c s' => if p c then Some s' else None
  | EmptyString => None
  end.

(** [p+]: one or more characters of the class, as many as there are. *)
Definition re_plus (p : ascii -> bool) : matcher := fun _ s =>
  match s with
  | String c s' => if p c then Some (drop_while p s') else None
  | EmptyString => None
  end.

(** [^c]: the character [c] at the start of the subject. *)
Definition re_bol_char (c : ascii) : matcher := fun at_start s =>
  match s with
  | String c' s' => if at_start && Ascii.eqb c' c then Some s' else None
  | EmptyString => None
  end.

(** [^\.|\.$]: a dot at the start of the subject, or else a dot that ends
    it. *)
Definition re_dot_at_either_end : matcher := fun at_start s =>
  match s with
  | String c s' =>
      if Ascii.eqb c Chars.dot
      then if at_start then Some s'
           else match s' with EmptyString => Some EmptyString | _ => None end
      else None
  | EmptyString => None
  end.

(** [https?:\/\/[^ ~]+].  After [http] an [s] is taken when there is one (the
    expression cannot match with the [s] left in place, since a colon must
    come next). *)
Definition re_link : matcher := fun _ s =>
  match strip_prefix "http" s with
  | Some r1 =>
      let r2 := match r1 with
                | String c r => if Ascii.eqb c "s" then r else r1
                | EmptyString => r1
                end in
      match strip_prefix "://" r2 with
      | Some (String c r3) =>
          if Chars.not_space_tilde c
          then Some (drop_while Chars.not_space_tilde r3)
          else None
      | _ => None
      end
  | None => None
  end.

(** The scan of [subject.replace(re, repl)]: at each position, from the left,
    try the expression; on a match put [repl] (none of the replacement
    strings of the source holds a [$]) and go on after the match when the
    expression has the flag [g], or stop at the first match when it has not;
    on no match keep the character.  [fuel] bounds the number of positions
    looked at; [replace] gives one more than the length of the subject. *)
Fixpoint replace_loop (fuel : nat) (global : bool) (m : matcher) (repl : string)
    (at_start : bool) (s : string) : string :=
  match fuel with
  | O => s
  | S fuel' =>
      match m at_start s with
      | Some rest =>
          repl +:+ (if global then replace_loop fuel' global m repl false rest
                    else rest)
      | None =>
          match s with
          | EmptyString => EmptyString
          | String c s' => String c (replace_loop fuel' global m repl false s')
          end
      end
  end.

Definition replace (global : bool) (m : matcher) (repl : string) (s : string) : string :=
  replace_loop (S (String.length s)) global m repl true s.

Definition replace_all := replace true.
Definition replace_first := replace false.

(** The expression tested at every position of the subject, as
    [RegExp.prototype.test] does for an expression with no anchor. *)
Fixpoint test_anywhere (m : matcher) (at_start : bool) (s : string) : bool :=
  match m at_start s with
  | Some _ => true
  | None =>
      match s with
      | EmptyString => false
      | String _ s' => test_anywhere m false s'
      end
  end.

Fixpoint trim_start (s : string) : string :=
  match s with
  | EmptyString => EmptyString
  | String c s' => if Chars.is_space c then trim_start s' else s
  end.

Fixpoint trim_end (s : string) : string :=
  match s with
  | EmptyString => EmptyString
  | String c s' =>
      match trim_end s' with
      | EmptyString => if Chars.is_space c then EmptyString else String c EmptyString
      | t => String c t
      end
  end.

Definition trim (s : string) : string := trim_end (trim_start s).

End Regex.

(** ** [encodeURIComponent], [decodeURIComponent], and [replace] with a
    function

    The functions of the language that [encode] and [decode] call, on texts
    of code units below 256.  Such a code unit is never half of a surrogate
    pair, so that [encodeURIComponent] never throws on them.
    [decodeURIComponent] throws a URIError on a text that is not well formed,
    and may produce a code unit above 255, which a text of the model cannot
    hold: its outcome is a type of its own. *)

Module URI.
Import Regex.

Definition code (c : ascii) : nat := nat_of_ascii c.

Definition in_range (lo hi n : nat) : bool := (lo <=? n) && (n <=? hi).

(** Letters and digits. *)
Definition is_alnum (c : ascii) : bool :=
  in_range 65 90 (code c) || in_range 97 122 (code c) || in_range 48 57 (code c).

(** The characters that [encodeURIComponent] leaves as they are: letters,
    digits and [- _ . ! ~ * ' ( )]. *)
Definition is_unescaped (c : ascii) : bool :=
  is_alnum c || Chars.one_of ["-"; "_"; "."; "!"; "~"; "*"; "'"; "("; ")"]%char c.

(** The unreserved characters of RFC 3986: letters, digits and [- . _ ~]. *)
Definition is_unreserved (c : ascii) : bool :=
  is_alnum c || Chars.one_of ["-"; "."; "_"; "~"]%char c.

Definition is_percent (c : ascii) : bool := Ascii.eqb c "%".

Definition upper_digits : list ascii :=
  ["0"; "1"; "2"; "3"; "4"; "5"; "6"; "7"; "8"; "9"; "A"; "B"; "C"; "D"; "E"; "F"]%char.

Definition lower_digits : list ascii :=
  ["0"; "1"; "2"; "3"; "4"; "5"; "6"; "7"; "8"; "9"; "a"; "b"; "c"; "d"; "e"; "f"]%char.

(** [%XX] for an octet, with the digits in upper case. *)
Definition escape_octet (b : nat) : string :=
  String "%" (String (nth (b / 16) upper_digits "0"%char)
                (String (nth (b mod 16) upper_digits "0"%char) EmptyString)).

(** The UTF-8 octets of a code unit below 256. *)
Definition utf8_octets (c : ascii) : list nat :=
  if code c <? 128 then [code c] else [192 + code c / 64; 128 + code c mod 64].

Definition escape_unit (c : ascii) : string :=
  fold_right (fun b t => escape_octet b +:+ t) EmptyString (utf8_octets c).

(** [encodeURIComponent(s)] *)
Fixpoint encodeURIComponent (s : string) : string :=
  match s with
  | EmptyString => EmptyString
  | String c s' =>
      (if is_unescaped c then String c EmptyString else escape_unit c)
      +:+ encodeURIComponent s'
  end.

(** [text.charCodeAt(0)], for a text that is not empty. *)
Definition charCodeAt0 (text : string) : nat :=
  match text with
  | String c _ => code c
  | EmptyString => 0
  end.

(** [n.toString(16)], for [n] below 256. *)
Definition toString16 (n : nat) : string :=
  if n <? 16 then String (nth n lower_digits "0"%char) EmptyString
  else String (nth (n / 16) lower_digits "0"%char)
         (String (nth (n mod 16) lower_digits "0"%char) EmptyString).

(** [text.toUpperCase()], for a text of digits and unaccented letters. *)
Fixpoint toUpperCase (text : string) : string :=
  match text with
  | EmptyString => EmptyString
  | String c t =>
      String (if in_range 97 122 (code c) then ascii_of_nat (code c - 32) else c)
        (toUpperCase t)
  end.

(** The scan of [subject.replace(re, f)] for an expression with the flag
    [g] and a function [f], which is handed the matched text. *)
Fixpoint replace_with_loop (fuel : nat) (m : matcher) (f : string -> string)
    (at_start : bool) (s : string) : string :=
  match fuel with
  | O => s
  | S fuel' =>
      match m at_start s with
      | Some rest =>
          f (substring 0 (String.length s - String.length rest) s)
          +:+ replace_with_loop fuel' m f false rest
      | None =>
          match s with
          | EmptyString => EmptyString
          | String c s' => String c (replace_with_loop fuel' m f false s')
          end
      end
  end.

Definition replace_all_with (m : matcher) (f : string -> string) (s : string) : string :=
  replace_with_loop (S (String.length s)) m f true s.

Definition hex_value (c : ascii) : option nat :=
  if in_range 48 57 (code c) then Some (code c - 48)
  else if in_range 65 70 (code c) then Some (code c - 55)
  else if in_range 97 102 (code c) then Some (code c - 87)
  else None.

(** [%XX] at the head of a text: the octet, and what follows it. *)
Definition escaped_octet (s : string) : option (nat * string) :=
  match s with
  | String p (String a (String b rest)) =>
      if is_percent p then
        match hex_value a, hex_value b with
        | Some x, Some y => Some (16 * x + y, rest)
        | _, _ => None
        end
      else None
  | _ => None
  end.

Fixpoint escaped_octets (n : nat) (s : string) : option (list nat * string) :=
  match n with
  | O => Some ([], s)
  | S n' =>
      match escaped_octet s with
      | None => None
      | Some (b, rest) =>
          match escaped_octets n' rest with
          | None => None
          | Some (more, rest') => Some (b :: more, rest')
          end
      end
  end.

(** The number of bits set at the head of an octet, five standing for five
    or more. *)
Definition leading_ones (b : nat) : nat :=
  if b <? 128 then 0 else if b <? 192 then 1 else if b <? 224 then 2
  else if b <? 240 then 3 else if b <? 248 then 4 else 5.

(** The code point of a well-formed UTF-8 sequence of two to four octets:
    no sequence longer than need be, no surrogate, nothing above 10FFFF. *)
Definition utf8_code_point (octets : list nat) : option N :=
  let bits (b base : nat) : N := N.of_nat (b - base) in
  match octets with
  | [b1; b2] =>
      if in_range 194 223 b1 && in_range 128 191 b2
      then Some (bits b1 192%nat * 64 + bits b2 128%nat)%N else None
  | [b1; b2; b3] =>
      if ((Nat.eqb b1 224 && in_range 160 191 b2)
          || (in_range 225 236 b1 && in_range 128 191 b2)
          || (Nat.eqb b1 237 && in_range 128 159 b2)
          || (in_range 238 239 b1 && in_range 128 191 b2))
         && in_range 128 191 b3
      then Some (bits b1 224%nat * 4096 + bits b2 128%nat * 64 + bits b3 128%nat)%N else None
  | [b1; b2; b3; b4] =>
      if ((Nat.eqb b1 240 && in_range 144 191 b2)
          || (in_range 241 243 b1 && in_range 128 191 b2)
          || (Nat.eqb b1 244 && in_range 128 143 b2))
         && in_range 128 191 b3 && in_range 128 191 b4
      then Some (bits b1 240%nat * 262144 + bits b2 128%nat * 4096 + bits b3 128%nat * 64
                 + bits b4 128%nat)%N
      else None
  | _ => None
  end.

Inductive decoded :=
| Decoded (text : string)
(** the text is well formed and holds a code unit above 255 *)
| Unrepresented
| URIError.

(** The code point [v], then what the rest of the text gave. *)
Definition push (v : N) (d : decoded) : decoded :=
  match d with
  | Decoded t => if (v <? 256)%N then Decoded (String (ascii_of_N v) t) else Unrepresented
  | Unrepresented => Unrepresented
  | URIError => URIError
  end.

(** One step of the scan of [decodeURIComponent], on a text that begins with
    [c]: the code point read and the text that follows it, or nothing when
    the text is not well formed here. *)
Definition decode_head (c : ascii) (rest : string) : option (N * string) :=
  if is_percent c then
    match escaped_octet (String c rest) with
    | None => None
    | Some (b, rest1) =>
        match leading_ones b with
        | 0 => Some (N.of_nat b, rest1)
        | 1 => None
        | n =>
            if 4 <? n then None
            else match escaped_octets (n - 1) rest1 with
                 | None => None
                 | Some (more, rest2) =>
                     match utf8_code_point (b :: more) with
                     | None => None
                     | Some v => Some (v, rest2)
                     end
                 end
        end
    end
  else Some (N_of_ascii c, rest).

(** [fuel] bounds the number of steps; the length of the text is enough,
    since a step takes one character at least. *)
Fixpoint decode_loop (fuel : nat) (s : string) : decoded :=
  match fuel with
  | O => Decoded EmptyString
  | S fuel' =>
      match s with
      | EmptyString => Decoded EmptyString
      | String c rest =>
          match decode_head c rest with
          | None => URIError
          | Some (v, rest') => push v (decode_loop fuel' rest')
          end
      end
  end.

(** [decodeURIComponent(s)] *)
Definition decodeURIComponent (s : string) : decoded :=
  decode_loop (String.length s) s.

End URI.

(** ** [NormalizeUtils] *)

Module NormalizeUtils.
Import Regex.

(** [text.replace(/https?:\/\/[^ ~]+/g, '')] *)
Definition removeLinks (text : string) : string :=
  replace_all re_link EmptyString text.

(** The five calls of [replace] with the flag [g] that follow
    [removeLinks] in [normalize]. *)
Definition strip_characters (t0 : string) : string :=
  let t1 := replace_all (re_class Chars.is_star) EmptyString t0 in
  let t2 := replace_all (re_class Chars.is_reserved) EmptyString t1 in
  let t3 := replace_all (re_class Chars.is_cr_or_tab) EmptyString t2 in
  let t4 := replace_all (re_class Chars.is_lf) " - " t3 in
  replace_all (re_class Chars.is_amp) "and" t4.

(** The four calls of [replace] without the flag that end the chain, and
    [trim]. *)
Definition tidy (t5 : string) : string :=
  let t6 := replace_first (re_plus Chars.is_dot) "." t5 in
  let t7 := replace_first (re_bol_char Chars.tilde) EmptyString t6 in
  let t8 := replace_first re_dot_at_either_end EmptyString t7 in
  let t9 := replace_first (re_plus Chars.is_space) " " t8 in
  trim t9.

(** [normalize(text)]: the chain, in the order of the source. *)
Definition normalize (text : string) : string :=
  tidy (strip_characters (removeLinks text)).

(** The class [[!'()*]]. *)
Definition is_mark : ascii -> bool := Chars.one_of ["!"; "'"; "("; ")"; "*"]%char.

(** [(c) => `%${c.charCodeAt(0).toString(16).toUpperCase()}`] *)
Definition escape_mark (c : string) : string :=
  "%" +:+ URI.toUpperCase (URI.toString16 (URI.charCodeAt0 c)).

(** [encodeRFC3986URIComponent(str)] *)
Definition encodeRFC3986URIComponent (str : string) : string :=
  URI.replace_all_with (re_class is_mark) escape_mark (URI.encodeURIComponent str).

(** [encode(text)] *)
Definition encode (text : string) : string :=
  encodeRFC3986URIComponent (normalize text).

(** [decode(text)] *)
Definition decode (text : string) : URI.decoded :=
  URI.decodeURIComponent (normalize text).

End NormalizeUtils.

(** ** JavaScript values

    The data the service handles: what [JSON.parse] produces, and [undefined].
    A number is carried by the text that [String(n)] gives for it, which is
    all the source ever asks of a number: its truth value and its text.  An
    object is the list of its own properties; a key is looked up from the
    left. *)

Module JS.

#[local] Set Warnings "-register-all".

Inductive value :=
| VUndefined
| VNull
| VBool (b : bool)
| VNum (text : string)
| VStr (s : string)
| VArr (items : list value)
| VObj (props : list (string * value)).

(** What the modelled code can throw.  [BaseError] is the error class of the
    source, with the argument of its constructor; [TypeError] is raised by the
    language (a property of [null] or [undefined], a value with no text, a
    method that is not there); [Rejected] is a failure of the platform
    ([fetch], [Response.json], [Response.text], [fs.writeFile], ...). *)
Inductive error :=
| BaseError (message : value)
| TypeError
| Rejected (reason : string).

Inductive res (A : Type) :=
| Ok (a : A)
| Err (e : error).
Arguments Ok {A} a.
Arguments Err {A} e.

Definition truthy (v : value) : bool :=
  match v with
  | VUndefined | VNull => false
  | VBool b => b
  | VNum t => negb (String.eqb t "0" || String.eqb t "NaN")
  | VStr s => negb (String.eqb s EmptyString)
  | VArr _ | VObj _ => true
  end.

(** [a || b] *)
Definition js_or (a b : value) : value := if truthy a then a else b.

Fixpoint assoc (k : string) (props : list (string * value)) : option value :=
  match props with
  | [] => None
  | (k', v) :: rest => if String.eqb k' k then Some v else assoc k rest
  end.

(** [v.k] for a key that no prototype defines (the source reads [error],
    [message], [access_token], [refresh_token], [content], [info] and
    [name]). *)
Definition get (v : value) (k : string) : res value :=
  match v with
  | VUndefined | VNull => Err TypeError
  | VObj props => Ok (default VUndefined (assoc k props))
  | _ => Ok VUndefined
  end.

(** [String(v)], which is also what a template literal, [RegExp.test] and
    [FormData.append] make of [v].  An array joins the texts of its items
    with commas, [null] and [undefined] items giving the empty text.  An
    object gives [[object Object]] unless it has a property [toString] of its
    own: that property is data, so it cannot be called, and neither can what
    [valueOf] returns be used. *)
Fixpoint to_string (v : value) : res string :=
  match v with
  | VUndefined => Ok "undefined"
  | VNull => Ok "null"
  | VBool true => Ok "true"
  | VBool false => Ok "false"
  | VNum t => Ok t
  | VStr s => Ok s
  | VArr items =>
      (fix join (l : list value) : res string :=
         match l with
         | [] => Ok EmptyString
         | x :: rest =>
             let item := match x with
                         | VUndefined | VNull => Ok EmptyString
                         | _ => to_string x
                         end in
             match item with
             | Err e => Err e
             | Ok s =>
                 match rest with
                 | [] => Ok s
                 | _ => match join rest with
                        | Err e => Err e
                        | Ok t => Ok (s +:+ "," +:+ t)
                        end
                 end
             end
         end) items
  | VObj props =>
      match assoc "toString" props with
      | Some _ => Err TypeError
      | None => Ok "[object Object]"
      end
  end.

Fixpoint chars_from (i : nat) (s : string) : list (string * value) :=
  match s with
  | EmptyString => []
  | String c s' => (pretty i, VStr (String c EmptyString)) :: chars_from (S i) s'
  end.

Fixpoint items_from (i : nat) (l : list value) : list (string * value) :=
  match l with
  | [] => []
  | x :: l' => (pretty i, x) :: items_from (S i) l'
  end.

(** The own enumerable properties that [{...v}] copies. *)
Definition spread (v : value) : list (string * value) :=
  match v with
  | VObj props => props
  | VStr s => chars_from 0 s
  | VArr items => items_from 0 items
  | _ => []
  end.

(** [GetSubstitution] for a match with no capture group: what the
    replacement text [r] of [replace] stands for. *)
Fixpoint get_substitution (matched before after r : string) : string :=
  match r with
  | EmptyString => EmptyString
  | String c r1 =>
      if Ascii.eqb c "$"
      then match r1 with
           | String d r2 =>
               if Ascii.eqb d "$" then String "$" (get_substitution matched before after r2)
               else if Ascii.eqb d "&" then matched +:+ get_substitution matched before after r2
               else if Ascii.eqb d "`" then before +:+ get_substitution matched before after r2
               else if Ascii.eqb d "'" then after +:+ get_substitution matched before after r2
               else String "$" (get_substitution matched before after r1)
           | EmptyString => String "$" EmptyString
           end
      else String c (get_substitution matched before after r1)
  end.

(** [(before + '%s' + after).replace(/%s/, r)] *)
Definition replace_percent_s (before after r : string) : string :=
  before +:+ get_substitution "%s" before after r +:+ after.

End JS.

(** ** Base64, as [Buffer.from(text, 'base64')] reads a text that the
    expression [#nsBase64Regex] accepts *)

Module Base64.

Definition in_range (lo hi c : ascii) : bool :=
  (nat_of_ascii lo <=? nat_of_ascii c)%nat && (nat_of_ascii c <=? nat_of_ascii hi)%nat.

(** The class [[A-Za-z0-9+/]]. *)
Definition is_digit64 (c : ascii) : bool :=
  in_range "A" "Z" c || in_range "a" "z" c || in_range "0" "9" c
  || Ascii.eqb c "+" || Ascii.eqb c "/".

Definition is_pad (c : ascii) : bool := Ascii.eqb c "=".

(** The value of a digit of the alphabet. *)
Definition digit64 (c : ascii) : N :=
  let n := N_of_ascii c in
  if in_range "A" "Z" c then n - 65
  else if in_range "a" "z" c then n - 97 + 26
  else if in_range "0" "9" c then n - 48 + 52
  else if Ascii.eqb c "+" then 62
  else 63.

Definition byte_of_N (n : N) : Byte.byte :=
  byte_of_ascii (ascii_of_N (n mod 256)).

(** The text as groups of four: every group but the last is four digits, the
    last is two digits and [==], three digits and [=], or four digits.  This
    is when [^(?:[A-Za-z0-9+/]{4})*(?:[A-Za-z0-9+/]{2}==|[A-Za-z0-9+/]{3}=|[A-Za-z0-9+/]{4})$]
    matches: the last alternative must end the text, and each group before it
    has four digits. *)
Fixpoint groups_of_four (s : string) : bool :=
  match s with
  | String a (String b (String c (String d rest))) =>
      match rest with
      | EmptyString =>
          is_digit64 a && is_digit64 b
          && ((is_pad c && is_pad d) || (is_digit64 c && is_pad d)
              || (is_digit64 c && is_digit64 d))
      | _ => is_digit64 a && is_digit64 b && is_digit64 c && is_digit64 d
             && groups_of_four rest
      end
  | _ => false
  end.

Definition re_base64 : Regex.matcher := fun at_start s =>
  if at_start && groups_of_four s then Some EmptyString else None.

(** Three bytes from four digits, two from three digits and a pad, one from
    two digits and two pads. *)
Fixpoint decode (s : string) : list Byte.byte :=
  match s with
  | String a (String b (String c (String d rest))) =>
      let n1 := (digit64 a * 4 + digit64 b / 16)%N in
      let n2 := (digit64 b * 16 + digit64 c / 4)%N in
      let n3 := (digit64 c * 64 + digit64 d)%N in
      (if is_pad c then [byte_of_N n1]
       else if is_pad d then [byte_of_N n1; byte_of_N n2]
       else [byte_of_N n1; byte_of_N n2; byte_of_N n3]) ++ decode rest
  | _ => []
  end.

End Base64.

(** ** The platform: network, file system, operator

    What the service calls and does not define.  [server] answers a call of
    [fetch], given the calls made before it; the other fields are the
    functions of Node and of the command-line helper that the source
    imports. *)

Module Platform.
Import JS.

Record request := {
  req_url : string;
  req_method : string;
  req_headers : gmap string value;
  req_body : value
}.

Record response := {
  status : nat;
  statusText : string;
  (** what [response.json()] resolves to, or its rejection *)
  body_json : res value;
  (** what [response.text()] resolves to, or its rejection *)
  body_text : res string
}.

(** [response.ok] *)
Definition ok (r : response) : bool := (200 <=? status r) && (status r <=? 299).

Inductive fetch_result :=
| Rejects (reason : string)
| Responds (r : response).

Inductive file_data :=
| FText (s : string)
| FBytes (bytes : list Byte.byte).

Record platform := {
  server : list request -> request -> fetch_result;
  (** [path.resolve(folder, name)] *)
  path_resolve : string -> string -> string;
  (** [fs.writeFile(path, data)]: the reason of its rejection, if it rejects *)
  write_failure : string -> file_data -> option string;
  (** what [Buffer.from(v, 'base64')], or [fs.writeFile] handed [v] as it is,
      makes of a content [v] that is not a string *)
  data_of_other : value -> res file_data;
  (** [Buffer.from(text).toString('base64')] *)
  base64_of_text : string -> string;
  (** [JSON.stringify] *)
  json_stringify : value -> string;
  (** [randomUUID()] *)
  random_uuid : string;
  (** the operator's answer to [prompt.question], asked with the URL to open *)
  prompt_answer : string -> string;
  (** [process.env.MS_GRAPH_DEBUG === 'true'] *)
  env_debug : bool
}.

End Platform.

(** ** [NetSuiteService]

    A method is a function from the state before the call to its outcome, a
    value or a thrown error, and the state after it.  The state is the
    private fields of the instance together with what the instance has done
    to the world.  Output to the console ([#debug], [console.info],
    [console.error]) is not part of the model: it decides nothing. *)

Module NetSuiteService.
Import JS Platform.

Definition nsRedirectUri : string := "https://login.live.com/oauth20_desktop.srf".
Definition nsScopes : string := "restlets,rest_webservices".
Definition MAX_RETRIES : nat := 3.

(** The argument of the constructor; an absent property is [VUndefined]. *)
Record params := {
  accountId : value;
  client : value;
  secret : value;
  token : value;
  script : value;
  deploy : value;
  debug : value;
  logToken : value
}.

Record fields := {
  nsAccountId : value;
  nsClientId : value;
  nsClientSecret : value;
  nsState : value;
  nsCode : value;
  nsAccessToken : value;
  nsRefreshToken : value;
  isDebug : value;
  shouldLogToken : bool;
  nsScript : value;
  nsDeploy : value
}.

Record world := {
  (** the calls of [fetch] so far, the oldest first *)
  fetched : list request;
  (** the files written so far *)
  disk : gmap string file_data;
  (** a counter of the model: how many times the body of the [try] of
      [#requestApi] has been entered *)
  attempts : nat
}.

Record state := {
  this : fields;
  out : world
}.

Definition new_world : world := {| fetched := []; disk := ∅; attempts := 0 |}.

Definition M (A : Type) : Type := state -> res A * state.

(** The kinds of error that the specification tells apart.  In the source
    each is a [BaseError], told from the others by its message. *)
Definition ConfigurationError (message : string) : error := BaseError (VStr message).
Definition AuthExchangeError (key : string) : error :=
  BaseError (VStr ("Cannot get the NetSuite authorization " +:+ key)).
Definition AuthenticationError (statusText : string) : error := BaseError (VStr statusText).
Definition RequestError (method url : string) : error :=
  BaseError (VStr ("Error in request [" +:+ method +:+ "]: " +:+ url)).
Definition MaxRetriesError (method url : string) : error :=
  BaseError (VStr ("Max retries error in request [" +:+ method +:+ "]: " +:+ url)).
Definition DownloadError (id : string) : error :=
  BaseError (VStr ("Cannot download the file " +:+ id)).

Definition ret {A} (a : A) : M A := fun st => (Ok a, st).
Definition throw {A} (e : error) : M A := fun st => (Err e, st).
Definition bind {A B} (m : M A) (k : A -> M B) : M B := fun st =>
  match m st with
  | (Ok a, st') => k a st'
  | (Err e, st') => (Err e, st')
  end.
Definition lift {A} (r : res A) : M A := fun st => (r, st).
(** [try { body } catch (error) { handler }] *)
Definition try_catch {A} (body : M A) (handler : error -> M A) : M A := fun st =>
  match body st with
  | (Ok a, st') => (Ok a, st')
  | (Err e, st') => handler e st'
  end.
Definition read {A} (f : fields -> A) : M A := fun st => (Ok (f (this st)), st).
Definition update (f : fields -> fields) : M unit := fun st =>
  (Ok tt, {| this := f (this st); out := out st |}).

Declare Scope ns_scope.
Delimit Scope ns_scope with ns.
Notation "'let*' x ':=' m 'in' k" := (bind m (fun x => k))
  (at level 10, x name, m at level 100, k at level 200) : ns_scope.
Local Open Scope ns_scope.

Definition set_tokens (state code access refresh : value) (f : fields) : fields :=
  {| nsAccountId := nsAccountId f; nsClientId := nsClientId f;
     nsClientSecret := nsClientSecret f;
     nsState := state; nsCode := code;
     nsAccessToken := access; nsRefreshToken := refresh;
     isDebug := isDebug f; shouldLogToken := shouldLogToken f;
     nsScript := nsScript f; nsDeploy := nsDeploy f |}.

Definition set_script (script : value) (f : fields) : fields :=
  {| nsAccountId := nsAccountId f; nsClientId := nsClientId f;
     nsClientSecret := nsClientSecret f;
     nsState := nsState f; nsCode := nsCode f;
     nsAccessToken := nsAccessToken f; nsRefreshToken := nsRefreshToken f;
     isDebug := isDebug f; shouldLogToken := shouldLogToken f;
     nsScript := script; nsDeploy := nsDeploy f |}.

(** [logout()]: the four assignments of [null]. *)
Definition logout_fields (f : fields) : fields :=
  set_tokens VNull VNull VNull VNull f.

Definition logout : M unit := update logout_fields.

(** A computation that leaves the counter of inner attempts alone. *)
Definition keeps_attempts {A} (m : M A) : Prop :=
  forall st, attempts (out (snd (m st))) = attempts (out st).

(** A credential that is not there, or is the empty string. *)
Definition missing (v : value) : Prop :=
  v = VUndefined \/ v = VNull \/ v = VStr EmptyString.

(** A credential that is a string with something in it. *)
Definition given (v : value) : Prop :=
  exists s, v = VStr s /\ s <> EmptyString.

(** The state once one more call of [fetch] is on record. *)
Definition logged (req : request) (st : state) : state :=
  {| this := this st;
     out := {| fetched := fetched (out st) ++ [req];
               disk := disk (out st);
               attempts := attempts (out st) |} |}.

(** The state once one more file is written. *)
Definition written (path : string) (data : file_data) (st : state) : state :=
  {| this := this st;
     out := {| fetched := fetched (out st);
               disk := <[path := data]> (disk (out st));
               attempts := attempts (out st) |} |}.

(** The state in which the body of the [try] of [#requestApi] runs: one more
    attempt is counted. *)
Definition entered (st : state) : state :=
  {| this := this st;
     out := {| fetched := fetched (out st);
               disk := disk (out st);
               attempts := S (attempts (out st)) |} |}.

Section WithPlatform.
Variable pf : platform.

(** [constructor({ accountId, client, secret, token, script, deploy, debug, logToken })] *)
Definition constructor (p : params) : res fields :=
  if negb (truthy (accountId p)) then
    Err (ConfigurationError "⚠️ The NetSuite Account ID is required!")
  else if negb (truthy (client p)) then
    Err (ConfigurationError "⚠️ The NetSuite APP ClientID is required!")
  else if negb (truthy (secret p)) then
    Err (ConfigurationError "⚠️ The NetSuite APP ClientSecret is required!")
  else
    let f0 := {| nsAccountId := accountId p; nsClientId := client p;
                 nsClientSecret := secret p;
                 nsState := VUndefined; nsCode := VUndefined;
                 nsAccessToken := VUndefined; nsRefreshToken := VUndefined;
                 isDebug := VUndefined; shouldLogToken := false;
                 nsScript := script p; nsDeploy := js_or (deploy p) (VNum "1") |} in
    let f1 := logout_fields f0 in
    let f2 := set_tokens (nsState f1) (nsCode f1) (token p) (nsRefreshToken f1) f1 in
    Ok {| nsAccountId := nsAccountId f2; nsClientId := nsClientId f2;
          nsClientSecret := nsClientSecret f2;
          nsState := nsState f2; nsCode := nsCode f2;
          nsAccessToken := nsAccessToken f2; nsRefreshToken := nsRefreshToken f2;
          isDebug := js_or (debug p) (VBool (env_debug pf));
          shouldLogToken := match logToken p with
                            | VStr t => String.eqb t "true"
                            | _ => false
                            end;
          nsScript := nsScript f2; nsDeploy := nsDeploy f2 |}.

(** [fetch(url, init)]: the call is recorded, the platform answers. *)
Definition fetch (req : request) : M response := fun st =>
  match server pf (fetched (out st)) req with
  | Rejects reason => (Err (Rejected reason), logged req st)
  | Responds r => (Ok r, logged req st)
  end.

(** [fs.writeFile(path, data)] *)
Definition writeFile (path : string) (data : file_data) : M unit := fun st =>
  match write_failure pf path data with
  | Some reason => (Err (Rejected reason), st)
  | None => (Ok tt, written path data st)
  end.

Definition count_attempt : M unit := fun st => (Ok tt, entered st).

(** [#getApiUrl()]: ['https://%s.suitetalk.api.netsuite.com/services/rest'.replace(/%s/, this.#nsAccountId)] *)
Definition getApiUrl : M string :=
  let* a := read nsAccountId in
  let* r := lift (to_string a) in
  ret (replace_percent_s "https://" ".suitetalk.api.netsuite.com/services/rest" r).

(** [#getTokenUrl()] *)
Definition getTokenUrl : M string :=
  let* api := getApiUrl in
  ret (api +:+ "/auth/oauth2/v1/token").

(** [#getClientAuth()] *)
Definition getClientAuth : M string :=
  let* c := read nsClientId in
  let* cs := lift (to_string c) in
  let* s := read nsClientSecret in
  let* ss := lift (to_string s) in
  ret (base64_of_text pf (cs +:+ ":" +:+ ss)).

(** [#generateAuthorizeRequest()] *)
Definition generateAuthorizeRequest : M string :=
  let* _ := update (fun f => set_tokens (VStr (random_uuid pf)) (nsCode f)
                               (nsAccessToken f) (nsRefreshToken f) f) in
  let* a := read nsAccountId in
  let* r := lift (to_string a) in
  let nsServer := replace_percent_s "https://" ".app.netsuite.com/app/login/oauth2/authorize.nl" r in
  let* c := read nsClientId in
  let* cs := lift (to_string c) in
  ret (nsServer +:+ "?client_id=" +:+ cs +:+ "&response_type=code&redirect_uri="
       +:+ nsRedirectUri +:+ "&scope=" +:+ nsScopes +:+ "&state=" +:+ random_uuid pf).

Inductive grant_type := authorization_code | refresh_token.

Definition grant_name (g : grant_type) : string :=
  match g with
  | authorization_code => "authorization_code"
  | refresh_token => "refresh_token"
  end.

(** [grant_type === 'refresh_token' ? grant_type : 'code'] *)
Definition tokenKey (g : grant_type) : string :=
  match g with
  | refresh_token => "refresh_token"
  | authorization_code => "code"
  end.

(** The body of a token request: the [URLSearchParams] built from the
    [FormData], as the object of its fields. *)
Definition form (g : grant_type) (tok : string) : value :=
  VObj ([("grant_type", VStr (grant_name g))]
        ++ match g with
           | authorization_code => [("redirect_uri", VStr nsRedirectUri)]
           | refresh_token => []
           end
        ++ [(tokenKey g, VStr tok)]).

(** [#setAuthorizationTokens(authorization)] *)
Definition setAuthorizationTokens (authorization : value) : M unit :=
  let* access := lift (get authorization "access_token") in
  let* _ := update (fun f => set_tokens (nsState f) (nsCode f) access (nsRefreshToken f) f) in
  let* refresh := lift (get authorization "refresh_token") in
  update (fun f => set_tokens (nsState f) (nsCode f) (nsAccessToken f) refresh f).

(** The call of [fetch] of [#requestAuthorizationToken]. *)
Definition token_request (url auth : string) (g : grant_type) (tok : string) : request :=
  {| req_url := url; req_method := "POST";
     req_headers := {[ "Content-Type" := VStr "application/x-www-form-urlencoded";
                       "Authorization" := VStr ("Basic " +:+ auth) ]};
     req_body := form g tok |}.

(** The body of the [try] of [#requestAuthorizationToken]. *)
Definition requestAuthorizationToken_try (token : value) (g : grant_type) : M value :=
  let* tok := lift (to_string token) in
  let* url := getTokenUrl in
  let* auth := getClientAuth in
  let* r := fetch (token_request url auth g tok) in
  let* authorization := lift (body_json r) in
  let* err := lift (get authorization "error") in
  if truthy err then
    let* message := lift (get err "message") in
    throw (BaseError (js_or message (VStr "Error in get authorization token")))
  else
    let* _ := setAuthorizationTokens authorization in
    ret authorization.

(** [#requestAuthorizationToken(token, grant_type = 'authorization_code')] *)
Definition requestAuthorizationToken (token : value) (g : grant_type) : M value :=
  try_catch (requestAuthorizationToken_try token g)
    (fun _ => throw (AuthExchangeError (tokenKey g))).

(** [#refreshToken()].  The source returns the promise of
    [#requestAuthorizationToken] from inside a [try] without awaiting it, so
    its rejection is the rejection of [#refreshToken]: the [catch] clause is
    never entered. *)
Definition refreshToken : M value :=
  let* t := read nsRefreshToken in
  requestAuthorizationToken t refresh_token.

(** [#getAuthHeader()] *)
Definition getAuthHeader : M (gmap string value) :=
  let* t := read nsAccessToken in
  let* ts := lift (to_string t) in
  ret {[ "Authorization" := VStr ("Bearer " +:+ ts) ]}.

(** [#internalRequest(url, method, body, headers)]: in
    [{...this.#getAuthHeader(), ...headers}] a header of the caller
    replaces the one of the same name. *)
Definition internalRequest (url method : string) (body headers : value) : M response :=
  let* auth := getAuthHeader in
  fetch {| req_url := url; req_method := method;
           req_headers := list_to_map (spread headers) ∪ auth;
           req_body := body |}.

(** The call of [fetch] that [#internalRequest] makes when the access token
    has the text [tok]. *)
Definition api_request (tok url method : string) (body headers : value) : request :=
  {| req_url := url; req_method := method;
     req_headers := list_to_map (spread headers) ∪ {[ "Authorization" := VStr ("Bearer " +:+ tok) ]};
     req_body := body |}.

(** [#renewTokenWithNeeded(url, method, body, headers)]; its [catch] clause
    throws again what it caught. *)
Definition renewTokenWithNeeded (url method : string) (body headers : value) : M value :=
  let* response := internalRequest url method body headers in
  let* response := (if status response =? 401
                    then let* _ := refreshToken in
                         internalRequest url method body headers
                    else ret response) in
  if status response =? 401
  then throw (AuthenticationError (statusText response))
  else lift (body_json response).

(** [/IO error during request payload read/] *)
Definition re_io_error : Regex.matcher := fun _ s =>
  Regex.strip_prefix "IO error during request payload read" s.

(** How the body of the [try] of [#requestApi] ends when it does not
    throw: with [break], [response] holding the parsed body, or with
    [return null]. *)
Inductive completion :=
| Break (response : value)
| Return (v : value).

(** What [#requestApi] returns when the body of the [try] ends so. *)
Definition completion_value (c : completion) : value :=
  match c with
  | Break response => response
  | Return v => v
  end.

(** The statements of the [try] of [#requestApi] that follow the [await]:
    what is made of the parsed body. *)
Definition requestApi_inspect (url method : string) (response : value) : res completion :=
  match get response "error" with
  | Err e => Err e
  | Ok err =>
      if truthy err then
        match get err "message" with
        | Err e => Err e
        | Ok message =>
            match to_string message with
            | Err e => Err e
            | Ok text =>
                if Regex.test_anywhere re_io_error true text
                then Ok (Return VNull)
                else Err (RequestError method url)
            end
        end
      else Ok (Break response)
  end.

(** The body of the [try] of [#requestApi]. *)
Definition requestApi_try (url method : string) (body headers : value) : M completion :=
  let* _ := count_attempt in
  let* api := getApiUrl in
  let* response := renewTokenWithNeeded (api +:+ url) method body headers in
  lift (requestApi_inspect url method response).

(** What follows the [while] of [#requestApi]. *)
Definition requestApi_end (url method : string) (retry : nat) (response : value) : M value :=
  if MAX_RETRIES <? retry
  then throw (MaxRetriesError method url)
  else ret response.

(** The [while] of [#requestApi], started with the counter at [retry]:
    [turns] bounds the number of times the condition is found true, and with
    none left the loop is left as if the condition were false, which it is
    when [turns] starts at [MAX_RETRIES + 1 - retry].  The variable
    [response] is read after a [break] only, so what it holds after a turn
    that threw does not matter; it is carried unchanged over such a turn. *)
Fixpoint requestApi_loop (turns retry : nat) (response : value)
    (url method : string) (body headers : value) : M value :=
  match turns with
  | O => requestApi_end url method retry response
  | S turns' =>
      if retry <=? MAX_RETRIES then
        fun st =>
          match requestApi_try url method body headers st with
          | (Ok (Return v), st') => (Ok v, st')
          | (Ok (Break response'), st') => requestApi_end url method retry response' st'
          | (Err _, st') =>
              requestApi_loop turns' (S retry) response url method body headers st'
          end
      else requestApi_end url method retry response
  end.

(** [#requestApi(url, method, body, headers = {})] *)
Definition requestApi (url method : string) (body headers : value) : M value :=
  let headers := match headers with VUndefined => VObj [] | _ => headers end in
  requestApi_loop MAX_RETRIES 1 VNull url method body headers.

(** [requestGet(url, headers)] calls [this.#requestApi(url, 'GET', headers)]:
    three arguments, the fourth parameter is left [undefined]. *)
Definition requestGet (url : string) (headers : value) : M value :=
  requestApi url "GET" headers VUndefined.

(** [requestPost(url, body, headers)] *)
Definition requestPost (url : string) (body headers : value) : M value :=
  requestApi url "POST" body headers.

(** [requestPut(url, body, headers, debug)]; [#requestApi] has no fifth
    parameter. *)
Definition requestPut (url : string) (body headers debug : value) : M value :=
  requestApi url "PUT" body headers.

(** [requestDelete(url, body, headers)] *)
Definition requestDelete (url : string) (body headers : value) : M value :=
  requestApi url "DELETE" body headers.

(** [#getAccountInfo()] *)
Definition getAccountInfo : M value := requestGet "/record/v1/account" VUndefined.

(** [executeSuiteQl(query)] *)
Definition executeSuiteQl (query : string) : M value :=
  requestPost "/query/v1/suiteql"
    (VStr (json_stringify pf (VObj [("q", VStr query)])))
    (VObj [("Prefer", VStr "transient")]).

(** [#getRestletUrl()] *)
Definition getRestletUrl : M string :=
  let* a := read nsAccountId in
  let* r := lift (to_string a) in
  let* s := read nsScript in
  let* ss := lift (to_string s) in
  let* d := read nsDeploy in
  let* ds := lift (to_string d) in
  ret (replace_percent_s "https://" ".restlets.api.netsuite.com/app/site/hosting/restlet.nl" r
       +:+ "?script=" +:+ ss +:+ "&deploy=" +:+ ds).

(** [#isFileInBase64(file)] for a string. *)
Definition isFileInBase64 (file : string) : bool :=
  Regex.test_anywhere Base64.re_base64 true file.

(** [this.#isFileInBase64(content) ? Buffer.from(content, 'base64') : content],
    as [fs.writeFile] takes it. *)
Definition contentFile (content : value) : res file_data :=
  match content with
  | VStr s => Ok (if isFileInBase64 s then FBytes (Base64.decode s) else FText s)
  | _ => data_of_other pf content
  end.

(** [NormalizeUtils.normalize(name)]: a value that is not a string has no
    method [replace]. *)
Definition normalize_value (name : value) : res string :=
  match name with
  | VStr s => Ok (NormalizeUtils.normalize s)
  | _ => Err TypeError
  end.

(** The call of [fetch] of [downloadFile]. *)
Definition download_request (downloadUrl : string) (auth : gmap string value)
    (fileId : value) : request :=
  {| req_url := downloadUrl; req_method := "POST";
     req_headers := auth ∪ {[ "Content-Type" := VStr "application/json" ]};
     req_body := VStr (json_stringify pf (VObj [("fileId", fileId)])) |}.

(** The body of the [try] of [downloadFile]. *)
Definition downloadFile_try (fileId : value) (folderPath : string) : M string :=
  let* downloadUrl := getRestletUrl in
  let* auth := getAuthHeader in
  let* response := fetch (download_request downloadUrl auth fileId) in
  let* fileObj := (if negb (ok response) then
                     let* error := lift (body_text response) in
                     throw (BaseError (VStr ("Cannot download the file: " +:+ downloadUrl +:+ " - "
                                             +:+ statusText response +:+ " - " +:+ error)))
                   else lift (body_json response)) in
  let* content := lift (get fileObj "content") in
  let* contentFile := lift (contentFile content) in
  let* info := lift (get fileObj "info") in
  let* name := lift (get info "name") in
  let* safe := lift (normalize_value name) in
  let downloadPath := path_resolve pf folderPath safe in
  let* _ := writeFile downloadPath contentFile in
  ret downloadPath.

(** [downloadFile(fileId, folderPath)] *)
Definition downloadFile (fileId : value) (folderPath : string) : M string :=
  let* s := read nsScript in
  if negb (truthy s) then throw (ConfigurationError "Script is required!")
  else
    try_catch (downloadFile_try fileId folderPath)
      (fun _ =>
         let* id := lift (to_string fileId) in
         throw (DownloadError id)).

(** [signIn()] *)
Definition signIn : M unit :=
  let* t := read nsAccessToken in
  if truthy t then
    let* _ := getAccountInfo in
    ret tt
  else
    let* authorizeUrl := generateAuthorizeRequest in
    let code := VStr (prompt_answer pf authorizeUrl) in
    let* _ := update (fun f => set_tokens (nsState f) code (nsAccessToken f) (nsRefreshToken f) f) in
    let* _ := requestAuthorizationToken code authorization_code in
    ret tt.

End WithPlatform.

(** *** What a call leaves alone *)

(** The fields that only the constructor assigns. *)
Definition same_credentials (f f' : fields) : Prop :=
  nsAccountId f' = nsAccountId f /\ nsClientId f' = nsClientId f
  /\ nsClientSecret f' = nsClientSecret f
  /\ nsScript f' = nsScript f /\ nsDeploy f' = nsDeploy f
  /\ isDebug f' = isDebug f /\ shouldLogToken f' = shouldLogToken f.

(** From [st] to [st'] the instance differs in its two tokens at most, and
    no file was written. *)
Definition only_tokens_differ (st st' : state) : Prop :=
  same_credentials (this st) (this st')
  /\ nsState (this st') = nsState (this st)
  /\ nsCode (this st') = nsCode (this st)
  /\ disk (out st') = disk (out st).

(** From [st] to [st'] the fields of the instance and the counter of
    attempts are the same. *)
Definition instance_untouched (st st' : state) : Prop :=
  this st' = this st /\ attempts (out st') = attempts (out st).

(** Whatever the state before, the state after [m] is related to it by [P]. *)
Definition preserves (P : state -> state -> Prop) {A} (m : M A) : Prop :=
  forall st, P st (snd (m st)).

(** [m] makes at most [n] calls of [fetch], and takes none off the record. *)
Definition logs_at_most (n : nat) {A} (m : M A) : Prop :=
  forall st, exists l,
    fetched (out (snd (m st))) = fetched (out st) ++ l /\ length l <= n.

(** The text of the root of the REST API, of the token endpoint, of the
    restlet and of the consent screen, for an account whose id is put in the
    place of [%s] as it is. *)
Definition api_root (account : string) : string :=
  "https://" +:+ account +:+ ".suitetalk.api.netsuite.com/services/rest".

Definition token_endpoint (account : string) : string :=
  api_root account +:+ "/auth/oauth2/v1/token".

Definition restlet_url (account script deploy : string) : string :=
  ("https://" +:+ account +:+ ".restlets.api.netsuite.com/app/site/hosting/restlet.nl")
  +:+ "?script=" +:+ script +:+ "&deploy=" +:+ deploy.

Definition authorize_url (account client state : string) : string :=
  ("https://" +:+ account +:+ ".app.netsuite.com/app/login/oauth2/authorize.nl")
  +:+ "?client_id=" +:+ client +:+ "&response_type=code&redirect_uri="
  +:+ nsRedirectUri +:+ "&scope=" +:+ nsScopes +:+ "&state=" +:+ state.

End NetSuiteService.

(** ** [uploadFile], of the other version of the service

    [src/services/netSuite.service.js] has [uploadFile] where the version
    above has [downloadFile].  Its body names [urlFile], and nothing declares
    that name: the line that did is a comment.  The file is a module, hence
    strict code, so that reading the name throws a ReferenceError (no
    property of that name is assumed on the global object).  The class
    [error] has no place for it; [thrown] adds one. *)

Module UploadFile.
Import JS Platform NetSuiteService.

Inductive thrown :=
| Known (e : error)
| ReferenceError (name : string).

Inductive outcome (A : Type) :=
| Returns (a : A)
| Throws (t : thrown).
Arguments Returns {A} a.
Arguments Throws {A} t.

Definition U (A : Type) : Type := state -> outcome A * state.

Definition ret {A} (a : A) : U A := fun st => (Returns a, st).
Definition throw {A} (t : thrown) : U A := fun st => (Throws t, st).
Definition bind {A B} (m : U A) (k : A -> U B) : U B := fun st =>
  match m st with
  | (Returns a, st') => k a st'
  | (Throws t, st') => (Throws t, st')
  end.
Definition try_catch {A} (body : U A) (handler : thrown -> U A) : U A := fun st =>
  match body st with
  | (Returns a, st') => (Returns a, st')
  | (Throws t, st') => handler t st'
  end.
Definition lift {A} (r : res A) : U A := fun st =>
  match r with
  | Ok a => (Returns a, st)
  | Err e => (Throws (Known e), st)
  end.
(** A method of the class, called from here. *)
Definition call {A} (m : M A) : U A := fun st =>
  match m st with
  | (Ok a, st') => (Returns a, st')
  | (Err e, st') => (Throws (Known e), st')
  end.

Declare Scope upload_scope.
Delimit Scope upload_scope with upload.
Notation "'let*' x ':=' m 'in' k" := (bind m (fun x => k))
  (at level 10, x name, m at level 100, k at level 200) : upload_scope.
Local Open Scope upload_scope.

(** [v?.k] *)
Definition get_optional (v : value) (k : string) : res value :=
  match v with
  | VUndefined | VNull => Ok VUndefined
  | _ => get v k
  end.

Section WithFiles.
Variable pf : platform.
(** [fs.access(filename, fs.constants.F_OK)] resolves. *)
Variable accessible : string -> bool.
(** [fs.readFile(path)]: the content, or its rejection. *)
Variable readFile : string -> res (list Byte.byte).
(** The content read, as the body that [requestPut] is handed. *)
Variable body_of_buffer : list Byte.byte -> value.

(** Reading the name [urlFile]. *)
Definition urlFile : U string := throw (ReferenceError "urlFile").

(** [#fileExists(filename)] *)
Definition fileExists (filename : string) : U bool := ret (accessible filename).

(** The body of the [try] of [uploadFile]. *)
Definition uploadFile_try (attachmentDir file : string) : U value :=
  let filePath := attachmentDir +:+ "/" +:+ file in
  let* fileExist := fileExists filePath in
  if negb fileExist then ret VNull
  else
    let* fileContent := lift (readFile (attachmentDir +:+ "/" +:+ file)) in
    let* url := urlFile in
    let* response := call (requestPut pf url (body_of_buffer fileContent) VUndefined VUndefined) in
    let* err := lift (get_optional response "error") in
    if truthy err then
      let* message := lift (get_optional err "message") in
      throw (Known (BaseError (js_or message (VStr "Error in upload file"))))
    else ret response.

(** [uploadFile(attachmentDir, folderName, file)], for strings.  The
    [catch] clause names [urlFile] in the argument of [#debug], which is
    evaluated whether the instance is in debug mode or not, and again in the
    message of the error it would throw. *)
Definition uploadFile (attachmentDir folderName file : string) : U value :=
  try_catch (uploadFile_try attachmentDir file)
    (fun _ =>
       let* _ := urlFile in
       let* url := urlFile in
       throw (Known (BaseError (VStr ("Cannot upload a new file in " +:+ url))))).

End WithFiles.

End UploadFile.

(** ** Sample platforms and instances, for the examples *)

Module Scenarios.
Import JS Platform NetSuiteService.

Definition answer (code : nat) (text : string) (body : value) : response :=
  {| status := code; statusText := text; body_json := Ok body; body_text := Ok EmptyString |}.

(** A platform around a given server: paths are joined with a slash, every
    write succeeds, texts are left as they are where Node would encode them. *)
Definition platform_of (srv : list request -> request -> fetch_result) : platform :=
  {| server := srv;
     path_resolve := fun folder name => folder +:+ "/" +:+ name;
     write_failure := fun _ _ => None;
     data_of_other := fun _ => Err TypeError;
     base64_of_text := fun text => text;
     json_stringify := fun _ => "{}";
     random_uuid := "0000";
     prompt_answer := fun _ => "CODE";
     env_debug := false |}.

Definition sample_params : params :=
  {| accountId := VStr "123"; client := VStr "id"; secret := VStr "key";
     token := VUndefined; script := VNum "1054"; deploy := VUndefined;
     debug := VUndefined; logToken := VUndefined |}.

Definition sample_fields : fields :=
  {| nsAccountId := VStr "123"; nsClientId := VStr "id"; nsClientSecret := VStr "key";
     nsState := VNull; nsCode := VNull;
     nsAccessToken := VStr "A"; nsRefreshToken := VStr "R";
     isDebug := VBool false; shouldLogToken := false;
     nsScript := VNum "1054"; nsDeploy := VNum "1" |}.

Definition sample_state : state := {| this := sample_fields; out := new_world |}.

Definition token_url : string :=
  "https://123.suitetalk.api.netsuite.com/services/rest/auth/oauth2/v1/token".

(** Every call of [fetch] is rejected. *)
Definition server_down : list request -> request -> fetch_result :=
  fun _ _ => Rejects "fetch failed".

(** Every call is answered with 200 and an application error. *)
Definition server_failing : list request -> request -> fetch_result :=
  fun _ _ => Responds (answer 200 "OK" (VObj [("error", VObj [("message", VStr "boom")])])).

(** Every call is answered with 200 and an application error that carries
    the marker. *)
Definition server_io_error : list request -> request -> fetch_result :=
  fun _ _ =>
    Responds (answer 200 "OK"
      (VObj [("error", VObj [("message", VStr "An IO error during request payload read occurred")])])).

(** The token endpoint refuses the grant; every other call is answered 401. *)
Definition server_expired : list request -> request -> fetch_result :=
  fun _ r =>
    if String.eqb (req_url r) token_url
    then Responds (answer 400 "Bad Request" (VObj [("error", VObj [("message", VStr "invalid_grant")])]))
    else Responds (answer 401 "Unauthorized" (VObj [])).

(** The token endpoint grants a new pair; a call with the old bearer token is
    answered 401, a call with the new one 200. *)
Definition server_renewing : list request -> request -> fetch_result :=
  fun _ r =>
    if String.eqb (req_url r) token_url
    then Responds (answer 200 "OK" (VObj [("access_token", VStr "B"); ("refresh_token", VStr "S")]))
    else match req_headers r !! "Authorization" with
         | Some (VStr "Bearer B") => Responds (answer 200 "OK" (VObj [("count", VNum "0")]))
         | _ => Responds (answer 401 "Unauthorized" (VObj []))
         end.

(** The token endpoint grants the pair A, R; every other call is answered
    with 200 and an empty list. *)
Definition server_granting : list request -> request -> fetch_result :=
  fun _ r =>
    if String.eqb (req_url r) token_url
    then Responds (answer 200 "OK" (VObj [("access_token", VStr "A"); ("refresh_token", VStr "R")]))
    else Responds (answer 200 "OK" (VObj [("items", VArr [])])).

(** The restlet answers with a file. *)
Definition server_file (content name : string) : list request -> request -> fetch_result :=
  fun _ _ =>
    Responds (answer 200 "OK"
      (VObj [("content", VStr content); ("info", VObj [("name", VStr name)])])).

End Scenarios.

(** ** Structural readings of the scans, used to reason about them *)

Module Scan.
Import Regex.

Fixpoint all_chars (p : ascii -> bool) (s : string) : bool :=
  match s with
  | EmptyString => true
  | String c s' => p c && all_chars p s'
  end.

Definition none_of (p : ascii -> bool) : string -> bool :=
  all_chars (fun c => negb (p c)).

(** What a global replace of a one-character class amounts to. *)
Fixpoint subst_chars (p : ascii -> bool) (repl : string) (s : string) : string :=
  match s with
  | EmptyString => EmptyString
  | String c s' =>
      if p c then repl +:+ subst_chars p repl s'
      else String c (subst_chars p repl s')
  end.

(** What a global replace of a one-character class by a function amounts
    to. *)
Fixpoint subst_with (p : ascii -> bool) (f : string -> string) (s : string) : string :=
  match s with
  | EmptyString => EmptyString
  | String c s' =>
      if p c then f (String c EmptyString) +:+ subst_with p f s'
      else String c (subst_with p f s')
  end.

(** What a first-match replace of [p+] amounts to. *)
Fixpoint first_run (p : ascii -> bool) (repl : string) (s : string) : string :=
  match s with
  | EmptyString => EmptyString
  | String c s' =>
      if p c then repl +:+ drop_while p s'
      else String c (first_run p repl s')
  end.

Definition drop_leading (c : ascii) (s : string) : string :=
  match s with
  | String c' s' => if Ascii.eqb c' c then s' else s
  | EmptyString => EmptyString
  end.

Fixpoint drop_final (c : ascii) (s : string) : string :=
  match s with
  | EmptyString => EmptyString
  | String c' EmptyString => if Ascii.eqb c' c then EmptyString else s
  | String c' s' => String c' (drop_final c s')
  end.

Definition starts_with (c : ascii) (s : string) : bool :=
  match s with
  | String c' _ => Ascii.eqb c' c
  | EmptyString => false
  end.

Fixpoint ends_with (c : ascii) (s : string) : bool :=
  match s with
  | EmptyString => false
  | String c' EmptyString => Ascii.eqb c' c
  | String _ s' => ends_with c s'
  end.

(** The text begins, or ends, with a character of the class [p]. *)
Definition starts_in (p : ascii -> bool) (s : string) : bool :=
  match s with
  | String c _ => p c
  | EmptyString => false
  end.

Fixpoint ends_in (p : ascii -> bool) (s : string) : bool :=
  match s with
  | EmptyString => false
  | String c EmptyString => p c
  | String _ s' => ends_in p s'
  end.

(** What the first-match replace of [^\.|\.$] amounts to. *)
Definition strip_dot_end (s : string) : string :=
  if starts_with Chars.dot s then drop_leading Chars.dot s
  else drop_final Chars.dot s.

Fixpoint take_while (p : ascii -> bool) (s : string) : string :=
  match s with
  | EmptyString => EmptyString
  | String c s' => if p c then String c (take_while p s') else EmptyString
  end.

(** The first maximal run of characters of the class [p] in [s], if any. *)
Fixpoint first_run_of (p : ascii -> bool) (s : string) : option string :=
  match s with
  | EmptyString => None
  | String c s' => if p c then Some (String c (take_while p s')) else first_run_of p s'
  end.

(** There is no run, or the run is the text [r]. *)
Definition run_is (r : string) (run : option string) : bool :=
  match run with
  | None => true
  | Some x => String.eqb x r
  end.

(** A text that the last stages of [normalize] leave as it is, white space
    at its ends apart: it does not begin with a tilde or a dot, it does not
    end with a dot, its first run of dots is one dot and its first run of
    white space is one space. *)
Definition settled (y : string) : bool :=
  negb (starts_with Chars.tilde y)
  && negb (starts_with Chars.dot y)
  && negb (ends_with Chars.dot y)
  && run_is "." (first_run_of Chars.is_dot y)
  && run_is " " (first_run_of Chars.is_space y).

(** A character that no stage of [normalize] touches. *)
Definition inert (c : ascii) : bool :=
  negb (Chars.is_reserved c || Chars.is_space c || Chars.is_dot c
        || Ascii.eqb c Chars.tilde || Chars.is_amp c).

(** A character that the global stages of [normalize] leave in place. *)
Definition clean (c : ascii) : bool :=
  negb (Chars.is_reserved c || Chars.is_cr_or_tab c || Chars.is_lf c || Chars.is_amp c).

(** A character that ends a link: a space or a tilde. *)
Definition ends_link (c : ascii) : bool := negb (Chars.not_space_tilde c).

(** The text is empty or begins with a character that ends a link. *)
Definition delimited (s : string) : bool :=
  match s with
  | EmptyString => true
  | String c _ => ends_link c
  end.

(** The character that starts a pattern in the replacement text of
    [replace]. *)
Definition is_dollar (c : ascii) : bool := Ascii.eqb c "$".

(** What [encodeRFC3986URIComponent] makes of one code unit. *)
Definition encoded_unit (c : ascii) : string :=
  subst_with NormalizeUtils.is_mark NormalizeUtils.escape_mark
    (if URI.is_unescaped c then String c EmptyString else URI.escape_unit c).

(** A character of an encoded text: unreserved, or the percent sign. *)
Definition is_uri_char (c : ascii) : bool := URI.is_unreserved c || URI.is_percent c.

(** [text] has [lit] somewhere in it. *)
Definition contains (lit text : string) : Prop :=
  exists before after, text = before +:+ lit +:+ after.

(** No position of [s] starts a match of the link expression. *)
Definition link_free (s : string) : bool := negb (test_anywhere re_link true s).

End Scan.

(** * Facts

    First about texts and the scans, then about the service, then about the
    sanitizer.  The theorem of a claim carries the number of the claim in its
    comment. *)

Module StringFacts.

Lemma sapp_nil_l (s : string) : EmptyString +:+ s = s.
Proof. reflexivity. Qed.

Lemma sapp_cons (c : ascii) (s t : string) : String c s +:+ t = String c (s +:+ t).
Proof. reflexivity. Qed.

Ltac ssimpl := repeat (progress (simpl; rewrite ?sapp_cons, ?sapp_nil_l)).

Lemma sapp_nil_r (s : string) : s +:+ EmptyString = s.
Proof. induction s as [|c s IH]; ssimpl; [reflexivity | now rewrite IH]. Qed.

Lemma sapp_assoc (a b c : string) : (a +:+ b) +:+ c = a +:+ (b +:+ c).
Proof. induction a as [|x a IH]; ssimpl; [reflexivity | now rewrite IH]. Qed.

Lemma slen_app (a b : string) :
  String.length (a +:+ b) = String.length a + String.length b.
Proof. induction a as [|x a IH]; ssimpl; [reflexivity | now rewrite IH]. Qed.

End StringFacts.

Module RegexFacts.
Import Regex Scan StringFacts.

Lemma drop_while_len p s : String.length (drop_while p s) <= String.length s.
Proof.
  induction s as [|c s IH]; simpl; [lia|].
  destruct (p c); simpl; lia.
Qed.

Lemma re_class_consuming p : consuming (re_class p).
Proof.
  intros b [|c s] r; simpl; [discriminate|].
  destruct (p c); [|discriminate]. intros [= <-]. lia.
Qed.

Lemma re_plus_consuming p : consuming (re_plus p).
Proof.
  intros b [|c s] r; simpl; [discriminate|].
  destruct (p c); [|discriminate]. intros [= <-].
  pose proof (drop_while_len p s). lia.
Qed.

Lemma replace_class_loop p repl fuel : forall b s,
  String.length s < fuel ->
  replace_loop fuel true (re_class p) repl b s = subst_chars p repl s.
Proof.
  induction fuel as [|fuel IH]; intros b s Hlen; [lia|].
  destruct s as [|c s]; simpl; [reflexivity|].
  simpl in Hlen. destruct (p c); rewrite IH by lia; reflexivity.
Qed.

Lemma replace_all_class p repl s :
  replace_all (re_class p) repl s = subst_chars p repl s.
Proof. apply replace_class_loop. lia. Qed.

Lemma replace_plus_loop p repl fuel : forall b s,
  String.length s < fuel ->
  replace_loop fuel false (re_plus p) repl b s = first_run p repl s.
Proof.
  induction fuel as [|fuel IH]; intros b s Hlen; [lia|].
  destruct s as [|c s]; simpl; [reflexivity|].
  simpl in Hlen. destruct (p c); [reflexivity|].
  rewrite IH by lia; reflexivity.
Qed.

Lemma replace_first_plus p repl s :
  replace_first (re_plus p) repl s = first_run p repl s.
Proof. apply replace_plus_loop. lia. Qed.

(** Where the expression matches nowhere, the subject comes back as it is. *)
Lemma replace_loop_no_match g m repl fuel : forall b s,
  test_anywhere m b s = false ->
  replace_loop fuel g m repl b s = s.
Proof.
  induction fuel as [|fuel IH]; intros b s H; [reflexivity|].
  simpl. destruct s as [|c s]; simpl in H.
  - destruct (m b EmptyString); [discriminate | reflexivity].
  - destruct (m b (String c s)); [discriminate|].
    now rewrite IH.
Qed.

Lemma bol_char_later c s : test_anywhere (re_bol_char c) false s = false.
Proof. induction s as [|x s IH]; simpl; [reflexivity | exact IH]. Qed.

Lemma replace_first_bol c s :
  replace_first (re_bol_char c) EmptyString s = drop_leading c s.
Proof.
  unfold replace_first, replace. generalize (String.length s) as n; intro n.
  destruct s as [|x s]; [reflexivity|].
  cbn [replace_loop drop_leading]. unfold re_bol_char at 1.
  cbn [andb]. destruct (Ascii.eqb x c); [reflexivity|].
  f_equal. apply replace_loop_no_match, bol_char_later.
Qed.

Lemma dot_ends_later fuel : forall s,
  String.length s < fuel ->
  replace_loop fuel false re_dot_at_either_end EmptyString false s
  = drop_final Chars.dot s.
Proof.
  induction fuel as [|fuel IH]; intros s Hlen; [lia|].
  destruct s as [|c s]; [reflexivity|].
  simpl in Hlen. cbn [replace_loop]. unfold re_dot_at_either_end at 1.
  destruct s as [|c' s].
  - cbn [drop_final]. destruct (Ascii.eqb c Chars.dot); [reflexivity|].
    rewrite IH by (simpl in *; lia). reflexivity.
  - cbn [drop_final].
    destruct (Ascii.eqb c Chars.dot); rewrite IH by (simpl in *; lia); reflexivity.
Qed.

Lemma replace_first_dot_ends s :
  replace_first re_dot_at_either_end EmptyString s
  = if starts_with Chars.dot s then drop_leading Chars.dot s
    else drop_final Chars.dot s.
Proof.
  unfold replace_first, replace.
  assert (String.length s <= String.length s) as H by lia. revert H.
  generalize (String.length s) at 2 3 as n; intros n H.
  destruct s as [|c s]; [reflexivity|].
  cbn [replace_loop starts_with drop_leading].
  unfold re_dot_at_either_end at 1.
  destruct (Ascii.eqb c Chars.dot) eqn:E; [reflexivity|].
  simpl in H. rewrite dot_ends_later by lia.
  destruct s as [|c' s]; simpl; rewrite ?E; reflexivity.
Qed.

Lemma strip_prefix_spec p : forall s r, strip_prefix p s = Some r <-> s = p +:+ r.
Proof.
  induction p as [|a p IH]; intros s r; simpl.
  - rewrite sapp_nil_l. split; [intros [= ->]; reflexivity | intros ->; reflexivity].
  - rewrite sapp_cons. destruct s as [|b s].
    + split; discriminate.
    + destruct (Ascii.eqb_spec a b) as [->|Hne].
      * rewrite IH. split; [intros ->; reflexivity | intros [= ->]; reflexivity].
      * split; [discriminate | intros [= -> _]; contradiction].
Qed.

(** An expression that is a literal text matches somewhere exactly when the
    subject contains the text. *)
Lemma test_literal lit text b :
  test_anywhere (fun _ s => strip_prefix lit s) b text = true <-> contains lit text.
Proof.
  revert b. induction text as [|c text IH]; intros b; simpl.
  - destruct (strip_prefix lit EmptyString) as [r|] eqn:E.
    + apply strip_prefix_spec in E. split; [|reflexivity].
      intros _. exists EmptyString, r. now rewrite sapp_nil_l.
    + split; [discriminate|]. intros (x & y & H).
      destruct x; [|discriminate]. rewrite sapp_nil_l in H.
      apply strip_prefix_spec in H. congruence.
  - destruct (strip_prefix lit (String c text)) as [r|] eqn:E.
    + apply strip_prefix_spec in E. split; [|reflexivity].
      intros _. exists EmptyString, r. now rewrite sapp_nil_l.
    + rewrite IH. split.
      * intros (x & y & ->). exists (String c x), y. reflexivity.
      * intros (x & y & H). destruct x as [|c' x].
        -- rewrite sapp_nil_l in H.
           apply strip_prefix_spec in H. congruence.
        -- rewrite sapp_cons in H. injection H as -> ->. now exists x, y.
Qed.

End RegexFacts.

(** ** The service *)

Module ServiceFacts.
Import JS Platform NetSuiteService.

Section Frame.
Variable pf : platform.

Lemma ka_ret {A} (a : A) : keeps_attempts (ret a).
Proof. intros st; reflexivity. Qed.

Lemma ka_throw {A} (e : error) : keeps_attempts (@throw A e).
Proof. intros st; reflexivity. Qed.

Lemma ka_lift {A} (r : res A) : keeps_attempts (lift r).
Proof. intros st; reflexivity. Qed.

Lemma ka_read {A} (f : fields -> A) : keeps_attempts (read f).
Proof. intros st; reflexivity. Qed.

Lemma ka_update (f : fields -> fields) : keeps_attempts (update f).
Proof. intros st; reflexivity. Qed.

Lemma ka_bind {A B} (m : M A) (k : A -> M B) :
  keeps_attempts m -> (forall a, keeps_attempts (k a)) -> keeps_attempts (bind m k).
Proof.
  intros Hm Hk st. unfold bind. specialize (Hm st).
  destruct (m st) as [[a|e] st1]; simpl in *; [|exact Hm].
  now rewrite Hk.
Qed.

Lemma ka_try_catch {A} (m : M A) (h : error -> M A) :
  keeps_attempts m -> (forall e, keeps_attempts (h e)) -> keeps_attempts (try_catch m h).
Proof.
  intros Hm Hh st. unfold try_catch. specialize (Hm st).
  destruct (m st) as [[a|e] st1]; simpl in *; [exact Hm|].
  now rewrite Hh.
Qed.

Lemma ka_fetch req : keeps_attempts (fetch pf req).
Proof. intros st. unfold fetch. destruct (server pf _ req); reflexivity. Qed.

Lemma ka_writeFile path data : keeps_attempts (writeFile pf path data).
Proof. intros st. unfold writeFile. destruct (write_failure pf path data); reflexivity. Qed.

Create HintDb frame.
#[local] Hint Resolve ka_ret ka_throw ka_lift ka_read ka_update ka_fetch ka_writeFile : frame.

Ltac frame :=
  repeat first
    [ progress auto with frame
    | apply ka_bind; [|intro]
    | apply ka_try_catch; [|intro]
    | match goal with |- keeps_attempts (if ?b then _ else _) => destruct b end ].

Lemma ka_getApiUrl : keeps_attempts getApiUrl.
Proof. unfold getApiUrl. frame. Qed.

Lemma ka_getAuthHeader : keeps_attempts getAuthHeader.
Proof. unfold getAuthHeader. frame. Qed.

Lemma ka_requestAuthorizationToken token g :
  keeps_attempts (requestAuthorizationToken pf token g).
Proof.
  unfold requestAuthorizationToken, requestAuthorizationToken_try, getTokenUrl,
    getApiUrl, getClientAuth, setAuthorizationTokens.
  frame.
Qed.

Lemma ka_internalRequest url method body headers :
  keeps_attempts (internalRequest pf url method body headers).
Proof. unfold internalRequest. pose proof ka_getAuthHeader. frame. Qed.

Lemma ka_renewTokenWithNeeded url method body headers :
  keeps_attempts (renewTokenWithNeeded pf url method body headers).
Proof.
  unfold renewTokenWithNeeded, refreshToken.
  pose proof ka_internalRequest. pose proof ka_requestAuthorizationToken.
  frame.
Qed.

(** The body of the [try] counts for one attempt. *)
Lemma requestApi_try_attempts url method body headers st :
  attempts (out (snd (requestApi_try pf url method body headers st)))
  = S (attempts (out st)).
Proof.
  unfold requestApi_try.
  set (rest := bind getApiUrl _).
  assert (keeps_attempts rest) as H.
  { subst rest. pose proof ka_getApiUrl. pose proof ka_renewTokenWithNeeded. frame. }
  unfold bind at 1. simpl. now rewrite H.
Qed.

End Frame.

(** *** Token state: [logout] and the constructor *)

(** C9.  [logout()] leaves the access token, the refresh token, the pending
    state and the pending code empty ([null]) whatever the state before, it
    touches nothing else, and a second [logout()] changes nothing more. *)
Theorem logout_clears_token_state (st : state) :
  let st' := snd (logout st) in
  fst (logout st) = Ok tt
  /\ nsAccessToken (this st') = VNull
  /\ nsRefreshToken (this st') = VNull
  /\ nsState (this st') = VNull
  /\ nsCode (this st') = VNull
  /\ out st' = out st
  /\ snd (logout st') = st'.
Proof. repeat split. Qed.

Lemma missing_falsy v : missing v -> truthy v = false.
Proof. intros [-> | [-> | ->]]; reflexivity. Qed.

Lemma given_truthy v : given v -> truthy v = true.
Proof.
  intros (s & -> & Hs). simpl. destruct (String.eqb_spec s EmptyString); [contradiction | reflexivity].
Qed.

(** C7.  The constructor fails with a ConfigurationError when the account
    id, the client id or the client secret is absent or empty.  When the three
    are given it succeeds: the pending state, the pending code and the refresh
    token are empty, and the access token is the one of the parameters, so
    empty too unless a token came with them. *)
Theorem constructor_requires_credentials (pf : platform) (p : params) :
  (missing (accountId p) \/ missing (client p) \/ missing (secret p) ->
     exists message, constructor pf p = Err (ConfigurationError message))
  /\ (given (accountId p) -> given (client p) -> given (secret p) ->
        exists f, constructor pf p = Ok f
          /\ nsState f = VNull /\ nsCode f = VNull /\ nsRefreshToken f = VNull
          /\ nsAccessToken f = token p
          /\ nsAccountId f = accountId p /\ nsClientId f = client p
          /\ nsClientSecret f = secret p).
Proof.
  split.
  - intros H. unfold constructor.
    destruct (truthy (accountId p)) eqn:Ea; simpl; [|eauto].
    destruct (truthy (client p)) eqn:Ec; simpl; [|eauto].
    destruct (truthy (secret p)) eqn:Es; simpl; [|eauto].
    destruct H as [H | [H | H]]; apply missing_falsy in H; congruence.
  - intros Ha Hc Hs. unfold constructor.
    rewrite (given_truthy _ Ha), (given_truthy _ Hc), (given_truthy _ Hs). simpl.
    eexists; repeat split.
Qed.

Lemma constructor_requires_credentials_witness :
  (exists message,
     constructor (Scenarios.platform_of Scenarios.server_down)
       {| accountId := VStr EmptyString; client := VStr "id"; secret := VStr "key";
          token := VUndefined; script := VUndefined; deploy := VUndefined;
          debug := VUndefined; logToken := VUndefined |}
     = Err (ConfigurationError message))
  /\ (exists f,
        constructor (Scenarios.platform_of Scenarios.server_down) Scenarios.sample_params = Ok f
        /\ nsState f = VNull /\ nsCode f = VNull /\ nsRefreshToken f = VNull
        /\ nsAccessToken f = token Scenarios.sample_params
        /\ nsAccountId f = accountId Scenarios.sample_params
        /\ nsClientId f = client Scenarios.sample_params
        /\ nsClientSecret f = secret Scenarios.sample_params).
Proof.
  split.
  - apply (proj1 (constructor_requires_credentials _ _)).
    left. right. right. reflexivity.
  - apply (proj2 (constructor_requires_credentials _ _)).
    + exists "123". split; [reflexivity | discriminate].
    + exists "id". split; [reflexivity | discriminate].
    + exists "key". split; [reflexivity | discriminate].
Defined.

(** *** The token exchange *)

Section Exchange.
Variable pf : platform.

Lemma getApiUrl_eq st :
  getApiUrl st
  = (match to_string (nsAccountId (this st)) with
     | Ok r => Ok (replace_percent_s "https://" ".suitetalk.api.netsuite.com/services/rest" r)
     | Err e => Err e
     end, st).
Proof.
  unfold getApiUrl, bind, read, lift, ret.
  destruct (to_string (nsAccountId (this st))); reflexivity.
Qed.

Lemma getTokenUrl_state st : snd (getTokenUrl st) = st.
Proof.
  unfold getTokenUrl, bind. rewrite getApiUrl_eq.
  destruct (to_string (nsAccountId (this st))); reflexivity.
Qed.

Lemma getClientAuth_state st : snd (getClientAuth pf st) = st.
Proof.
  unfold getClientAuth, bind, read, lift, ret.
  destruct (to_string (nsClientId (this st))); [|reflexivity].
  destruct (to_string (nsClientSecret (this st))); reflexivity.
Qed.

Lemma getAuthHeader_eq st :
  getAuthHeader st
  = (match to_string (nsAccessToken (this st)) with
     | Ok ts => Ok {[ "Authorization" := VStr ("Bearer " +:+ ts) ]}
     | Err e => Err e
     end, st).
Proof.
  unfold getAuthHeader, bind, read, lift, ret.
  destruct (to_string (nsAccessToken (this st))); reflexivity.
Qed.

Lemma fetch_eq req st :
  fetch pf req st
  = (match server pf (fetched (out st)) req with
     | Rejects reason => Err (Rejected reason)
     | Responds r => Ok r
     end, logged req st).
Proof. unfold fetch. destruct (server pf _ req); reflexivity. Qed.

(** Whatever goes wrong in [#requestAuthorizationToken], what it throws is
    the error of its [catch] clause. *)
Lemma requestAuthorizationToken_error token g st e st' :
  requestAuthorizationToken pf token g st = (Err e, st') ->
  e = AuthExchangeError (tokenKey g).
Proof.
  unfold requestAuthorizationToken, try_catch, throw.
  destruct (requestAuthorizationToken_try pf token g st) as [[a|e0] st1]; congruence.
Qed.

(** The exchange, once the request can be put together: one call of
    [fetch], then the tokens are stored unless the call is rejected, the body
    is not JSON, or the body has a truthy [error]. *)
Lemma requestAuthorizationToken_fetch token g st tok url auth :
  to_string token = Ok tok ->
  getTokenUrl st = (Ok url, st) ->
  getClientAuth pf st = (Ok auth, st) ->
  let req := token_request url auth g tok in
  requestAuthorizationToken pf token g st
  = match server pf (fetched (out st)) req with
    | Rejects _ => (Err (AuthExchangeError (tokenKey g)), logged req st)
    | Responds r =>
        match body_json r with
        | Err _ => (Err (AuthExchangeError (tokenKey g)), logged req st)
        | Ok authorization =>
            match get authorization "error" with
            | Err _ => (Err (AuthExchangeError (tokenKey g)), logged req st)
            | Ok err =>
                if truthy err
                then (Err (AuthExchangeError (tokenKey g)), logged req st)
                else (Ok authorization,
                      snd (setAuthorizationTokens authorization (logged req st)))
            end
        end
    end.
Proof.
  intros Htok Hurl Hauth req.
  unfold requestAuthorizationToken, try_catch, requestAuthorizationToken_try.
  unfold bind at 1. unfold lift at 1. rewrite Htok.
  unfold bind at 1. rewrite Hurl.
  unfold bind at 1. rewrite Hauth.
  unfold bind at 1. rewrite fetch_eq. fold req.
  destruct (server pf (fetched (out st)) req) as [reason|r]; [reflexivity|].
  unfold bind at 1. unfold lift at 1.
  destruct (body_json r) as [authorization|e]; [|reflexivity].
  unfold bind at 1. unfold lift at 1.
  destruct (get authorization "error") as [err|e] eqn:Herr; [|reflexivity].
  destruct (truthy err).
  - unfold bind at 1. unfold lift at 1.
    destruct (get err "message"); reflexivity.
  - unfold bind at 1.
    assert (exists u, setAuthorizationTokens authorization (logged req st) = (Ok tt, u)) as [u Hu].
    { unfold setAuthorizationTokens, bind, lift, update.
      destruct authorization; try discriminate; simpl; eauto. }
    rewrite Hu. reflexivity.
Qed.

(** C6 (amended).  What [#requestAuthorizationToken] fails with is always
    the error of its [catch] clause, whose message names the grant key ([code]
    or [refresh_token]) and nothing of the response.  A parsed body whose
    [error] is truthy is such a failure whatever the status of the response:
    the exchange has made its one call of [fetch] and the fields of the
    instance are as they were. *)
Theorem requestAuthorizationToken_error_field (token : value) (g : grant_type) (st : state) :
  (forall e st', requestAuthorizationToken pf token g st = (Err e, st') ->
     e = AuthExchangeError (tokenKey g))
  /\ (forall tok url auth r authorization err,
        to_string token = Ok tok ->
        getTokenUrl st = (Ok url, st) ->
        getClientAuth pf st = (Ok auth, st) ->
        server pf (fetched (out st)) (token_request url auth g tok) = Responds r ->
        body_json r = Ok authorization ->
        get authorization "error" = Ok err ->
        truthy err = true ->
        requestAuthorizationToken pf token g st
        = (Err (AuthExchangeError (tokenKey g)), logged (token_request url auth g tok) st)).
Proof.
  split.
  - intros e st'. apply requestAuthorizationToken_error.
  - intros tok url auth r authorization err Htok Hurl Hauth Hsrv Hjson Herr Htruthy.
    rewrite (requestAuthorizationToken_fetch token g st tok url auth Htok Hurl Hauth).
    cbv zeta. rewrite Hsrv, Hjson, Herr, Htruthy. reflexivity.
Qed.

End Exchange.

Lemma requestAuthorizationToken_error_field_witness :
  let pf := Scenarios.platform_of Scenarios.server_expired in
  requestAuthorizationToken pf (VStr "CODE") authorization_code Scenarios.sample_state
  = (Err (AuthExchangeError "code"),
     logged (token_request Scenarios.token_url "id:key" authorization_code "CODE")
       Scenarios.sample_state).
Proof.
  intros pf.
  exact (proj2 (requestAuthorizationToken_error_field pf (VStr "CODE") authorization_code
                  Scenarios.sample_state)
           "CODE" Scenarios.token_url "id:key" _ _ _
           eq_refl eq_refl eq_refl eq_refl eq_refl eq_refl eq_refl).
Defined.

(** C6, as the claim has it: the token endpoint answers with the error
    [invalid_grant]; the error of the exchange is the one of the [catch]
    clause, and its message has nothing of the remote one. *)
Lemma requestAuthorizationToken_drops_remote_message :
  let pf := Scenarios.platform_of Scenarios.server_expired in
  let r := requestAuthorizationToken pf (VStr "CODE") authorization_code Scenarios.sample_state in
  fst r = Err (BaseError (VStr "Cannot get the NetSuite authorization code"))
  /\ fst r <> Err (BaseError (VStr "invalid_grant"))
  /\ ~ Scan.contains "invalid_grant" "Cannot get the NetSuite authorization code".
Proof.
  intros pf r. split; [reflexivity|]. split; [discriminate|].
  intros H. apply (RegexFacts.test_literal _ _ true) in H.
  vm_compute in H. discriminate.
Qed.

(** *** One inner attempt: [#renewTokenWithNeeded] *)

Section Renew.
Variable pf : platform.

Lemma internalRequest_eq url method body headers st tok :
  to_string (nsAccessToken (this st)) = Ok tok ->
  internalRequest pf url method body headers st
  = fetch pf (api_request tok url method body headers) st.
Proof.
  intros H. unfold internalRequest, bind. rewrite getAuthHeader_eq, H. reflexivity.
Qed.

Lemma setAuthorizationTokens_state authorization st u :
  setAuthorizationTokens authorization st = (Ok tt, u) ->
  out u = out st
  /\ get authorization "access_token" = Ok (nsAccessToken (this u))
  /\ get authorization "refresh_token" = Ok (nsRefreshToken (this u)).
Proof.
  unfold setAuthorizationTokens, bind, lift, update.
  destruct (get authorization "access_token") as [a|e] eqn:Ha; [|discriminate].
  destruct (get authorization "refresh_token") as [b|e] eqn:Hb; [|discriminate].
  intros [= <-]. repeat split.
Qed.

(** What an exchange leaves on record: nothing when the request could not be
    put together, and otherwise exactly one call of [fetch], to the token
    endpoint, with the grant and the token in its body; when the exchange
    succeeds the access token is the one of the response. *)
Lemma requestAuthorizationToken_record token g st r st2 :
  requestAuthorizationToken pf token g st = (r, st2) ->
  (st2 = st /\ r = Err (AuthExchangeError (tokenKey g)))
  \/ (exists tok url auth,
        to_string token = Ok tok
        /\ getTokenUrl st = (Ok url, st)
        /\ out st2 = out (logged (token_request url auth g tok) st)
        /\ match r with
           | Err _ => st2 = logged (token_request url auth g tok) st
           | Ok authorization =>
               get authorization "access_token" = Ok (nsAccessToken (this st2))
           end).
Proof.
  intros H.
  destruct (to_string token) as [tok|e] eqn:Htok.
  2:{ left. revert H.
      unfold requestAuthorizationToken, try_catch, requestAuthorizationToken_try.
      unfold bind at 1. unfold lift at 1. rewrite Htok. unfold throw.
      intros [= <- <-]. split; reflexivity. }
  pose proof (getTokenUrl_state st) as Hu.
  destruct (getTokenUrl st) as [[url|e] su] eqn:Hurl; simpl in Hu; subst su.
  2:{ left. revert H.
      unfold requestAuthorizationToken, try_catch, requestAuthorizationToken_try.
      unfold bind at 1. unfold lift at 1. rewrite Htok.
      unfold bind at 1. rewrite Hurl. unfold throw.
      intros [= <- <-]. split; reflexivity. }
  pose proof (getClientAuth_state pf st) as Ha.
  destruct (getClientAuth pf st) as [[auth|e] sa] eqn:Hauth; simpl in Ha; subst sa.
  2:{ left. revert H.
      unfold requestAuthorizationToken, try_catch, requestAuthorizationToken_try.
      unfold bind at 1. unfold lift at 1. rewrite Htok.
      unfold bind at 1. rewrite Hurl.
      unfold bind at 1. rewrite Hauth. unfold throw.
      intros [= <- <-]. split; reflexivity. }
  right. exists tok, url, auth. split; [reflexivity|]. split; [reflexivity|].
  rewrite (requestAuthorizationToken_fetch pf token g st tok url auth Htok Hurl Hauth) in H.
  cbv zeta in H.
  destruct (server pf (fetched (out st)) _) as [reason|resp].
  { injection H as <- <-. split; reflexivity. }
  destruct (body_json resp) as [authorization|e].
  2:{ injection H as <- <-. split; reflexivity. }
  destruct (get authorization "error") as [err|e] eqn:Herr.
  2:{ injection H as <- <-. split; reflexivity. }
  destruct (truthy err).
  { injection H as <- <-. split; reflexivity. }
  injection H as <- <-.
  destruct (setAuthorizationTokens authorization _) as [[[]|e] u] eqn:Hset.
  - apply setAuthorizationTokens_state in Hset as (Hout & Hacc & _). simpl. split; assumption.
  - exfalso. revert Hset. unfold setAuthorizationTokens, bind, lift, update.
    destruct authorization; try discriminate; simpl; discriminate.
Qed.

(** C2 (amended).  One inner attempt, when the first request is answered.
    With a status other than 401 the attempt is over with that one request:
    no exchange takes place.  With 401 one refresh exchange is attempted.  If
    it fails the attempt fails with its error and the request is not sent
    again: nothing is on record after the exchange.  If it succeeds it has
    made exactly one call, to the token endpoint with the grant
    [refresh_token], and the request is sent again once, with the access
    token of the exchange; a 401 on that second answer makes the attempt fail
    with the AuthenticationError that carries the status text, any other
    status gives the parsed body. *)
Theorem renewTokenWithNeeded_refresh (url method : string) (body headers : value)
    (st : state) (tok1 : string) (r1 : response) :
  to_string (nsAccessToken (this st)) = Ok tok1 ->
  server pf (fetched (out st)) (api_request tok1 url method body headers) = Responds r1 ->
  let st1 := logged (api_request tok1 url method body headers) st in
  (status r1 <> 401 ->
     renewTokenWithNeeded pf url method body headers st = (body_json r1, st1))
  /\ (status r1 = 401 ->
        (forall e st2, refreshToken pf st1 = (Err e, st2) ->
           renewTokenWithNeeded pf url method body headers st
           = (Err (AuthExchangeError "refresh_token"), st2)
           /\ length (fetched (out st2)) <= length (fetched (out st1)) + 1)
        /\ (forall a st2, refreshToken pf st1 = (Ok a, st2) ->
              (exists tok turl auth,
                  to_string (nsRefreshToken (this st)) = Ok tok
                  /\ fetched (out st2)
                     = fetched (out st1) ++ [token_request turl auth refresh_token tok]
                  /\ get a "access_token" = Ok (nsAccessToken (this st2)))
              /\ (forall tok2 r2,
                    to_string (nsAccessToken (this st2)) = Ok tok2 ->
                    server pf (fetched (out st2)) (api_request tok2 url method body headers)
                    = Responds r2 ->
                    renewTokenWithNeeded pf url method body headers st
                    = (if status r2 =? 401
                       then Err (AuthenticationError (statusText r2))
                       else body_json r2,
                       logged (api_request tok2 url method body headers) st2)))).
Proof.
  intros Htok Hsrv st1.
  assert (internalRequest pf url method body headers st = (Ok r1, st1)) as Hfirst.
  { rewrite (internalRequest_eq _ _ _ _ _ _ Htok), fetch_eq, Hsrv. reflexivity. }
  split; [|intros H; split].
  - intros Hne. unfold renewTokenWithNeeded. unfold bind at 1. rewrite Hfirst.
    apply Nat.eqb_neq in Hne. rewrite Hne.
    unfold bind at 1. unfold ret at 1. rewrite Hne. reflexivity.
  - intros e st2 Hrefresh.
    assert (e = AuthExchangeError "refresh_token") as ->.
    { revert Hrefresh. unfold refreshToken, bind, read.
      apply requestAuthorizationToken_error. }
    split.
    + unfold renewTokenWithNeeded. unfold bind at 1. rewrite Hfirst.
      apply Nat.eqb_eq in H. rewrite H.
      unfold bind at 1. unfold bind at 1. rewrite Hrefresh. reflexivity.
    + revert Hrefresh. unfold refreshToken, bind, read. intros Hrefresh.
      apply requestAuthorizationToken_record in Hrefresh
        as [[-> _] | (tok & turl & auth & _ & _ & Hout & _)]; [lia|].
      rewrite Hout. simpl. rewrite length_app. simpl. lia.
  - intros a st2 Hrefresh. split.
    + revert Hrefresh. unfold refreshToken, bind, read. intros Hrefresh.
      apply requestAuthorizationToken_record in Hrefresh
        as [[_ [=]] | (tok & turl & auth & Ht & _ & Hout & Hacc)].
      exists tok, turl, auth. split; [exact Ht|]. split; [|exact Hacc].
      rewrite Hout. reflexivity.
    + intros tok2 r2 Htok2 Hsrv2.
      unfold renewTokenWithNeeded. unfold bind at 1. rewrite Hfirst.
      apply Nat.eqb_eq in H. rewrite H.
      unfold bind at 1. unfold bind at 1. rewrite Hrefresh.
      rewrite (internalRequest_eq _ _ _ _ _ _ Htok2), fetch_eq, Hsrv2.
      destruct (status r2 =? 401); reflexivity.
Qed.

End Renew.

Lemma renewTokenWithNeeded_refresh_witness :
  let pf := Scenarios.platform_of Scenarios.server_renewing in
  let request tok := api_request tok "https://host/path" "GET" VUndefined (VObj []) in
  let st1 := logged (request "A") Scenarios.sample_state in
  let st2 := snd (refreshToken pf st1) in
  renewTokenWithNeeded pf "https://host/path" "GET" VUndefined (VObj []) Scenarios.sample_state
  = (Ok (VObj [("count", VNum "0")]), logged (request "B") st2)
  /\ map req_url (fetched (out (logged (request "B") st2)))
     = ["https://host/path"; Scenarios.token_url; "https://host/path"].
Proof.
  intros pf request st1 st2.
  pose proof (renewTokenWithNeeded_refresh pf "https://host/path" "GET" VUndefined (VObj [])
                Scenarios.sample_state "A" (Scenarios.answer 401 "Unauthorized" (VObj []))
                eq_refl eq_refl) as [_ H].
  destruct (H eq_refl) as [_ Hok].
  destruct (Hok (VObj [("access_token", VStr "B"); ("refresh_token", VStr "S")]) st2 eq_refl)
    as [_ Hreplay].
  split; [|reflexivity].
  exact (Hreplay "B" (Scenarios.answer 200 "OK" (VObj [("count", VNum "0")])) eq_refl eq_refl).
Defined.

(** C2, as the claim has it: the first request is answered 401 and the token
    endpoint refuses the refresh; the attempt fails with the error of the
    exchange and the request has been sent once, not twice. *)
Lemma renewTokenWithNeeded_no_replay_after_failed_refresh :
  let pf := Scenarios.platform_of Scenarios.server_expired in
  let r := renewTokenWithNeeded pf "https://host/path" "GET" VUndefined (VObj [])
             Scenarios.sample_state in
  fst r = Err (AuthExchangeError "refresh_token")
  /\ map req_url (fetched (out (snd r))) = ["https://host/path"; Scenarios.token_url].
Proof. vm_compute. split; reflexivity. Qed.

(** *** [downloadFile] *)

Section Download.
Variable pf : platform.

(** The base64 expression starts with [^]: it matches at the start of the
    subject or not at all. *)
Lemma re_base64_later s : Regex.test_anywhere Base64.re_base64 false s = false.
Proof. induction s as [|c s IH]; [reflexivity | exact IH]. Qed.

(** C4.  Without a script identifier [downloadFile] fails with the
    ConfigurationError and the state is as it was: no call of [fetch] has
    been made.  With one, when the restlet answers with a status in 200..299
    and a body whose [content] and [info.name] are strings, and the write
    succeeds: the file at [resolve(folderPath, normalize(info.name))] holds the
    bytes that the content decodes to when the content matches the base64
    expression, and the content as text otherwise; that path is returned; one
    call of [fetch] has been made.  The content matches the expression when
    it is groups of four as [Base64.groups_of_four] has them. *)
Theorem downloadFile_writes (fileId : value) (folderPath : string) (st : state) :
  (truthy (nsScript (this st)) = false ->
     downloadFile pf fileId folderPath st
     = (Err (ConfigurationError "Script is required!"), st))
  /\ (forall url auth r fileObj content info name,
        truthy (nsScript (this st)) = true ->
        getRestletUrl st = (Ok url, st) ->
        getAuthHeader st = (Ok auth, st) ->
        server pf (fetched (out st)) (download_request pf url auth fileId) = Responds r ->
        ok r = true ->
        body_json r = Ok fileObj ->
        get fileObj "content" = Ok (VStr content) ->
        get fileObj "info" = Ok info ->
        get info "name" = Ok (VStr name) ->
        let path := path_resolve pf folderPath (NormalizeUtils.normalize name) in
        let data := if isFileInBase64 content
                    then FBytes (Base64.decode content) else FText content in
        write_failure pf path data = None ->
        let st' := written path data (logged (download_request pf url auth fileId) st) in
        downloadFile pf fileId folderPath st = (Ok path, st')
        /\ disk (out st') !! path = Some data
        /\ fetched (out st') = fetched (out st) ++ [download_request pf url auth fileId])
  /\ (forall content, isFileInBase64 content = Base64.groups_of_four content).
Proof.
  split; [|split].
  - intros H. unfold downloadFile, bind, read. rewrite H. reflexivity.
  - intros url auth r fileObj content info name Hscript Hurl Hauth Hsrv Hok Hjson
      Hcontent Hinfo Hname path data Hwrite st'.
    split; [|split].
    + unfold downloadFile. unfold bind at 1. unfold read at 1. rewrite Hscript. cbn [negb].
      unfold try_catch, downloadFile_try.
      unfold bind at 1. rewrite Hurl.
      unfold bind at 1. rewrite Hauth.
      unfold bind at 1. rewrite fetch_eq, Hsrv.
      unfold bind at 1. rewrite Hok. cbn [negb]. unfold lift at 1. rewrite Hjson.
      unfold bind at 1. unfold lift at 1. rewrite Hcontent.
      unfold bind at 1. unfold lift at 1. cbn [contentFile].
      unfold bind at 1. unfold lift at 1. rewrite Hinfo.
      unfold bind at 1. unfold lift at 1. rewrite Hname.
      unfold bind at 1. unfold lift at 1. cbn [normalize_value].
      unfold bind at 1. unfold writeFile. fold path. fold data. rewrite Hwrite.
      reflexivity.
    + subst st'. simpl. apply lookup_insert_eq.
    + reflexivity.
  - intros content. unfold isFileInBase64.
    destruct content as [|c content]; [reflexivity|].
    cbn [Regex.test_anywhere]. unfold Base64.re_base64 at 1. cbn [andb].
    destruct (Base64.groups_of_four (String c content)); [reflexivity|].
    apply re_base64_later.
Qed.

End Download.

Lemma downloadFile_writes_witness :
  let pf := Scenarios.platform_of (Scenarios.server_file "aGVsbG8=" "a/b: c?.txt") in
  let text := Scenarios.platform_of (Scenarios.server_file "hello" "notes") in
  fst (downloadFile pf (VNum "524171") "/tmp" Scenarios.sample_state) = Ok "/tmp/ab c.txt"
  /\ disk (out (snd (downloadFile pf (VNum "524171") "/tmp" Scenarios.sample_state)))
       !! "/tmp/ab c.txt"
     = Some (FBytes [Byte.x68; Byte.x65; Byte.x6c; Byte.x6c; Byte.x6f])
  /\ disk (out (snd (downloadFile text (VNum "524171") "/tmp" Scenarios.sample_state)))
       !! "/tmp/notes"
     = Some (FText "hello")
  /\ downloadFile pf (VNum "524171") "/tmp"
       {| this := set_script VUndefined Scenarios.sample_fields; out := new_world |}
     = (Err (ConfigurationError "Script is required!"),
        {| this := set_script VUndefined Scenarios.sample_fields; out := new_world |}).
Proof.
  intros pf text.
  pose proof (proj1 (proj2 (downloadFile_writes pf (VNum "524171") "/tmp" Scenarios.sample_state))
                _ _ _ _ "aGVsbG8=" _ "a/b: c?.txt"
                eq_refl eq_refl eq_refl eq_refl eq_refl eq_refl eq_refl eq_refl eq_refl eq_refl)
    as (H1 & H2 & _).
  pose proof (proj1 (proj2 (downloadFile_writes text (VNum "524171") "/tmp" Scenarios.sample_state))
                _ _ _ _ "hello" _ "notes"
                eq_refl eq_refl eq_refl eq_refl eq_refl eq_refl eq_refl eq_refl eq_refl eq_refl)
    as (H3 & H4 & _).
  split; [|split; [|split]].
  - rewrite H1. reflexivity.
  - rewrite H1. exact H2.
  - rewrite H3. exact H4.
  - apply (proj1 (downloadFile_writes pf (VNum "524171") "/tmp" _)). reflexivity.
Defined.

(** *** The public request operations *)

(** C8: [requestGet] hands the headers of its caller to [#requestApi] in the
    place of the body.  Against a server that answers every call, a GET with
    the header [Prefer] is sent to the API root with the bearer token, the
    header [Prefer] is not among its headers and the object of the headers is
    its body; the same headers given to [requestPost], [requestPut] and
    [requestDelete] are sent as headers, and the body as the body.  With no
    headers the example of the specification holds: after [signIn] against a
    token endpoint that grants the pair A, R, [requestGet] sends a GET to the
    account path under the API root with the bearer token A. *)
Theorem requestGet_sends_headers_as_body :
  let pf := Scenarios.platform_of Scenarios.server_granting in
  let headers := VObj [("Prefer", VStr "transient")] in
  let account := "https://123.suitetalk.api.netsuite.com/services/rest/record/v1/account" in
  let sent (r : res value * state) :=
    map (fun q => (req_url q, req_method q, req_headers q !! "Authorization",
                   req_headers q !! "Prefer", req_body q))
        (fetched (out (snd r))) in
  sent (requestGet pf "/record/v1/account" headers Scenarios.sample_state)
  = [(account, "GET", Some (VStr "Bearer A"), None, headers)]
  /\ sent (requestPost pf "/record/v1/account" (VStr "{}") headers Scenarios.sample_state)
     = [(account, "POST", Some (VStr "Bearer A"), Some (VStr "transient"), VStr "{}")]
  /\ sent (requestPut pf "/record/v1/account" (VStr "{}") headers VUndefined Scenarios.sample_state)
     = [(account, "PUT", Some (VStr "Bearer A"), Some (VStr "transient"), VStr "{}")]
  /\ sent (requestDelete pf "/record/v1/account" (VStr "{}") headers Scenarios.sample_state)
     = [(account, "DELETE", Some (VStr "Bearer A"), Some (VStr "transient"), VStr "{}")]
  /\ (exists f,
        constructor pf Scenarios.sample_params = Ok f
        /\ nsAccessToken f = VUndefined
        /\ sent (bind (signIn pf) (fun _ => requestGet pf "/record/v1/account" VUndefined)
                  {| this := f; out := new_world |})
           = [(Scenarios.token_url, "POST", Some (VStr "Basic id:key"), None,
               form authorization_code "CODE");
              (account, "GET", Some (VStr "Bearer A"), None, VUndefined)]).
Proof.
  cbv zeta. repeat split; try (vm_compute; reflexivity).
  eexists. split; [reflexivity|]. split; vm_compute; reflexivity.
Qed.

(** *** The retry loop of [#requestApi] *)

Section Retry.
Variable pf : platform.

(** An error that reaches the caller of [#requestApi] is a MaxRetriesError. *)
Lemma requestApi_end_result url method retry response st :
  requestApi_end url method retry response st
  = (if MAX_RETRIES <? retry then Err (MaxRetriesError method url) else Ok response, st).
Proof. unfold requestApi_end. destruct (MAX_RETRIES <? retry); reflexivity. Qed.

Lemma requestApi_loop_error turns : forall retry response url method body headers st e st',
  requestApi_loop pf turns retry response url method body headers st = (Err e, st') ->
  e = MaxRetriesError method url.
Proof.
  induction turns as [|turns IH]; intros retry response url method body headers st e st' H;
    simpl in H.
  - rewrite requestApi_end_result in H. destruct (MAX_RETRIES <? retry); congruence.
  - destruct (retry <=? MAX_RETRIES).
    + destruct (requestApi_try pf url method body headers st) as [[[r|v]|e0] st1].
      * rewrite requestApi_end_result in H. destruct (MAX_RETRIES <? retry); congruence.
      * congruence.
      * eapply IH; eauto.
    + rewrite requestApi_end_result in H. destruct (MAX_RETRIES <? retry); congruence.
Qed.

(** The bound on the turns of the loop is not what ends it: with more turns
    allowed the outcome is the same. *)
Lemma requestApi_loop_more_turns extra : forall turns retry response url method body headers st,
  S MAX_RETRIES <= turns + retry ->
  requestApi_loop pf (turns + extra) retry response url method body headers st
  = requestApi_loop pf turns retry response url method body headers st.
Proof.
  intros turns. induction turns as [|turns IH]; intros retry response url method body headers st H.
  - simpl in H. simpl. destruct extra as [|extra]; [reflexivity|]. simpl.
    destruct (Nat.leb_spec retry MAX_RETRIES); [lia | reflexivity].
  - simpl. destruct (retry <=? MAX_RETRIES); [|reflexivity].
    destruct (requestApi_try pf url method body headers st) as [[[r|v]|e0] st1]; try reflexivity.
    apply IH. lia.
Qed.

(** C1 (amended).  One call of [#requestApi] makes at most three inner
    attempts.  An attempt that ends without throwing ends the call at once,
    with the parsed body (or with [null], see [requestApi_inspect]).  A first
    or a second attempt that throws is swallowed and followed by another
    attempt.  When the third attempt throws as well there is no fourth: the
    call fails with the MaxRetriesError that names the method and the URL. *)
Theorem requestApi_three_attempts (url method : string) (body headers : value) (st : state) :
  let attempt :=
    requestApi_try pf url method body
      (match headers with VUndefined => VObj [] | _ => headers end) in
  let r := requestApi pf url method body headers st in
  attempts (out (snd r)) <= attempts (out st) + 3
  /\ match attempt st with
     | (Ok c, st1) =>
         r = (Ok (completion_value c), st1) /\ attempts (out st1) = attempts (out st) + 1
     | (Err _, st1) =>
         match attempt st1 with
         | (Ok c, st2) =>
             r = (Ok (completion_value c), st2) /\ attempts (out st2) = attempts (out st) + 2
         | (Err _, st2) =>
             match attempt st2 with
             | (Ok c, st3) =>
                 r = (Ok (completion_value c), st3)
                 /\ attempts (out st3) = attempts (out st) + 3
             | (Err _, st3) =>
                 r = (Err (MaxRetriesError method url), st3)
                 /\ attempts (out st3) = attempts (out st) + 3
             end
         end
     end.
Proof.
  intros attempt r. subst r. unfold requestApi. fold attempt.
  set (h := match headers with VUndefined => VObj [] | _ => headers end) in *.
  assert (forall s, attempts (out (snd (attempt s))) = S (attempts (out s))) as Hcount.
  { intros s. apply requestApi_try_attempts. }
  cbn [requestApi_loop MAX_RETRIES Nat.leb]. fold attempt.
  pose proof (Hcount st) as H1.
  destruct (attempt st) as [[c1|e1] st1]; simpl in H1.
  { destruct c1; rewrite ?requestApi_end_result; simpl; repeat split; lia. }
  pose proof (Hcount st1) as H2.
  destruct (attempt st1) as [[c2|e2] st2]; simpl in H2.
  { destruct c2; rewrite ?requestApi_end_result; simpl; repeat split; lia. }
  pose proof (Hcount st2) as H3.
  destruct (attempt st2) as [[c3|e3] st3]; simpl in H3.
  { destruct c3; rewrite ?requestApi_end_result; simpl; repeat split; lia. }
  rewrite requestApi_end_result. simpl. repeat split; lia.
Qed.

(** What the caller of [#requestApi] can be thrown is a MaxRetriesError. *)
Lemma requestApi_error url method body headers st e st' :
  requestApi pf url method body headers st = (Err e, st') ->
  e = MaxRetriesError method url.
Proof. unfold requestApi. apply requestApi_loop_error. Qed.

(** C3 (amended).  Of a parsed body whose [error] is truthy and whose
    [error.message] has a text: when the text contains the marker the body of
    the [try] ends with [return null], otherwise it throws the RequestError
    that names the method and the URL.  The RequestError is thrown inside the
    [try] and caught like any other failure, so it never reaches the caller:
    the only error [#requestApi] fails with is the MaxRetriesError.  A first
    attempt that receives a body with the marker makes the call return [null]
    with no further attempt. *)
Theorem requestApi_error_payload (url method : string) :
  (forall response err message text,
      get response "error" = Ok err -> truthy err = true ->
      get err "message" = Ok message -> to_string message = Ok text ->
      (Scan.contains "IO error during request payload read" text ->
         requestApi_inspect url method response = Ok (Return VNull))
      /\ (~ Scan.contains "IO error during request payload read" text ->
            requestApi_inspect url method response = Err (RequestError method url)))
  /\ (forall body headers st e st',
        requestApi pf url method body headers st = (Err e, st') ->
        e = MaxRetriesError method url)
  /\ (forall body headers st api response st1,
        getApiUrl (entered st) = (Ok api, entered st) ->
        renewTokenWithNeeded pf (api +:+ url) method body
          (match headers with VUndefined => VObj [] | _ => headers end) (entered st)
        = (Ok response, st1) ->
        requestApi_inspect url method response = Ok (Return VNull) ->
        requestApi pf url method body headers st = (Ok VNull, st1)).
Proof.
  split; [|split].
  - intros response err message text Herr Htruthy Hmsg Htext.
    unfold requestApi_inspect. rewrite Herr, Htruthy, Hmsg, Htext.
    unfold re_io_error.
    destruct (Regex.test_anywhere _ true text) eqn:E.
    + split; [reflexivity|]. intros Hno. exfalso. apply Hno.
      now apply (RegexFacts.test_literal _ _ true).
    + split; [|reflexivity]. intros Hyes.
      apply (RegexFacts.test_literal _ _ true) in Hyes. congruence.
  - intros body headers st e st'. apply requestApi_error.
  - intros body headers st api response st1 Hapi Hrenew Hinspect.
    unfold requestApi. cbn [requestApi_loop MAX_RETRIES Nat.leb].
    unfold requestApi_try. unfold bind at 1. fold (entered st).
    change (count_attempt st) with (Ok tt, entered st). cbn iota.
    unfold bind at 1. rewrite Hapi. unfold bind at 1. rewrite Hrenew.
    unfold lift. rewrite Hinspect. reflexivity.
Qed.

End Retry.

Lemma requestApi_error_payload_witness :
  let pf := Scenarios.platform_of Scenarios.server_io_error in
  let marked := VObj [("error", VObj [("message", VStr "An IO error during request payload read occurred")])] in
  let plain := VObj [("error", VObj [("message", VStr "boom")])] in
  requestApi_inspect "/q" "POST" marked = Ok (Return VNull)
  /\ requestApi_inspect "/q" "POST" plain = Err (RequestError "POST" "/q")
  /\ fst (requestPost pf "/q" (VStr "{}") VUndefined Scenarios.sample_state) = Ok VNull.
Proof.
  intros pf marked plain.
  pose proof (requestApi_error_payload pf "/q" "POST") as (Hinspect & _ & Hcall).
  split; [|split].
  - eapply (proj1 (Hinspect marked _ _ _ eq_refl eq_refl eq_refl eq_refl)).
    exists "An ", " occurred". reflexivity.
  - eapply (proj2 (Hinspect plain _ _ _ eq_refl eq_refl eq_refl eq_refl)).
    intros Hc. apply (RegexFacts.test_literal _ _ true) in Hc. vm_compute in Hc. discriminate.
  - unfold requestPost.
    erewrite (Hcall (VStr "{}") VUndefined Scenarios.sample_state _ marked); reflexivity.
Defined.

(** C3, as the claim has it: the server answers every call with an
    application error that has no marker; the call fails, but with the
    MaxRetriesError and not with the RequestError.  And a body whose [error]
    is the empty string counts as a success. *)
Lemma requestApi_request_error_is_swallowed :
  let pf := Scenarios.platform_of Scenarios.server_failing in
  let r := requestPost pf "/q" (VStr "{}") VUndefined Scenarios.sample_state in
  fst r = Err (MaxRetriesError "POST" "/q")
  /\ fst r <> Err (RequestError "POST" "/q")
  /\ attempts (out (snd r)) = 3
  /\ requestApi_inspect "/q" "POST" (VObj [("error", VStr EmptyString)])
     = Ok (Break (VObj [("error", VStr EmptyString)])).
Proof. vm_compute. repeat split. discriminate. Qed.

(** C1, as the claim has it: every call fails here, the third failure is not
    followed by a fourth attempt, and the MaxRetriesError comes with the
    third failure. *)
Lemma requestApi_third_failure_is_final :
  let pf := Scenarios.platform_of Scenarios.server_down in
  let r := requestPost pf "/record/v1/account" VUndefined VUndefined Scenarios.sample_state in
  fst r = Err (MaxRetriesError "POST" "/record/v1/account")
  /\ attempts (out (snd r)) = 3
  /\ length (fetched (out (snd r))) = 3
  /\ ~ 4 <= attempts (out (snd r)).
Proof. vm_compute. repeat split. lia. Qed.

(** *** Footprints *)

Section Preserved.
Variable P : state -> state -> Prop.
Hypothesis P_refl : forall st, P st st.
Hypothesis P_trans : forall a b c, P a b -> P b c -> P a c.

Lemma pres_ret {A} (a : A) : preserves P (ret a).
Proof. intros st. apply P_refl. Qed.

Lemma pres_throw {A} (e : error) : preserves P (@throw A e).
Proof. intros st. apply P_refl. Qed.

Lemma pres_lift {A} (r : res A) : preserves P (lift r).
Proof. intros st. apply P_refl. Qed.

Lemma pres_read {A} (f : fields -> A) : preserves P (read f).
Proof. intros st. apply P_refl. Qed.

Lemma pres_bind {A B} (m : M A) (k : A -> M B) :
  preserves P m -> (forall a, preserves P (k a)) -> preserves P (bind m k).
Proof.
  intros Hm Hk st. unfold bind. specialize (Hm st).
  destruct (m st) as [[a|e] st1]; simpl in *; [|exact Hm].
  eapply P_trans; [exact Hm | apply Hk].
Qed.

Lemma pres_try_catch {A} (m : M A) (h : error -> M A) :
  preserves P m -> (forall e, preserves P (h e)) -> preserves P (try_catch m h).
Proof.
  intros Hm Hh st. unfold try_catch. specialize (Hm st).
  destruct (m st) as [[a|e] st1]; simpl in *; [exact Hm|].
  eapply P_trans; [exact Hm | apply Hh].
Qed.

Lemma pres_fetch pf req :
  (forall st, P st (logged req st)) -> preserves P (fetch pf req).
Proof. intros H st. rewrite fetch_eq. apply H. Qed.

End Preserved.

Lemma la_weaken {A} n k (m : M A) : n <= k -> logs_at_most n m -> logs_at_most k m.
Proof. intros Hle H st. destruct (H st) as (l & Hl & Hn). exists l. split; [exact Hl | lia]. Qed.

Lemma la_pure {A} (m : M A) : (forall st, snd (m st) = st) -> logs_at_most 0 m.
Proof. intros H st. exists []. rewrite H, app_nil_r. split; [reflexivity | simpl; lia]. Qed.

Lemma la_bind {A B} n k (m : M A) (f : A -> M B) :
  logs_at_most n m -> (forall a, logs_at_most k (f a)) -> logs_at_most (n + k) (bind m f).
Proof.
  intros Hm Hf st. unfold bind. destruct (Hm st) as (l & Hl & Hn).
  destruct (m st) as [[a|e] st1]; simpl in *.
  - destruct (Hf a st1) as (l' & Hl' & Hk). exists (l ++ l').
    rewrite Hl', Hl, app_assoc, length_app. split; [reflexivity | lia].
  - exists l. split; [exact Hl | lia].
Qed.

Lemma la_try_catch {A} n k (m : M A) (h : error -> M A) :
  logs_at_most n m -> (forall e, logs_at_most k (h e)) ->
  logs_at_most (n + k) (try_catch m h).
Proof.
  intros Hm Hh st. unfold try_catch. destruct (Hm st) as (l & Hl & Hn).
  destruct (m st) as [[a|e] st1]; simpl in *.
  - exists l. split; [exact Hl | lia].
  - destruct (Hh e st1) as (l' & Hl' & Hk). exists (l ++ l').
    rewrite Hl', Hl, app_assoc, length_app. split; [reflexivity | lia].
Qed.

Lemma la_fetch pf req : logs_at_most 1 (fetch pf req).
Proof. intros st. rewrite fetch_eq. exists [req]. split; [reflexivity | simpl; lia]. Qed.

Section Footprint.
Variable pf : platform.

(** A value that has no text: what is thrown is a TypeError. *)
Lemma to_string_error (v : value) : forall e, to_string v = Err e -> e = TypeError.
Proof.
  revert v. fix to_string_error 1.
  intros v. destruct v as [| |b|t|s|items|props]; intros e; simpl.
  - discriminate.
  - discriminate.
  - destruct b; discriminate.
  - discriminate.
  - discriminate.
  - induction items as [|x rest IH]; [discriminate|].
    assert (forall e', match x with
                       | VUndefined | VNull => Ok EmptyString
                       | _ => to_string x
                       end = Err e' -> e' = TypeError) as Hx.
    { intros e' H. apply (to_string_error x). destruct x; try discriminate; exact H. }
    destruct (match x with VUndefined | VNull => Ok EmptyString | _ => to_string x end)
      as [sx|ex]; [|intros [= <-]; now apply Hx].
    destruct rest as [|y rest]; [discriminate|].
    match goal with |- match ?j with _ => _ end = _ -> _ => destruct j as [t|et] eqn:Ej end;
      [discriminate|].
    intros [= <-]. now apply IH.
  - destruct (assoc "toString" props); [intros [= <-]; reflexivity | discriminate].
Qed.

Lemma otd_refl st : only_tokens_differ st st.
Proof. repeat split. Qed.

Lemma otd_trans a b c :
  only_tokens_differ a b -> only_tokens_differ b c -> only_tokens_differ a c.
Proof.
  unfold only_tokens_differ, same_credentials.
  intros (H1 & H2 & H3 & H4) (K1 & K2 & K3 & K4).
  repeat split; try congruence; intuition congruence.
Qed.

Lemma iu_refl st : instance_untouched st st.
Proof. split; reflexivity. Qed.

Lemma iu_trans a b c :
  instance_untouched a b -> instance_untouched b c -> instance_untouched a c.
Proof. unfold instance_untouched. intros [H1 H2] [K1 K2]. split; congruence. Qed.

Lemma getApiUrl_pure st : snd (getApiUrl st) = st.
Proof. now rewrite getApiUrl_eq. Qed.

Lemma getAuthHeader_pure st : snd (getAuthHeader st) = st.
Proof. now rewrite getAuthHeader_eq. Qed.

Lemma getRestletUrl_pure st : snd (getRestletUrl st) = st.
Proof.
  unfold getRestletUrl, bind, read, lift, ret.
  destruct (to_string (nsAccountId (this st))); [|reflexivity].
  destruct (to_string (nsScript (this st))); [|reflexivity].
  destruct (to_string (nsDeploy (this st))); reflexivity.
Qed.

(** How an exchange starts: either the request cannot be put together, and
    the exchange fails with nothing done, or it can. *)
Lemma requestAuthorizationToken_start token g st :
  requestAuthorizationToken pf token g st = (Err (AuthExchangeError (tokenKey g)), st)
  \/ exists tok url auth,
       to_string token = Ok tok
       /\ getTokenUrl st = (Ok url, st)
       /\ getClientAuth pf st = (Ok auth, st).
Proof.
  destruct (to_string token) as [tok|e] eqn:Htok.
  2:{ left. unfold requestAuthorizationToken, try_catch, requestAuthorizationToken_try.
      unfold bind at 1. unfold lift at 1. now rewrite Htok. }
  pose proof (getTokenUrl_state st) as Hu.
  destruct (getTokenUrl st) as [[url|e] su] eqn:Hurl; simpl in Hu; subst su.
  2:{ left. unfold requestAuthorizationToken, try_catch, requestAuthorizationToken_try.
      unfold bind at 1. unfold lift at 1. rewrite Htok.
      unfold bind at 1. now rewrite Hurl. }
  pose proof (getClientAuth_state pf st) as Ha.
  destruct (getClientAuth pf st) as [[auth|e] sa] eqn:Hauth; simpl in Ha; subst sa.
  2:{ left. unfold requestAuthorizationToken, try_catch, requestAuthorizationToken_try.
      unfold bind at 1. unfold lift at 1. rewrite Htok.
      unfold bind at 1. rewrite Hurl.
      unfold bind at 1. now rewrite Hauth. }
  right. exists tok, url, auth. repeat split.
Qed.

Lemma get_defined v k x : get v k = Ok x -> forall k', exists y, get v k' = Ok y.
Proof. destruct v; simpl; intros H k'; try discriminate; eauto. Qed.

Lemma setAuthorizationTokens_eq authorization st access refresh :
  get authorization "access_token" = Ok access ->
  get authorization "refresh_token" = Ok refresh ->
  setAuthorizationTokens authorization st
  = (Ok tt, {| this := set_tokens (nsState (this st)) (nsCode (this st)) access refresh (this st);
               out := out st |}).
Proof.
  intros Ha Hr. unfold setAuthorizationTokens, bind, lift, update. now rewrite Ha, Hr.
Qed.

(** The state after an exchange: as before when it fails, but for the call
    on record; with the two tokens of the body when it succeeds. *)
Lemma requestAuthorizationToken_state token g st r st2 :
  requestAuthorizationToken pf token g st = (r, st2) ->
  match r with
  | Err _ => this st2 = this st
  | Ok authorization =>
      exists access refresh,
        get authorization "access_token" = Ok access
        /\ get authorization "refresh_token" = Ok refresh
        /\ this st2 = set_tokens (nsState (this st)) (nsCode (this st)) access refresh (this st)
  end
  /\ disk (out st2) = disk (out st)
  /\ attempts (out st2) = attempts (out st).
Proof.
  intros H.
  destruct (requestAuthorizationToken_start token g st)
    as [E | (tok & url & auth & Htok & Hurl & Hauth)].
  { rewrite E in H. injection H as <- <-. repeat split. }
  rewrite (requestAuthorizationToken_fetch pf token g st tok url auth Htok Hurl Hauth) in H.
  cbv zeta in H.
  destruct (server pf (fetched (out st)) _) as [reason|resp].
  { injection H as <- <-. repeat split. }
  destruct (body_json resp) as [authorization|e].
  2:{ injection H as <- <-. repeat split. }
  destruct (get authorization "error") as [err|e] eqn:Herr.
  2:{ injection H as <- <-. repeat split. }
  destruct (truthy err).
  { injection H as <- <-. repeat split. }
  destruct (get_defined _ _ _ Herr "access_token") as [access Hacc].
  destruct (get_defined _ _ _ Herr "refresh_token") as [refresh Href].
  rewrite (setAuthorizationTokens_eq _ _ _ _ Hacc Href) in H.
  injection H as <- <-. split; [|split; reflexivity].
  exists access, refresh. repeat split; assumption.
Qed.

(** An exchange leaves the instance as it was but for the two tokens, and
    makes one call of [fetch] at most. *)
Lemma requestAuthorizationToken_footprint token g :
  preserves only_tokens_differ (requestAuthorizationToken pf token g)
  /\ logs_at_most 1 (requestAuthorizationToken pf token g).
Proof.
  split.
  - intros st. destruct (requestAuthorizationToken pf token g st) as [r st2] eqn:E.
    apply requestAuthorizationToken_state in E as (Hr & Hd & _). simpl.
    unfold only_tokens_differ, same_credentials.
    destruct r as [a|e].
    + destruct Hr as (access & refresh & _ & _ & ->). repeat split. exact Hd.
    + rewrite Hr. repeat split. exact Hd.
  - intros st. destruct (requestAuthorizationToken pf token g st) as [r st2] eqn:E.
    apply requestAuthorizationToken_record in E
      as [[-> _] | (tok & url & auth & _ & _ & Hout & _)].
    + exists []. rewrite app_nil_r. split; [reflexivity | simpl; lia].
    + exists [token_request url auth g tok]. simpl. rewrite Hout. split; [reflexivity | lia].
Qed.

Lemma logged_otd req st : only_tokens_differ st (logged req st).
Proof. repeat split. Qed.

Lemma internalRequest_footprint url method body headers :
  preserves only_tokens_differ (internalRequest pf url method body headers)
  /\ logs_at_most 1 (internalRequest pf url method body headers).
Proof.
  unfold internalRequest. split.
  - apply (pres_bind _ otd_trans).
    + intros st. rewrite getAuthHeader_pure. apply otd_refl.
    + intros a. apply pres_fetch. apply logged_otd.
  - apply (la_bind 0 1); [apply la_pure, getAuthHeader_pure | intros a; apply la_fetch].
Qed.

Lemma renewTokenWithNeeded_footprint url method body headers :
  preserves only_tokens_differ (renewTokenWithNeeded pf url method body headers)
  /\ logs_at_most 3 (renewTokenWithNeeded pf url method body headers).
Proof.
  unfold renewTokenWithNeeded, refreshToken.
  pose proof (internalRequest_footprint url method body headers) as [Hi Hil].
  split.
  - apply (pres_bind _ otd_trans); [exact Hi|]. intros r.
    apply (pres_bind _ otd_trans).
    + destruct (status r =? 401); [|apply (pres_ret _ otd_refl)].
      apply (pres_bind _ otd_trans); [|intros _; exact Hi].
      apply (pres_bind _ otd_trans); [apply (pres_read _ otd_refl)|].
      intros t. apply requestAuthorizationToken_footprint.
    + intros r2. destruct (status r2 =? 401);
        [apply (pres_throw _ otd_refl) | apply (pres_lift _ otd_refl)].
  - apply (la_bind 1 2); [exact Hil|]. intros r.
    apply (la_weaken (2 + 0)); [lia|].
    apply la_bind.
    + destruct (status r =? 401); [|apply (la_weaken 0); [lia | now apply la_pure]].
      apply (la_bind 1 1); [|intros _; exact Hil].
      apply (la_weaken (0 + 1)); [lia|].
      apply la_bind; [now apply la_pure|].
      intros t. apply requestAuthorizationToken_footprint.
    + intros r2. destruct (status r2 =? 401); now apply la_pure.
Qed.

Lemma requestApi_try_footprint url method body headers :
  preserves only_tokens_differ (requestApi_try pf url method body headers)
  /\ logs_at_most 3 (requestApi_try pf url method body headers).
Proof.
  unfold requestApi_try.
  pose proof (renewTokenWithNeeded_footprint) as Hr.
  split.
  - apply (pres_bind _ otd_trans); [intros st; repeat split|]. intros _.
    apply (pres_bind _ otd_trans).
    + intros st. rewrite getApiUrl_pure. apply otd_refl.
    + intros api. apply (pres_bind _ otd_trans); [apply Hr|].
      intros r. apply (pres_lift _ otd_refl).
  - apply (la_weaken (0 + (0 + (3 + 0)))); [lia|].
    apply la_bind; [intros st; exists []; rewrite app_nil_r; split; [reflexivity | simpl; lia]|].
    intros _. apply la_bind; [apply la_pure, getApiUrl_pure|].
    intros api. apply la_bind; [apply Hr|].
    intros r. now apply la_pure.
Qed.

Lemma requestApi_loop_footprint turns : forall retry response url method body headers,
  preserves only_tokens_differ (requestApi_loop pf turns retry response url method body headers)
  /\ logs_at_most (3 * turns) (requestApi_loop pf turns retry response url method body headers).
Proof.
  assert (forall url method retry response,
             preserves only_tokens_differ (requestApi_end url method retry response)
             /\ logs_at_most 0 (requestApi_end url method retry response)) as Hend.
  { intros url method retry response. split.
    - intros st. rewrite requestApi_end_result. apply otd_refl.
    - apply la_pure. intros st. now rewrite requestApi_end_result. }
  induction turns as [|turns IH]; intros retry response url method body headers.
  - simpl. apply Hend.
  - cbn [requestApi_loop]. destruct (retry <=? MAX_RETRIES).
    2:{ split; [apply Hend | apply (la_weaken 0); [lia | apply Hend]]. }
    pose proof (requestApi_try_footprint url method body headers) as [Ht Htl].
    split.
    + intros st. specialize (Ht st).
      destruct (requestApi_try pf url method body headers st) as [[[r|v]|e] st1]; simpl in *.
      * eapply otd_trans; [exact Ht | apply Hend].
      * exact Ht.
      * eapply otd_trans; [exact Ht | apply IH].
    + intros st. destruct (Htl st) as (l & Hl & Hn).
      destruct (requestApi_try pf url method body headers st) as [[[r|v]|e] st1]; simpl in *.
      * destruct (proj2 (Hend url method retry r) st1) as (l' & Hl' & Hn').
        exists (l ++ l'). rewrite Hl', Hl, app_assoc, length_app. split; [reflexivity | lia].
      * exists l. split; [exact Hl | lia].
      * destruct (proj2 (IH (S retry) response url method body headers) st1) as (l' & Hl' & Hn').
        exists (l ++ l'). rewrite Hl', Hl, app_assoc, length_app. split; [reflexivity | lia].
Qed.

Lemma requestApi_preserved url method body headers :
  preserves only_tokens_differ (requestApi pf url method body headers)
  /\ logs_at_most 9 (requestApi pf url method body headers).
Proof.
  unfold requestApi.
  apply (requestApi_loop_footprint MAX_RETRIES 1 VNull url method body
           (match headers with VUndefined => VObj [] | _ => headers end)).
Qed.

(** X1.  One call of [#requestApi] makes nine calls of [fetch] at most (three
    attempts, each a request, an exchange and a replay at most), takes none
    off the record, writes no file, and leaves every field of the instance
    as it was but for the access token and the refresh token. *)
Theorem requestApi_footprint (url method : string) (body headers : value) (st : state) :
  only_tokens_differ st (snd (requestApi pf url method body headers st))
  /\ exists l,
       fetched (out (snd (requestApi pf url method body headers st))) = fetched (out st) ++ l
       /\ length l <= 9.
Proof.
  destruct (requestApi_preserved url method body headers) as [Hp Hl].
  split; [apply Hp | apply Hl].
Qed.

(** X2.  What a token exchange does to the instance.  When it fails, the
    fields are as they were: the tokens held before are kept.  When it
    succeeds, the access token and the refresh token are the properties
    [access_token] and [refresh_token] of the parsed body, whatever they are
    ([undefined] for a property that is not there), and no other field has
    changed.  Either way no file is written and the counter of attempts is
    as it was. *)
Theorem requestAuthorizationToken_tokens (token : value) (g : grant_type) (st : state) :
  match requestAuthorizationToken pf token g st with
  | (Err _, st') => this st' = this st
  | (Ok authorization, st') =>
      exists access refresh,
        get authorization "access_token" = Ok access
        /\ get authorization "refresh_token" = Ok refresh
        /\ this st' = set_tokens (nsState (this st)) (nsCode (this st)) access refresh (this st)
  end
  /\ disk (out (snd (requestAuthorizationToken pf token g st))) = disk (out st)
  /\ attempts (out (snd (requestAuthorizationToken pf token g st))) = attempts (out st).
Proof.
  destruct (requestAuthorizationToken pf token g st) as [r st'] eqn:E.
  apply requestAuthorizationToken_state in E. destruct r; exact E.
Qed.

(** What the body of the [try] of [#requestApi] ends with when it does not
    throw. *)
Lemma requestApi_inspect_ok url method response c :
  requestApi_inspect url method response = Ok c ->
  c = Return VNull
  \/ (c = Break response
      /\ exists err, get response "error" = Ok err /\ truthy err = false).
Proof.
  unfold requestApi_inspect.
  destruct (get response "error") as [err|e] eqn:Herr; [|discriminate].
  destruct (truthy err) eqn:Ht.
  - destruct (get err "message") as [m|e]; [|discriminate].
    destruct (to_string m) as [t|e]; [|discriminate].
    destruct (Regex.test_anywhere re_io_error true t); [|discriminate].
    intros [= <-]. now left.
  - intros [= <-]. right. split; [reflexivity|]. now exists err.
Qed.

Lemma requestApi_try_ok url method body headers st c st' :
  requestApi_try pf url method body headers st = (Ok c, st') ->
  c = Return VNull
  \/ exists response, c = Break response
       /\ exists err, get response "error" = Ok err /\ truthy err = false.
Proof.
  unfold requestApi_try. unfold bind at 1. unfold count_attempt.
  unfold bind at 1. destruct (getApiUrl (entered st)) as [[api|e] s1]; [|discriminate].
  unfold bind at 1.
  destruct (renewTokenWithNeeded pf (api +:+ url) method body headers s1) as [[r|e] s2];
    [|discriminate].
  unfold lift. intros [= H _]. apply requestApi_inspect_ok in H as [H | [H He]]; eauto.
Qed.

Lemma requestApi_loop_ok turns : forall retry response url method body headers st v st',
  requestApi_loop pf turns retry response url method body headers st = (Ok v, st') ->
  v = response \/ v = VNull
  \/ exists err, get v "error" = Ok err /\ truthy err = false.
Proof.
  induction turns as [|turns IH]; intros retry response url method body headers st v st' H;
    simpl in H.
  - rewrite requestApi_end_result in H. destruct (MAX_RETRIES <? retry); [discriminate|].
    injection H as <- _. now left.
  - destruct (retry <=? MAX_RETRIES).
    + destruct (requestApi_try pf url method body headers st) as [[c|e0] st1] eqn:E.
      * apply requestApi_try_ok in E as [-> | (r & -> & Hr)].
        -- injection H as <- _. right. now left.
        -- rewrite requestApi_end_result in H. destruct (MAX_RETRIES <? retry); [discriminate|].
           injection H as <- _. right. now right.
      * eapply IH; eauto.
    + rewrite requestApi_end_result in H. destruct (MAX_RETRIES <? retry); [discriminate|].
      injection H as <- _. now left.
Qed.

(** X3.  What [#requestApi] returns, when it returns, is [null] or a parsed
    body whose [error] is falsy: a body with a truthy [error] is never handed
    to the caller, and neither is [undefined]. *)
Theorem requestApi_result (url method : string) (body headers : value) (st : state) :
  match fst (requestApi pf url method body headers st) with
  | Ok v => v = VNull \/ exists err, get v "error" = Ok err /\ truthy err = false
  | Err e => e = MaxRetriesError method url
  end.
Proof.
  destruct (requestApi pf url method body headers st) as [[v|e] st'] eqn:E; simpl.
  - unfold requestApi in E. apply requestApi_loop_ok in E as [-> | [-> | H]]; auto.
  - unfold requestApi in E. now apply requestApi_loop_error in E.
Qed.

(** The body of the [try] of [downloadFile]: it changes no field, makes one
    call of [fetch] at most, and writes the file it returns the path of, or
    none. *)
Lemma downloadFile_try_state fileId folderPath st r st' :
  downloadFile_try pf fileId folderPath st = (r, st') ->
  this st' = this st
  /\ attempts (out st') = attempts (out st)
  /\ (exists l, fetched (out st') = fetched (out st) ++ l /\ length l <= 1)
  /\ match r with
     | Ok path => exists data, disk (out st') = <[path := data]> (disk (out st))
     | Err _ => disk (out st') = disk (out st)
     end.
Proof.
  assert (forall s : state, exists l, fetched (out s) = fetched (out s) ++ l /\ length l <= 1) as Hnone.
  { intros s. exists []. rewrite app_nil_r. split; [reflexivity | simpl; lia]. }
  unfold downloadFile_try. unfold bind at 1.
  pose proof (getRestletUrl_pure st) as Hu.
  destruct (getRestletUrl st) as [[url|e] s1]; simpl in Hu; subst s1.
  2:{ intros [= <- <-]. repeat split; auto. }
  unfold bind at 1. rewrite getAuthHeader_eq.
  destruct (to_string (nsAccessToken (this st))) as [ts|e].
  2:{ intros [= <- <-]. repeat split; auto. }
  unfold bind at 1. rewrite fetch_eq.
  set (req := download_request pf url _ fileId).
  assert (exists l, fetched (out (logged req st)) = fetched (out st) ++ l /\ length l <= 1) as Hone.
  { exists [req]. split; [reflexivity | simpl; lia]. }
  destruct (server pf (fetched (out st)) req) as [reason|resp].
  { intros [= <- <-]. repeat split; auto. }
  unfold bind at 1.
  assert (forall fileObj,
             (let* content := lift (get fileObj "content") in
              let* contentFile := lift (contentFile pf content) in
              let* info := lift (get fileObj "info") in
              let* name := lift (get info "name") in
              let* safe := lift (normalize_value name) in
              let* _ := writeFile pf (path_resolve pf folderPath safe) contentFile in
              ret (path_resolve pf folderPath safe))%ns (logged req st) = (r, st') ->
             this st' = this st
             /\ attempts (out st') = attempts (out st)
             /\ (exists l, fetched (out st') = fetched (out st) ++ l /\ length l <= 1)
             /\ match r with
                | Ok path => exists data, disk (out st') = <[path := data]> (disk (out st))
                | Err _ => disk (out st') = disk (out st)
                end) as Hrest.
  { intros fileObj. unfold bind, lift, ret, writeFile.
    destruct (get fileObj "content") as [content|e]; [|intros [= <- <-]; repeat split; auto].
    destruct (contentFile pf content) as [data|e]; [|intros [= <- <-]; repeat split; auto].
    destruct (get fileObj "info") as [info|e]; [|intros [= <- <-]; repeat split; auto].
    destruct (get info "name") as [name|e]; [|intros [= <- <-]; repeat split; auto].
    destruct (normalize_value name) as [safe|e]; [|intros [= <- <-]; repeat split; auto].
    destruct (write_failure pf _ data) as [reason|]; intros [= <- <-]; repeat split; auto.
    now exists data. }
  destruct (ok resp); cbn [negb].
  - unfold lift at 1. destruct (body_json resp) as [fileObj|e].
    + apply Hrest.
    + intros [= <- <-]. repeat split; auto.
  - unfold bind at 1. unfold lift at 1. destruct (body_text resp) as [t|e].
    + unfold throw. intros [= <- <-]. repeat split; auto.
    + intros [= <- <-]. repeat split; auto.
Qed.

Lemma downloadFile_eq fileId folderPath st :
  downloadFile pf fileId folderPath st
  = if truthy (nsScript (this st))
    then try_catch (downloadFile_try pf fileId folderPath)
           (fun _ => let* id := lift (to_string fileId) in throw (DownloadError id))%ns st
    else (Err (ConfigurationError "Script is required!"), st).
Proof.
  unfold downloadFile. unfold bind at 1. unfold read.
  destruct (truthy (nsScript (this st))); reflexivity.
Qed.

(** X4.  [downloadFile] changes no field of the instance, so that it never
    renews the access token, whatever the restlet answers; it makes one call
    of [fetch] at most and does not count as an attempt.  When it returns a
    path, one file has been written, at that path.  When it fails, no file
    has been written, and the error is the ConfigurationError of the missing
    script, the DownloadError that carries the text of the file id, or a
    TypeError when the file id has no text. *)
Theorem downloadFile_footprint (fileId : value) (folderPath : string) (st : state) :
  instance_untouched st (snd (downloadFile pf fileId folderPath st))
  /\ (exists l,
        fetched (out (snd (downloadFile pf fileId folderPath st))) = fetched (out st) ++ l
        /\ length l <= 1)
  /\ match downloadFile pf fileId folderPath st with
     | (Ok path, st') => exists data, disk (out st') = <[path := data]> (disk (out st))
     | (Err e, st') =>
         disk (out st') = disk (out st)
         /\ (e = ConfigurationError "Script is required!"
             \/ (exists id, to_string fileId = Ok id /\ e = DownloadError id)
             \/ (e = TypeError /\ to_string fileId = Err TypeError))
     end.
Proof.
  rewrite downloadFile_eq. unfold instance_untouched.
  destruct (truthy (nsScript (this st))).
  2:{ simpl. repeat split; auto.
      exists []. rewrite app_nil_r. split; [reflexivity | simpl; lia]. }
  unfold try_catch.
  destruct (downloadFile_try pf fileId folderPath st) as [[path|e] st1] eqn:E;
    apply downloadFile_try_state in E as (Hthis & Hatt & Hlog & Hdisk).
  - simpl. repeat split; auto.
  - unfold bind, lift, throw.
    destruct (to_string fileId) as [id|e'] eqn:Hid; simpl; repeat split; auto.
    + right. left. now exists id.
    + right. right. now rewrite (to_string_error _ _ Hid).
Qed.

(** *** Addresses *)

(** A replacement text with no [$] in it stands for itself. *)
Lemma get_substitution_plain matched before after r :
  Scan.none_of Scan.is_dollar r = true ->
  get_substitution matched before after r = r.
Proof.
  unfold Scan.none_of, Scan.is_dollar.
  induction r as [|c r IH]; [reflexivity|]. cbn [Scan.all_chars get_substitution].
  destruct (Ascii.eqb c "$"); [discriminate|]. cbn [negb andb]. intros H.
  now rewrite (IH H).
Qed.

Lemma replace_percent_s_plain before after r :
  Scan.none_of Scan.is_dollar r = true ->
  replace_percent_s before after r = before +:+ r +:+ after.
Proof. intros H. unfold replace_percent_s. now rewrite get_substitution_plain. Qed.

Lemma addresses_plain st a :
  to_string (nsAccountId (this st)) = Ok a ->
  Scan.none_of Scan.is_dollar a = true ->
  getTokenUrl st = (Ok (token_endpoint a), st)
  /\ (forall s d,
        to_string (nsScript (this st)) = Ok s ->
        to_string (nsDeploy (this st)) = Ok d ->
        getRestletUrl st = (Ok (restlet_url a s d), st))
  /\ (forall c,
        to_string (nsClientId (this st)) = Ok c ->
        generateAuthorizeRequest pf st
        = (Ok (authorize_url a c (random_uuid pf)),
           {| this := set_tokens (VStr (random_uuid pf)) (nsCode (this st))
                        (nsAccessToken (this st)) (nsRefreshToken (this st)) (this st);
              out := out st |})).
Proof.
  intros Ha Hplain.
  assert (getApiUrl st = (Ok (api_root a), st)) as Hapi.
  { rewrite getApiUrl_eq, Ha. unfold api_root. now rewrite replace_percent_s_plain. }
  split; [|split].
  - unfold getTokenUrl, bind. now rewrite Hapi.
  - intros s d Hs Hd. unfold getRestletUrl, bind, read, lift, ret.
    rewrite Ha, Hs, Hd. unfold restlet_url. now rewrite replace_percent_s_plain.
  - intros c Hc. unfold generateAuthorizeRequest, bind, update, read, lift, ret. simpl.
    rewrite Ha, Hc. unfold authorize_url. now rewrite replace_percent_s_plain.
Qed.

(** X5.  The addresses that the service calls, for an account id whose text
    has no [$] in it: the id takes the place of [%s] in the host name, of the
    REST API, of the token endpoint under it, of the restlet, whose query
    names the script and the deployment, and of the consent screen, whose
    query carries the client id, the fixed redirect address and scopes, and
    the state that [randomUUID] gave.  Building the address of the consent
    screen is what assigns the pending state. *)
Theorem addresses_of_account (st : state) (a : string) :
  to_string (nsAccountId (this st)) = Ok a ->
  Scan.none_of Scan.is_dollar a = true ->
  getApiUrl st = (Ok (api_root a), st)
  /\ getTokenUrl st = (Ok (token_endpoint a), st)
  /\ (forall s d,
        to_string (nsScript (this st)) = Ok s ->
        to_string (nsDeploy (this st)) = Ok d ->
        getRestletUrl st = (Ok (restlet_url a s d), st))
  /\ (forall c,
        to_string (nsClientId (this st)) = Ok c ->
        generateAuthorizeRequest pf st
        = (Ok (authorize_url a c (random_uuid pf)),
           {| this := set_tokens (VStr (random_uuid pf)) (nsCode (this st))
                        (nsAccessToken (this st)) (nsRefreshToken (this st)) (this st);
              out := out st |})).
Proof.
  intros Ha Hplain. split; [|apply (addresses_plain st a Ha Hplain)].
  rewrite getApiUrl_eq, Ha. unfold api_root. now rewrite replace_percent_s_plain.
Qed.

(** X6.  An instance built with no deployment, or with a falsy one such as
    0, calls the deployment 1 of its script: the restlet address ends in
    [&deploy=1]. *)
Theorem restlet_default_deploy (p : params) (f : fields) (w : world) (a s : string) :
  constructor pf p = Ok f ->
  truthy (deploy p) = false ->
  to_string (accountId p) = Ok a ->
  Scan.none_of Scan.is_dollar a = true ->
  to_string (script p) = Ok s ->
  fst (getRestletUrl {| this := f; out := w |}) = Ok (restlet_url a s "1").
Proof.
  intros Hc Hd Ha Hplain Hs. unfold constructor in Hc.
  destruct (negb (truthy (accountId p))); [discriminate|].
  destruct (negb (truthy (client p))); [discriminate|].
  destruct (negb (truthy (secret p))); [discriminate|].
  injection Hc as <-.
  unfold getRestletUrl, bind, read, lift, ret. simpl.
  rewrite Ha, Hs. unfold js_or. rewrite Hd. simpl.
  unfold restlet_url. now rewrite replace_percent_s_plain.
Qed.

(** *** Headers *)

Lemma lookup_list_to_map_assoc (k : string) (props : list (string * value)) :
  (list_to_map props : gmap string value) !! k = assoc k props.
Proof.
  induction props as [|[k' v] props IH]; [reflexivity|].
  cbn [assoc]. rewrite list_to_map_cons.
  destruct (String.eqb_spec k' k) as [->|Hne].
  - apply lookup_insert_eq.
  - rewrite lookup_insert_ne by exact Hne. exact IH.
Qed.

Lemma api_request_headers tok url method body headers k :
  req_headers (api_request tok url method body headers) !! k
  = match assoc k (spread headers) with
    | Some v => Some v
    | None => if String.eqb k "Authorization"
              then Some (VStr ("Bearer " +:+ tok)) else None
    end.
Proof.
  unfold api_request. cbn [req_headers]. rewrite lookup_union, lookup_list_to_map_assoc.
  destruct (String.eqb_spec k "Authorization") as [->|Hne].
  - rewrite lookup_singleton_eq. destruct (assoc _ _); reflexivity.
  - rewrite lookup_singleton_ne by congruence. destruct (assoc _ _); reflexivity.
Qed.

(** X7.  The request that [#internalRequest] sends, when the access token
    has a text: one call of [fetch], to the address, with the method and the
    body it was given.  Every header of the caller is sent as it is; the
    header [Authorization] with the bearer token is sent only when the caller
    gave none of that name, and no other header is added. *)
Theorem internalRequest_headers (url method : string) (body headers : value)
    (st : state) (tok : string) :
  to_string (nsAccessToken (this st)) = Ok tok ->
  exists req,
    fetched (out (snd (internalRequest pf url method body headers st)))
    = fetched (out st) ++ [req]
    /\ req_url req = url /\ req_method req = method /\ req_body req = body
    /\ forall k,
         req_headers req !! k
         = match assoc k (spread headers) with
           | Some v => Some v
           | None => if String.eqb k "Authorization"
                     then Some (VStr ("Bearer " +:+ tok)) else None
           end.
Proof.
  intros H. exists (api_request tok url method body headers).
  rewrite (internalRequest_eq pf url method body headers st tok H), fetch_eq.
  repeat split. apply api_request_headers.
Qed.

(** *** The first request of a call *)

Lemma renewTokenWithNeeded_first url method body headers st tok :
  to_string (nsAccessToken (this st)) = Ok tok ->
  exists l,
    fetched (out (snd (renewTokenWithNeeded pf url method body headers st)))
    = fetched (out st) ++ api_request tok url method body headers :: l.
Proof.
  intros Htok. unfold renewTokenWithNeeded. unfold bind at 1.
  rewrite (internalRequest_eq pf url method body headers st tok Htok), fetch_eq.
  set (req := api_request tok url method body headers).
  destruct (server pf (fetched (out st)) req) as [reason|r].
  { exists []. reflexivity. }
  assert (logs_at_most 2
            (let* response := (if status r =? 401
                               then let* _ := refreshToken pf in
                                    internalRequest pf url method body headers
                               else ret r) in
             if status response =? 401
             then throw (AuthenticationError (statusText response))
             else lift (body_json response))%ns) as Hrest.
  { apply (la_weaken (2 + 0)); [lia|]. apply la_bind.
    - destruct (status r =? 401); [|apply (la_weaken 0); [lia | now apply la_pure]].
      apply (la_bind 1 1); [|intros _; apply internalRequest_footprint].
      apply (la_weaken (0 + 1)); [lia|].
      apply la_bind; [now apply la_pure|].
      intros t. apply requestAuthorizationToken_footprint.
    - intros r2. destruct (status r2 =? 401); now apply la_pure. }
  destruct (Hrest (logged req st)) as (l & Hl & _).
  exists l. rewrite Hl. simpl. now rewrite <- app_assoc.
Qed.

Lemma requestApi_try_first url method body headers st a tok :
  to_string (nsAccountId (this st)) = Ok a ->
  to_string (nsAccessToken (this st)) = Ok tok ->
  exists l,
    fetched (out (snd (requestApi_try pf url method body headers st)))
    = fetched (out st)
      ++ api_request tok
           (replace_percent_s "https://" ".suitetalk.api.netsuite.com/services/rest" a +:+ url)
           method body headers :: l.
Proof.
  intros Ha Htok. unfold requestApi_try. unfold bind at 1. unfold count_attempt.
  unfold bind at 1. rewrite getApiUrl_eq. cbn [entered this]. rewrite Ha.
  unfold bind at 1.
  destruct (renewTokenWithNeeded_first
              (replace_percent_s "https://" ".suitetalk.api.netsuite.com/services/rest" a +:+ url)
              method body headers (entered st) tok Htok) as (l & Hl).
  destruct (renewTokenWithNeeded pf _ method body headers (entered st)) as [[r|e] s1];
    simpl in Hl; exists l; exact Hl.
Qed.

Lemma requestApi_first url method body headers st a tok :
  to_string (nsAccountId (this st)) = Ok a ->
  to_string (nsAccessToken (this st)) = Ok tok ->
  exists l,
    fetched (out (snd (requestApi pf url method body headers st)))
    = fetched (out st)
      ++ api_request tok
           (replace_percent_s "https://" ".suitetalk.api.netsuite.com/services/rest" a +:+ url)
           method body
           (match headers with VUndefined => VObj [] | _ => headers end) :: l.
Proof.
  intros Ha Htok. unfold requestApi.
  set (h := match headers with VUndefined => VObj [] | _ => headers end).
  change (requestApi_loop pf MAX_RETRIES 1 VNull url method body h st)
    with (match requestApi_try pf url method body h st with
          | (Ok (Return v), st') => (Ok v, st')
          | (Ok (Break response'), st') => requestApi_end url method 1 response' st'
          | (Err _, st') => requestApi_loop pf 2 2 VNull url method body h st'
          end).
  destruct (requestApi_try_first url method body h st a tok Ha Htok) as (l & Hl).
  destruct (requestApi_try pf url method body h st) as [[[r|v]|e] st1]; simpl in Hl.
  - rewrite requestApi_end_result. simpl. now exists l.
  - now exists l.
  - destruct (proj2 (requestApi_loop_footprint 2 2 VNull url method body h) st1)
      as (l' & Hl' & _).
    exists (l ++ l'). rewrite Hl', Hl. now rewrite <- app_assoc.
Qed.

(** X8.  [executeSuiteQl] starts with a POST to [/query/v1/suiteql] under
    the root of the REST API, whose body is what [JSON.stringify] makes of
    the object that holds the query under [q].  Its headers are [Prefer:
    transient] and the bearer token, and no other: no content type is
    declared. *)
Theorem executeSuiteQl_request (query : string) (st : state) (a tok : string) :
  to_string (nsAccountId (this st)) = Ok a ->
  Scan.none_of Scan.is_dollar a = true ->
  to_string (nsAccessToken (this st)) = Ok tok ->
  exists req l,
    fetched (out (snd (executeSuiteQl pf query st))) = fetched (out st) ++ req :: l
    /\ req_url req = api_root a +:+ "/query/v1/suiteql"
    /\ req_method req = "POST"
    /\ req_body req = VStr (json_stringify pf (VObj [("q", VStr query)]))
    /\ req_headers req !! "Prefer" = Some (VStr "transient")
    /\ req_headers req !! "Authorization" = Some (VStr ("Bearer " +:+ tok))
    /\ forall k, k <> "Prefer" -> k <> "Authorization" -> req_headers req !! k = None.
Proof.
  intros Ha Hplain Htok. unfold executeSuiteQl, requestPost.
  destruct (requestApi_first "/query/v1/suiteql" "POST"
              (VStr (json_stringify pf (VObj [("q", VStr query)])))
              (VObj [("Prefer", VStr "transient")]) st a tok Ha Htok) as (l & Hl).
  rewrite (replace_percent_s_plain _ _ _ Hplain) in Hl. fold (api_root a) in Hl.
  eexists. exists l. split; [exact Hl|].
  repeat split.
  intros k Hp Hauth. rewrite api_request_headers. cbn [spread assoc].
  destruct (String.eqb_spec "Prefer" k); [congruence|].
  destruct (String.eqb_spec k "Authorization"); [congruence | reflexivity].
Qed.

(** *** [signIn] *)

(** A successful exchange: the request could be put together, the token
    endpoint answered it with a body that has no truthy [error], and the two
    tokens of that body are now those of the instance. *)
Lemma requestAuthorizationToken_ok token g st authorization st2 :
  requestAuthorizationToken pf token g st = (Ok authorization, st2) ->
  exists tok url auth r access refresh,
    to_string token = Ok tok
    /\ getTokenUrl st = (Ok url, st)
    /\ getClientAuth pf st = (Ok auth, st)
    /\ server pf (fetched (out st)) (token_request url auth g tok) = Responds r
    /\ body_json r = Ok authorization
    /\ get authorization "access_token" = Ok access
    /\ get authorization "refresh_token" = Ok refresh
    /\ st2 = {| this := set_tokens (nsState (this st)) (nsCode (this st)) access refresh (this st);
                out := out (logged (token_request url auth g tok) st) |}.
Proof.
  intros H.
  destruct (requestAuthorizationToken_start token g st)
    as [E | (tok & url & auth & Htok & Hurl & Hauth)].
  { rewrite E in H. discriminate. }
  rewrite (requestAuthorizationToken_fetch pf token g st tok url auth Htok Hurl Hauth) in H.
  cbv zeta in H.
  destruct (server pf (fetched (out st)) _) as [reason|resp] eqn:Hsrv; [discriminate|].
  destruct (body_json resp) as [body|e] eqn:Hjson; [|discriminate].
  destruct (get body "error") as [err|e] eqn:Herr; [|discriminate].
  destruct (truthy err); [discriminate|].
  destruct (get_defined _ _ _ Herr "access_token") as [access Hacc].
  destruct (get_defined _ _ _ Herr "refresh_token") as [refresh Href].
  rewrite (setAuthorizationTokens_eq _ _ _ _ Hacc Href) in H.
  injection H as <- <-.
  exists tok, url, auth, resp, access, refresh. repeat split; assumption.
Qed.

(** X9.  [signIn] on an instance that holds an access token asks for no
    code: it reads the account record, so that the pending state and the
    pending code stay as they are and the only error is the MaxRetriesError
    of that GET.  On an instance that holds none, it assigns the pending
    state, which [randomUUID] gives, and the pending code, which is the
    answer of the operator to the address of the consent screen, whether the
    exchange that follows succeeds or not.  When it succeeds, the token
    endpoint has been sent one request, with the grant [authorization_code],
    the redirect address and that answer for the code, and the two tokens
    are those of the body it answered with.  When it fails, the error is the
    AuthExchangeError of the code and the two tokens are as they were.  The
    answer of the operator is used as it is: the state is not compared with
    anything. *)
Theorem signIn_outcome (st : state) :
  (truthy (nsAccessToken (this st)) = true ->
     only_tokens_differ st (snd (signIn pf st))
     /\ forall e, fst (signIn pf st) = Err e -> e = MaxRetriesError "GET" "/record/v1/account")
  /\ (forall a c,
        truthy (nsAccessToken (this st)) = false ->
        to_string (nsAccountId (this st)) = Ok a ->
        Scan.none_of Scan.is_dollar a = true ->
        to_string (nsClientId (this st)) = Ok c ->
        let code := prompt_answer pf (authorize_url a c (random_uuid pf)) in
        let st' := snd (signIn pf st) in
        nsState (this st') = VStr (random_uuid pf)
        /\ nsCode (this st') = VStr code
        /\ same_credentials (this st) (this st')
        /\ match fst (signIn pf st) with
           | Ok _ =>
               exists auth r authorization,
                 fetched (out st')
                 = fetched (out st)
                   ++ [token_request (token_endpoint a) auth authorization_code code]
                 /\ server pf (fetched (out st))
                      (token_request (token_endpoint a) auth authorization_code code)
                    = Responds r
                 /\ body_json r = Ok authorization
                 /\ get authorization "access_token" = Ok (nsAccessToken (this st'))
                 /\ get authorization "refresh_token" = Ok (nsRefreshToken (this st'))
           | Err e =>
               e = AuthExchangeError "code"
               /\ nsAccessToken (this st') = nsAccessToken (this st)
               /\ nsRefreshToken (this st') = nsRefreshToken (this st)
           end).
Proof.
  split.
  - intros Ht.
    assert (signIn pf st
            = match requestApi pf "/record/v1/account" "GET" VUndefined VUndefined st with
              | (Ok _, st') => (Ok tt, st')
              | (Err e, st') => (Err e, st')
              end) as ->.
    { unfold signIn. unfold bind at 1. unfold read. rewrite Ht. reflexivity. }
    pose proof (proj1 (requestApi_preserved "/record/v1/account" "GET" VUndefined VUndefined) st)
      as Hp.
    destruct (requestApi pf "/record/v1/account" "GET" VUndefined VUndefined st)
      as [[v|e] st1] eqn:E; cbn beta iota delta [fst snd] in *.
    + split; [exact Hp | discriminate].
    + split; [exact Hp|]. intros e' He'. injection He' as <-.
      now apply requestApi_error in E.
  - intros a c Ht Ha Hplain Hc code st'. subst st'.
    destruct (addresses_plain st a Ha Hplain) as (_ & _ & Hgen).
    specialize (Hgen c Hc).
    set (st2 := {| this := set_tokens (VStr (random_uuid pf)) (VStr code)
                             (nsAccessToken (this st)) (nsRefreshToken (this st)) (this st);
                   out := out st |}).
    assert (signIn pf st
            = match requestAuthorizationToken pf (VStr code) authorization_code st2 with
              | (Ok _, st') => (Ok tt, st')
              | (Err e, st') => (Err e, st')
              end) as ->.
    { unfold signIn. unfold bind at 1. unfold read. rewrite Ht.
      unfold bind at 1. rewrite Hgen. reflexivity. }
    destruct (requestAuthorizationToken pf (VStr code) authorization_code st2)
      as [[authorization|e] st3] eqn:E.
    + apply requestAuthorizationToken_ok in E
        as (tok & url & auth & r & access & refresh & Htok & Hurl & Hauth & Hsrv & Hjson
            & Hacc & Href & ->).
      injection Htok as <-.
      assert (url = token_endpoint a) as ->.
      { destruct (addresses_plain st2 a Ha Hplain) as (Hu & _). congruence. }
      simpl. repeat split.
      exists auth, r, authorization. repeat split; assumption.
    + pose proof (requestAuthorizationToken_error pf _ _ _ _ _ E) as ->.
      apply requestAuthorizationToken_state in E as (Hthis & _ & _).
      simpl. rewrite Hthis. repeat split.
Qed.

(** *** [#refreshToken] *)

(** An exchange whose request can be put together sends it, and nothing
    else. *)
Lemma requestAuthorizationToken_sent token g st tok url auth :
  to_string token = Ok tok ->
  getTokenUrl st = (Ok url, st) ->
  getClientAuth pf st = (Ok auth, st) ->
  fetched (out (snd (requestAuthorizationToken pf token g st)))
  = fetched (out st) ++ [token_request url auth g tok].
Proof.
  intros Htok Hurl Hauth.
  rewrite (requestAuthorizationToken_fetch pf token g st tok url auth Htok Hurl Hauth).
  cbv zeta.
  destruct (server pf (fetched (out st)) _) as [reason|resp]; [reflexivity|].
  destruct (body_json resp) as [authorization|e]; [|reflexivity].
  destruct (get authorization "error") as [err|e] eqn:Herr; [|reflexivity].
  destruct (truthy err); [reflexivity|].
  destruct (get_defined _ _ _ Herr "access_token") as [access Hacc].
  destruct (get_defined _ _ _ Herr "refresh_token") as [refresh Href].
  now rewrite (setAuthorizationTokens_eq _ _ _ _ Hacc Href).
Qed.

(** X10.  An instance that the constructor built with an access token has
    no refresh token: the constructor left [null] in its place.  When such an
    instance refreshes, it still makes the call: the token endpoint is sent
    the grant [refresh_token] with the text [null] for the token, and no
    redirect address, under the Basic authorization of the client. *)
Theorem refreshToken_of_new_instance (p : params) (f : fields) (w : world) (a c s : string) :
  constructor pf p = Ok f ->
  to_string (accountId p) = Ok a ->
  Scan.none_of Scan.is_dollar a = true ->
  to_string (client p) = Ok c ->
  to_string (secret p) = Ok s ->
  fetched (out (snd (refreshToken pf {| this := f; out := w |})))
  = fetched w
    ++ [{| req_url := token_endpoint a; req_method := "POST";
           req_headers :=
             {[ "Content-Type" := VStr "application/x-www-form-urlencoded";
                "Authorization" := VStr ("Basic " +:+ base64_of_text pf (c +:+ ":" +:+ s)) ]};
           req_body := VObj [("grant_type", VStr "refresh_token");
                             ("refresh_token", VStr "null")] |}].
Proof.
  intros Hc Ha Hplain Hcl Hs. unfold constructor in Hc.
  destruct (negb (truthy (accountId p))); [discriminate|].
  destruct (negb (truthy (client p))); [discriminate|].
  destruct (negb (truthy (secret p))); [discriminate|].
  injection Hc as <-.
  set (st := {| this := _; out := w |}).
  assert (refreshToken pf st = requestAuthorizationToken pf VNull refresh_token st) as ->
    by reflexivity.
  apply (requestAuthorizationToken_sent VNull refresh_token st "null").
  - reflexivity.
  - apply (addresses_plain st a); [exact Ha | exact Hplain].
  - unfold getClientAuth, bind, read, lift, ret. cbn [this st nsClientId nsClientSecret
      logout_fields set_tokens]. now rewrite Hcl, Hs.
Qed.

End Footprint.

Lemma addresses_of_account_witness :
  getApiUrl Scenarios.sample_state
  = (Ok "https://123.suitetalk.api.netsuite.com/services/rest", Scenarios.sample_state)
  /\ getTokenUrl Scenarios.sample_state = (Ok Scenarios.token_url, Scenarios.sample_state)
  /\ getRestletUrl Scenarios.sample_state
     = (Ok "https://123.restlets.api.netsuite.com/app/site/hosting/restlet.nl?script=1054&deploy=1",
        Scenarios.sample_state)
  /\ fst (generateAuthorizeRequest (Scenarios.platform_of Scenarios.server_down)
            Scenarios.sample_state)
     = Ok ("https://123.app.netsuite.com/app/login/oauth2/authorize.nl?client_id=id"
           +:+ "&response_type=code&redirect_uri=https://login.live.com/oauth20_desktop.srf"
           +:+ "&scope=restlets,rest_webservices&state=0000").
Proof.
  destruct (addresses_of_account (Scenarios.platform_of Scenarios.server_down)
              Scenarios.sample_state "123" eq_refl eq_refl) as (H1 & H2 & H3 & H4).
  split; [exact H1|]. split; [exact H2|]. split.
  - exact (H3 "1054" "1" eq_refl eq_refl).
  - now rewrite (H4 "id" eq_refl).
Defined.

Lemma restlet_default_deploy_witness :
  exists f,
    constructor (Scenarios.platform_of Scenarios.server_down) Scenarios.sample_params = Ok f
    /\ fst (getRestletUrl {| this := f; out := new_world |})
       = Ok "https://123.restlets.api.netsuite.com/app/site/hosting/restlet.nl?script=1054&deploy=1".
Proof.
  eexists. split; [reflexivity|].
  apply (restlet_default_deploy (Scenarios.platform_of Scenarios.server_down)
           Scenarios.sample_params _ new_world "123" "1054"); reflexivity.
Defined.

Lemma internalRequest_headers_witness :
  exists req,
    fetched (out (snd (internalRequest (Scenarios.platform_of Scenarios.server_granting)
                         "https://example.invalid/x" "GET" VUndefined
                         (VObj [("Authorization", VStr "Basic abc"); ("Accept", VStr "text/csv")])
                         Scenarios.sample_state)))
    = [req]
    /\ req_headers req !! "Authorization" = Some (VStr "Basic abc")
    /\ req_headers req !! "Accept" = Some (VStr "text/csv")
    /\ req_headers req !! "Content-Type" = None.
Proof.
  destruct (internalRequest_headers (Scenarios.platform_of Scenarios.server_granting)
              "https://example.invalid/x" "GET" VUndefined
              (VObj [("Authorization", VStr "Basic abc"); ("Accept", VStr "text/csv")])
              Scenarios.sample_state "A" eq_refl) as (req & Hlog & _ & _ & _ & Hh).
  exists req. split; [exact Hlog|].
  split; [|split]; rewrite Hh; reflexivity.
Defined.

Lemma executeSuiteQl_request_witness :
  exists req l,
    fetched (out (snd (executeSuiteQl (Scenarios.platform_of Scenarios.server_granting)
                         "SELECT 1" Scenarios.sample_state)))
    = req :: l
    /\ req_url req = "https://123.suitetalk.api.netsuite.com/services/rest/query/v1/suiteql"
    /\ req_method req = "POST"
    /\ req_headers req !! "Prefer" = Some (VStr "transient")
    /\ req_headers req !! "Authorization" = Some (VStr "Bearer A")
    /\ req_headers req !! "Content-Type" = None.
Proof.
  destruct (executeSuiteQl_request (Scenarios.platform_of Scenarios.server_granting)
              "SELECT 1" Scenarios.sample_state "123" "A" eq_refl eq_refl eq_refl)
    as (req & l & Hlog & Hurl & Hm & _ & Hp & Ha & Hno).
  exists req, l. repeat split; try assumption.
  apply Hno; discriminate.
Defined.

Lemma signIn_outcome_witness :
  let pf := Scenarios.platform_of Scenarios.server_granting in
  let st := {| this := logout_fields Scenarios.sample_fields; out := new_world |} in
  nsState (this (snd (signIn pf st))) = VStr "0000"
  /\ nsCode (this (snd (signIn pf st))) = VStr "CODE"
  /\ only_tokens_differ Scenarios.sample_state (snd (signIn pf Scenarios.sample_state)).
Proof.
  cbv zeta.
  pose proof (proj2 (signIn_outcome (Scenarios.platform_of Scenarios.server_granting)
                       {| this := logout_fields Scenarios.sample_fields; out := new_world |})
                "123" "id" eq_refl eq_refl eq_refl eq_refl) as H.
  cbv zeta in H. destruct H as (H1 & H2 & _).
  split; [exact H1|]. split; [exact H2|].
  apply (proj1 (signIn_outcome (Scenarios.platform_of Scenarios.server_granting)
                  Scenarios.sample_state)).
  reflexivity.
Defined.

Lemma refreshToken_of_new_instance_witness :
  exists f,
    constructor (Scenarios.platform_of Scenarios.server_expired)
      {| accountId := VStr "123"; client := VStr "id"; secret := VStr "key";
         token := VStr "A"; script := VUndefined; deploy := VUndefined;
         debug := VUndefined; logToken := VUndefined |} = Ok f
    /\ map req_body
         (fetched (out (snd (refreshToken (Scenarios.platform_of Scenarios.server_expired)
                               {| this := f; out := new_world |}))))
       = [VObj [("grant_type", VStr "refresh_token"); ("refresh_token", VStr "null")]].
Proof.
  eexists. split; [reflexivity|].
  rewrite (refreshToken_of_new_instance (Scenarios.platform_of Scenarios.server_expired)
             {| accountId := VStr "123"; client := VStr "id"; secret := VStr "key";
                token := VStr "A"; script := VUndefined; deploy := VUndefined;
                debug := VUndefined; logToken := VUndefined |}
             _ new_world "123" "id" "key" eq_refl eq_refl eq_refl eq_refl eq_refl).
  reflexivity.
Defined.

(** *** The content of a downloaded file *)

Lemma digit64_not_pad c : Base64.is_digit64 c = true -> Base64.is_pad c = false.
Proof.
  destruct c as [[|] [|] [|] [|] [|] [|] [|] [|]]; vm_compute; congruence.
Qed.

(** A text that the expression accepts is whole groups of four characters,
    and decodes to three bytes a group, but for the last, which gives one
    byte less for each pad. *)
Lemma decode_length n : forall s,
  String.length s <= n ->
  Base64.groups_of_four s = true ->
  (exists k, String.length s = 4 * k /\ 0 < k)
  /\ 4 * length (Base64.decode s) <= 3 * String.length s
  /\ 3 * String.length s <= 4 * length (Base64.decode s) + 8.
Proof.
  induction n as [|n IH]; intros s Hn Hs.
  - destruct s; [discriminate | simpl in Hn; lia].
  - destruct s as [|a [|b [|c [|d rest]]]]; try discriminate.
    destruct rest as [|e rest].
    + cbn [Base64.groups_of_four] in Hs. cbn [Base64.decode String.length].
      split; [exists 1; lia|].
      destruct (Base64.is_pad c) eqn:Hc; [cbn [length app]; lia|].
      destruct (Base64.is_pad d) eqn:Hd; cbn [length app]; lia.
    + remember (String e rest) as t eqn:Et.
      assert (Base64.groups_of_four (String a (String b (String c (String d t))))
              = Base64.is_digit64 a && Base64.is_digit64 b && Base64.is_digit64 c
                && Base64.is_digit64 d && Base64.groups_of_four t) as E
        by (rewrite Et; reflexivity).
      rewrite E in Hs.
      apply andb_true_iff in Hs as [Hs Ht].
      apply andb_true_iff in Hs as [Hs Hd].
      apply andb_true_iff in Hs as [_ Hc].
      cbn [String.length] in Hn.
      destruct (IH t ltac:(lia) Ht) as ((k & Hk & Hpos) & Hlo & Hhi).
      assert (Base64.decode (String a (String b (String c (String d t))))
              = [Base64.byte_of_N (Base64.digit64 a * 4 + Base64.digit64 b / 16);
                 Base64.byte_of_N (Base64.digit64 b * 16 + Base64.digit64 c / 4);
                 Base64.byte_of_N (Base64.digit64 c * 64 + Base64.digit64 d)]
                ++ Base64.decode t) as ->.
      { cbn [Base64.decode]. now rewrite (digit64_not_pad c Hc), (digit64_not_pad d Hd). }
      cbn [String.length]. rewrite length_app. cbn [length].
      split; [exists (S k); lia | lia].
Qed.

(** X11.  A content that the base64 expression accepts is never written as
    it is: whatever it was meant to be, a text of whole groups of four
    characters of the alphabet, such as a word of four letters, is written as
    the bytes it decodes to, which are fewer than its characters: three for
    each group of four, less one for each pad at the end. *)
Theorem contentFile_of_accepted_text (pf : platform) (content : string) :
  isFileInBase64 content = true ->
  contentFile pf (VStr content) = Ok (FBytes (Base64.decode content))
  /\ (exists k, String.length content = 4 * k /\ 0 < k)
  /\ 4 * length (Base64.decode content) <= 3 * String.length content
  /\ 3 * String.length content <= 4 * length (Base64.decode content) + 8.
Proof.
  intros H. split.
  - cbn [contentFile]. now rewrite H.
  - apply (decode_length (String.length content)); [lia|].
    revert H. unfold isFileInBase64.
    destruct content as [|c content]; [discriminate|].
    cbn [Regex.test_anywhere]. unfold Base64.re_base64 at 1. cbn [andb].
    destruct (Base64.groups_of_four (String c content)); [reflexivity|].
    now rewrite re_base64_later.
Qed.

Lemma contentFile_of_accepted_text_witness :
  contentFile (Scenarios.platform_of Scenarios.server_down) (VStr "test")
  = Ok (FBytes (Base64.decode "test"))
  /\ length (Base64.decode "test") = 3.
Proof.
  split.
  - apply (contentFile_of_accepted_text (Scenarios.platform_of Scenarios.server_down) "test").
    reflexivity.
  - reflexivity.
Defined.

End ServiceFacts.

(** ** [uploadFile] *)

Module UploadFacts.
Import JS Platform NetSuiteService UploadFile.

(** X12.  [uploadFile] uploads nothing.  When the file is not there it
    returns [null].  When it is there the call ends with the ReferenceError
    of the name [urlFile], whether the file can be read or not: the request is
    never made, no BaseError is thrown, and the instance and the record of
    the calls of [fetch] are as they were. *)
Theorem uploadFile_never_uploads (pf : platform) (accessible : string -> bool)
    (readFile : string -> res (list Byte.byte)) (body_of_buffer : list Byte.byte -> value)
    (attachmentDir folderName file : string) (st : state) :
  uploadFile pf accessible readFile body_of_buffer attachmentDir folderName file st
  = (if accessible (attachmentDir +:+ "/" +:+ file)
     then Throws (ReferenceError "urlFile")
     else Returns VNull, st).
Proof.
  unfold uploadFile, try_catch, uploadFile_try, fileExists.
  unfold UploadFile.bind at 1. unfold UploadFile.ret at 1.
  destruct (accessible (attachmentDir +:+ "/" +:+ file)); [|reflexivity].
  cbn [negb]. unfold UploadFile.bind at 1. unfold UploadFile.lift at 1.
  destruct (readFile (attachmentDir +:+ "/" +:+ file)); reflexivity.
Qed.

End UploadFacts.

(** ** The sanitizer *)

Module NormalizeFacts.
Import Regex Scan StringFacts RegexFacts NormalizeUtils.

(** *** Texts and classes of characters *)

Lemma all_chars_app p a b : all_chars p (a +:+ b) = all_chars p a && all_chars p b.
Proof.
  induction a as [|c a IH]; ssimpl; [reflexivity|].
  rewrite IH. now rewrite andb_assoc.
Qed.

Lemma all_chars_impl (p q : ascii -> bool) s :
  (forall c, p c = true -> q c = true) -> all_chars p s = true -> all_chars q s = true.
Proof.
  intros Hpq. induction s as [|c s IH]; simpl; [reflexivity|].
  intros [Hc Hs]%andb_true_iff. rewrite (Hpq c Hc), (IH Hs). reflexivity.
Qed.

Lemma subst_chars_none p r s : none_of p s = true -> subst_chars p r s = s.
Proof.
  unfold none_of. induction s as [|c s IH]; simpl; [reflexivity|].
  intros [Hc Hs]%andb_true_iff. apply negb_true_iff in Hc. rewrite Hc, (IH Hs). reflexivity.
Qed.

Lemma subst_chars_app p r a b :
  subst_chars p r (a +:+ b) = subst_chars p r a +:+ subst_chars p r b.
Proof.
  induction a as [|c a IH]; ssimpl; [reflexivity|].
  destruct (p c); rewrite IH; [now rewrite sapp_assoc | reflexivity].
Qed.

(** A global replace of a class: what holds of the subject but for the
    class, and holds of the replacement, holds of the result. *)
Lemma subst_chars_all (q0 q p : ascii -> bool) r s :
  (forall c, p c = false -> q0 c = true -> q c = true) ->
  all_chars q r = true -> all_chars q0 s = true ->
  all_chars q (subst_chars p r s) = true.
Proof.
  intros Hq Hr. induction s as [|c s IH]; simpl; [reflexivity|].
  intros [Hc Hs]%andb_true_iff. destruct (p c) eqn:Hp.
  - rewrite all_chars_app, Hr, (IH Hs). reflexivity.
  - simpl. rewrite (Hq c Hp Hc), (IH Hs). reflexivity.
Qed.

Lemma first_run_none p r s : none_of p s = true -> first_run p r s = s.
Proof.
  unfold none_of. induction s as [|c s IH]; simpl; [reflexivity|].
  intros [Hc Hs]%andb_true_iff. apply negb_true_iff in Hc. rewrite Hc, (IH Hs). reflexivity.
Qed.

Lemma first_run_app_none p r a b :
  none_of p a = true -> first_run p r (a +:+ b) = a +:+ first_run p r b.
Proof.
  unfold none_of. induction a as [|c a IH]; ssimpl; [reflexivity|].
  intros [Hc Hs]%andb_true_iff. apply negb_true_iff in Hc. rewrite Hc, (IH Hs). reflexivity.
Qed.

Lemma all_chars_drop_while q p s : all_chars q s = true -> all_chars q (drop_while p s) = true.
Proof.
  induction s as [|c s IH]; simpl; [reflexivity|].
  intros H. destruct (p c); [|exact H].
  apply andb_true_iff in H as [_ Hs]. now apply IH.
Qed.

Lemma all_chars_first_run q p r s :
  all_chars q r = true -> all_chars q s = true -> all_chars q (first_run p r s) = true.
Proof.
  intros Hr. induction s as [|c s IH]; simpl; [reflexivity|].
  intros [Hc Hs]%andb_true_iff. destruct (p c).
  - rewrite all_chars_app, Hr. simpl. now apply all_chars_drop_while.
  - simpl. rewrite Hc. now apply IH.
Qed.

Lemma all_chars_drop_leading q c s :
  all_chars q s = true -> all_chars q (drop_leading c s) = true.
Proof.
  destruct s as [|x s]; simpl; [reflexivity|].
  intros H. destruct (Ascii.eqb x c); [|exact H].
  now apply andb_true_iff in H as [_ Hs].
Qed.

Lemma all_chars_drop_final q c s :
  all_chars q s = true -> all_chars q (drop_final c s) = true.
Proof.
  induction s as [|x s IH]; [reflexivity|].
  intros H. pose proof H as [Hx Hs]%andb_true_iff.
  destruct s as [|y s].
  - simpl. destruct (Ascii.eqb x c); [reflexivity | exact H].
  - change (drop_final c (String x (String y s))) with (String x (drop_final c (String y s))).
    simpl. rewrite Hx. now apply IH.
Qed.

Lemma all_chars_strip_dot_end q s :
  all_chars q s = true -> all_chars q (strip_dot_end s) = true.
Proof.
  intros H. unfold strip_dot_end.
  destruct (starts_with Chars.dot s);
    [now apply all_chars_drop_leading | now apply all_chars_drop_final].
Qed.

Lemma all_chars_trim_start q s : all_chars q s = true -> all_chars q (trim_start s) = true.
Proof.
  induction s as [|c s IH]; simpl; [reflexivity|].
  intros H. destruct (Chars.is_space c); [|exact H].
  apply andb_true_iff in H as [_ Hs]. now apply IH.
Qed.

Lemma all_chars_trim_end q s : all_chars q s = true -> all_chars q (trim_end s) = true.
Proof.
  induction s as [|c s IH]; simpl; [reflexivity|].
  intros [Hc Hs]%andb_true_iff. specialize (IH Hs).
  destruct (trim_end s) as [|d t].
  - destruct (Chars.is_space c); [reflexivity|]. simpl. now rewrite Hc.
  - simpl in *. now rewrite Hc, IH.
Qed.

Lemma all_chars_trim q s : all_chars q s = true -> all_chars q (trim s) = true.
Proof. intros H. unfold trim. now apply all_chars_trim_end, all_chars_trim_start. Qed.

(** *** The stages of [normalize], read structurally *)

Lemma strip_characters_eq t0 :
  strip_characters t0
  = subst_chars Chars.is_amp "and"
      (subst_chars Chars.is_lf " - "
         (subst_chars Chars.is_cr_or_tab EmptyString
            (subst_chars Chars.is_reserved EmptyString
               (subst_chars Chars.is_star EmptyString t0)))).
Proof. unfold strip_characters. now rewrite !replace_all_class. Qed.

Lemma tidy_eq t5 :
  tidy t5
  = trim (first_run Chars.is_space " "
            (strip_dot_end (drop_leading Chars.tilde (first_run Chars.is_dot "." t5)))).
Proof.
  unfold tidy. cbv zeta.
  now rewrite !replace_first_plus, replace_first_bol, replace_first_dot_ends.
Qed.

(** After the global stages no reserved character, no carriage return or
    tab, no line feed and no ampersand is left. *)
Lemma strip_characters_clean t0 : all_chars clean (strip_characters t0) = true.
Proof.
  rewrite strip_characters_eq.
  set (q1 := fun c => negb (Chars.is_reserved c)).
  set (q2 := fun c => negb (Chars.is_reserved c || Chars.is_cr_or_tab c)).
  set (q3 := fun c => negb (Chars.is_reserved c || Chars.is_cr_or_tab c || Chars.is_lf c)).
  apply (subst_chars_all q3 clean); [| reflexivity |].
  { intros c Hp Hq. unfold clean. subst q3. simpl in Hq.
    apply negb_true_iff in Hq. now rewrite Hq, Hp. }
  apply (subst_chars_all q2 q3); [| reflexivity |].
  { intros c Hp Hq. subst q2 q3. simpl in *.
    apply negb_true_iff in Hq. now rewrite Hq, Hp. }
  apply (subst_chars_all q1 q2); [| reflexivity |].
  { intros c Hp Hq. subst q1 q2. simpl in *.
    apply negb_true_iff in Hq. now rewrite Hq, Hp. }
  apply (subst_chars_all (fun _ => true) q1); [| reflexivity |].
  { intros c Hp _. subst q1. simpl. now rewrite Hp. }
  clear. induction (subst_chars Chars.is_star EmptyString t0) as [|c s IH]; [reflexivity | exact IH].
Qed.

Lemma tidy_clean t5 : all_chars clean t5 = true -> all_chars clean (tidy t5) = true.
Proof.
  intros H. rewrite tidy_eq.
  apply all_chars_trim, all_chars_first_run; [reflexivity|].
  apply all_chars_strip_dot_end, all_chars_drop_leading, all_chars_first_run;
    [reflexivity | exact H].
Qed.

Lemma normalize_clean x : all_chars clean (normalize x) = true.
Proof. unfold normalize. apply tidy_clean, strip_characters_clean. Qed.

(** *** Links *)

(** For an expression with no anchor, the scan of a subject does not depend
    on the bound, past the length of the subject, nor on where it starts. *)
Lemma replace_loop_fuel g m repl (Hm : consuming m)
    (Hb : forall b s, m b s = m true s) fuel1 : forall fuel2 b1 b2 s,
  String.length s < fuel1 -> String.length s < fuel2 ->
  replace_loop fuel1 g m repl b1 s = replace_loop fuel2 g m repl b2 s.
Proof.
  induction fuel1 as [|fuel1 IH]; intros fuel2 b1 b2 s H1 H2; [lia|].
  destruct fuel2 as [|fuel2]; [lia|]. simpl.
  rewrite (Hb b1), (Hb b2).
  destruct (m true s) as [rest|] eqn:E.
  - destruct g; [|reflexivity]. f_equal. apply Hm in E. apply IH; lia.
  - destruct s as [|c s]; [reflexivity|]. simpl in *. f_equal. apply IH; lia.
Qed.

Lemma drop_while_app_delimited u t :
  delimited t = true ->
  drop_while Chars.not_space_tilde (u +:+ t) = drop_while Chars.not_space_tilde u +:+ t.
Proof.
  intros Ht. induction u as [|c u IH]; ssimpl.
  - destruct t as [|d t]; [reflexivity|]. simpl in *. unfold ends_link in Ht.
    apply negb_true_iff in Ht. now rewrite Ht.
  - destruct (Chars.not_space_tilde c); [exact IH | reflexivity].
Qed.

Lemma drop_while_all u t :
  all_chars Chars.not_space_tilde u = true -> delimited t = true ->
  drop_while Chars.not_space_tilde (u +:+ t) = t.
Proof.
  intros Hu Ht. rewrite drop_while_app_delimited by exact Ht.
  induction u as [|c u IH]; [reflexivity|]. simpl in *.
  apply andb_true_iff in Hu as [Hc Hu]. rewrite Hc. now apply IH.
Qed.

Lemma drop_while_delimited s :
  delimited (drop_while Chars.not_space_tilde s) = true.
Proof.
  induction s as [|c s IH]; [reflexivity|]. simpl.
  destruct (Chars.not_space_tilde c) eqn:E; [exact IH|].
  simpl. unfold ends_link. now rewrite E.
Qed.

(** A literal made of characters that do not end a link cannot reach into a
    delimited text. *)
Lemma strip_prefix_app lit : forall p t,
  all_chars Chars.not_space_tilde lit = true -> delimited t = true ->
  strip_prefix lit (p +:+ t)
  = match strip_prefix lit p with
    | Some r => Some (r +:+ t)
    | None => None
    end.
Proof.
  induction lit as [|a lit IH]; intros p t Hlit Ht; [reflexivity|].
  simpl in Hlit. apply andb_true_iff in Hlit as [Ha Hlit].
  destruct p as [|b p]; ssimpl.
  - destruct t as [|d t]; [reflexivity|]. simpl in *.
    destruct (Ascii.eqb_spec a d) as [->|]; [|reflexivity].
    unfold ends_link in Ht. rewrite Ha in Ht. discriminate.
  - destruct (Ascii.eqb a b); [now apply IH | reflexivity].
Qed.

(** The shape of a match of the link expression. *)
Lemma re_link_intro b h c u :
  h = "http://" \/ h = "https://" ->
  Chars.not_space_tilde c = true ->
  re_link b (h +:+ String c u) = Some (drop_while Chars.not_space_tilde u).
Proof.
  intros [-> | ->] Hc; unfold re_link; ssimpl; now rewrite Hc.
Qed.

Lemma re_link_inv b s r :
  re_link b s = Some r ->
  exists h c u,
    (h = "http://" \/ h = "https://")
    /\ s = h +:+ String c u
    /\ Chars.not_space_tilde c = true
    /\ r = drop_while Chars.not_space_tilde u.
Proof.
  unfold re_link.
  destruct (strip_prefix "http" s) as [r1|] eqn:E1; [|discriminate].
  apply strip_prefix_spec in E1. subst s.
  destruct r1 as [|c1 r1].
  { simpl. discriminate. }
  destruct (Ascii.eqb_spec c1 "s") as [->|Hs].
  - destruct (strip_prefix "://" r1) as [[|c u]|] eqn:E2; try discriminate.
    apply strip_prefix_spec in E2. subst r1.
    destruct (Chars.not_space_tilde c) eqn:Hc; [|discriminate].
    intros [= <-]. exists "https://", c, u. repeat split; auto.
  - destruct (strip_prefix "://" (String c1 r1)) as [[|c u]|] eqn:E2; try discriminate.
    apply strip_prefix_spec in E2. rewrite E2.
    destruct (Chars.not_space_tilde c) eqn:Hc; [|discriminate].
    intros [= <-]. exists "http://", c, u. repeat split; auto.
Qed.

Lemma re_link_consuming : consuming re_link.
Proof.
  intros b s r H. apply re_link_inv in H as (h & c & u & Hh & -> & _ & ->).
  rewrite slen_app. simpl. pose proof (drop_while_len Chars.not_space_tilde u).
  destruct Hh as [-> | ->]; simpl; lia.
Qed.

(** A match that starts in [p] lies in [p] when a delimited text follows. *)
Lemma re_link_app b p t :
  delimited t = true ->
  re_link b (p +:+ t)
  = match re_link b p with
    | Some r => Some (r +:+ t)
    | None => None
    end.
Proof.
  intros Ht. unfold re_link.
  rewrite (strip_prefix_app "http" p t eq_refl Ht).
  destruct (strip_prefix "http" p) as [r1|]; [|reflexivity].
  assert (match r1 +:+ t with
          | String c r => if Ascii.eqb c "s" then r else r1 +:+ t
          | EmptyString => r1 +:+ t
          end
          = match r1 with
            | String c r => if Ascii.eqb c "s" then r else r1
            | EmptyString => r1
            end +:+ t) as ->.
  { destruct r1 as [|c r1]; ssimpl.
    - destruct t as [|d t]; [reflexivity|]. simpl in Ht.
      destruct (Ascii.eqb_spec d "s") as [->|]; [discriminate | reflexivity].
    - destruct (Ascii.eqb c "s"); reflexivity. }
  set (r2 := match r1 with
             | String c r => if Ascii.eqb c "s" then r else r1
             | EmptyString => r1
             end).
  rewrite (strip_prefix_app "://" r2 t eq_refl Ht).
  destruct (strip_prefix "://" r2) as [[|c r3]|]; ssimpl; [| |reflexivity].
  - destruct t as [|d t]; [reflexivity|]. simpl in Ht. unfold ends_link in Ht.
    apply negb_true_iff in Ht. now rewrite Ht.
  - destruct (Chars.not_space_tilde c); [|reflexivity].
    now rewrite drop_while_app_delimited.
Qed.

(** A match stays a match whatever follows. *)
Lemma re_link_extend b p w r :
  re_link b p = Some r -> exists r', re_link b (p +:+ w) = Some r'.
Proof.
  intros H. apply re_link_inv in H as (h & c & u & Hh & -> & Hc & _).
  rewrite sapp_assoc, sapp_cons. eexists. now apply re_link_intro.
Qed.

Lemma re_link_delimited b s : delimited s = true -> re_link b s = None.
Proof.
  intros H. destruct (re_link b s) as [r|] eqn:E; [|reflexivity].
  apply re_link_inv in E as (h & c & u & Hh & -> & _ & _).
  destruct Hh as [-> | ->]; discriminate.
Qed.

(** How [removeLinks] goes on from a position. *)
Lemma removeLinks_unfold s :
  removeLinks s
  = match re_link true s with
    | Some rest => removeLinks rest
    | None =>
        match s with
        | EmptyString => EmptyString
        | String c s' => String c (removeLinks s')
        end
    end.
Proof.
  transitivity (replace_loop (S (String.length s)) true re_link EmptyString true s);
    [reflexivity|].
  cbn [replace_loop].
  destruct (re_link true s) as [rest|] eqn:E.
  - rewrite sapp_nil_l. apply re_link_consuming in E.
    apply replace_loop_fuel; first [exact re_link_consuming | reflexivity | lia].
  - destruct s as [|c s]; reflexivity.
Qed.

Lemma removeLinks_empty : removeLinks EmptyString = EmptyString.
Proof. reflexivity. Qed.

Lemma removeLinks_delimited s : delimited s = true -> delimited (removeLinks s) = true.
Proof.
  intros H. rewrite removeLinks_unfold, (re_link_delimited true s H).
  destruct s; [reflexivity | exact H].
Qed.

(** Link removal goes piece by piece where a piece ends at a space, a tilde
    or the end of the text. *)
Lemma removeLinks_app a t :
  delimited t = true -> removeLinks (a +:+ t) = removeLinks a +:+ removeLinks t.
Proof.
  intros Ht. remember (String.length a) as n eqn:Hn.
  revert a Hn. induction n as [n IH] using lt_wf_ind. intros a Hn.
  rewrite (removeLinks_unfold (a +:+ t)), (removeLinks_unfold a), (re_link_app true a t Ht).
  destruct (re_link true a) as [r|] eqn:E.
  - apply re_link_consuming in E. eapply IH; [|reflexivity]. lia.
  - destruct a as [|c a].
    + rewrite !sapp_nil_l.
      rewrite (removeLinks_unfold t), (re_link_delimited true t Ht). reflexivity.
    + rewrite !sapp_cons. f_equal. eapply IH; [|reflexivity]. simpl in Hn. lia.
Qed.

(** A link at the start of the text goes up to the next space or tilde. *)
Lemma removeLinks_link h c u t :
  h = "http://" \/ h = "https://" ->
  all_chars Chars.not_space_tilde (String c u) = true ->
  delimited t = true ->
  removeLinks (h +:+ String c u +:+ t) = removeLinks t.
Proof.
  intros Hh Hu Ht. simpl in Hu. apply andb_true_iff in Hu as [Hc Hu].
  rewrite removeLinks_unfold. rewrite sapp_cons, (re_link_intro true h c (u +:+ t) Hh Hc).
  now rewrite drop_while_all.
Qed.

(** What [removeLinks] returns is a part of the subject that was kept as it
    is, followed by a delimited text. *)
Lemma removeLinks_shape s :
  exists p t w, s = p +:+ w /\ removeLinks s = p +:+ t /\ delimited t = true.
Proof.
  induction s as [|c s IH].
  - exists EmptyString, EmptyString, EmptyString. repeat split.
  - rewrite removeLinks_unfold.
    destruct (re_link true (String c s)) as [rest|] eqn:E.
    + exists EmptyString, (removeLinks rest), (String c s). repeat split.
      apply removeLinks_delimited.
      apply re_link_inv in E as (h & c0 & u & _ & _ & _ & ->).
      apply drop_while_delimited.
    + destruct IH as (p & t & w & Hs & Hr & Ht).
      exists (String c p), t, w. rewrite !sapp_cons, <- Hs, <- Hr. repeat split. exact Ht.
Qed.

(** No link is left in what [removeLinks] returns. *)
Lemma removeLinks_link_free s : link_free (removeLinks s) = true.
Proof.
  unfold link_free. apply negb_true_iff.
  remember (String.length s) as n eqn:Hn.
  revert s Hn. induction n as [n IH] using lt_wf_ind. intros s Hn.
  rewrite removeLinks_unfold.
  destruct (re_link true s) as [rest|] eqn:E.
  - apply re_link_consuming in E. eapply IH; [|reflexivity]. lia.
  - destruct s as [|c s]; [reflexivity|].
    cbn [test_anywhere].
    assert (re_link true (String c (removeLinks s)) = None) as ->.
    { destruct (removeLinks_shape s) as (p & t & w & Hs & Hr & Ht).
      rewrite Hr, <- sapp_cons, (re_link_app true (String c p) t Ht).
      destruct (re_link true (String c p)) as [r|] eqn:Ep; [|reflexivity].
      apply (re_link_extend true _ w) in Ep as [r' Ep].
      rewrite sapp_cons, <- Hs in Ep. congruence. }
    assert (forall b x, test_anywhere re_link b x = test_anywhere re_link true x) as Hb.
    { intros b x. destruct x; reflexivity. }
    rewrite Hb. eapply IH; [|reflexivity]. simpl in Hn. lia.
Qed.

Lemma removeLinks_idempotent s : removeLinks (removeLinks s) = removeLinks s.
Proof.
  unfold removeLinks at 1. unfold replace_all, replace.
  apply replace_loop_no_match.
  pose proof (removeLinks_link_free s) as H. unfold link_free in H.
  now apply negb_true_iff in H.
Qed.

(** A text with no colon has no link. *)
Lemma removeLinks_no_colon s :
  none_of (Chars.one_of [Chars.colon]) s = true -> removeLinks s = s.
Proof.
  intros H. unfold removeLinks, replace_all, replace. apply replace_loop_no_match.
  generalize true. induction s as [|c s IH]; intros b.
  - reflexivity.
  - cbn [test_anywhere].
    destruct (re_link b (String c s)) as [r|] eqn:E.
    + exfalso. apply re_link_inv in E as (h & c0 & u & Hh & Hs & _ & _).
      rewrite Hs in H. unfold none_of in H. rewrite all_chars_app in H.
      apply andb_true_iff in H as [H _]. destruct Hh as [-> | ->]; discriminate.
    + apply IH. unfold none_of in *. simpl in H.
      now apply andb_true_iff in H as [_ H].
Qed.

(** *** Classes of characters *)

Lemma one_of_incl l1 l2 c :
  incl l1 l2 -> Chars.one_of l1 c = true -> Chars.one_of l2 c = true.
Proof.
  unfold Chars.one_of. rewrite !existsb_exists.
  intros Hincl (x & Hin & Hx). exists x. split; [now apply Hincl | exact Hx].
Qed.

Lemma one_of_excl l1 l2 c :
  incl l1 l2 -> Chars.one_of l2 c = false -> Chars.one_of l1 c = false.
Proof.
  intros Hincl H. destruct (Chars.one_of l1 c) eqn:E; [|reflexivity].
  apply (one_of_incl _ _ _ Hincl) in E. congruence.
Qed.

Ltac incl_list := intros ? ?; simpl in *; intuition (subst; auto).

Lemma clean_parts c :
  clean c = true ->
  Chars.is_star c = false /\ Chars.is_reserved c = false
  /\ Chars.is_cr_or_tab c = false /\ Chars.is_lf c = false /\ Chars.is_amp c = false
  /\ Chars.one_of [Chars.colon] c = false.
Proof.
  unfold clean. intros H. apply negb_true_iff in H.
  apply orb_false_iff in H as [H Hamp]. apply orb_false_iff in H as [H Hlf].
  apply orb_false_iff in H as [Hres Hcr].
  repeat split; try assumption.
  - apply (one_of_excl _ Chars.reserved_set); [incl_list | exact Hres].
  - apply (one_of_excl _ Chars.reserved_set); [incl_list | exact Hres].
Qed.

Lemma inert_parts c :
  inert c = true ->
  Chars.is_reserved c = false /\ Chars.is_space c = false /\ Chars.is_dot c = false
  /\ Ascii.eqb c Chars.tilde = false /\ Chars.is_amp c = false.
Proof.
  unfold inert. intros H. apply negb_true_iff in H.
  apply orb_false_iff in H as [H Hamp]. apply orb_false_iff in H as [H Htilde].
  apply orb_false_iff in H as [H Hdot]. apply orb_false_iff in H as [Hres Hsp].
  repeat split; assumption.
Qed.

Lemma inert_clean c : inert c = true -> clean c = true.
Proof.
  intros (Hres & Hsp & _ & _ & Hamp)%inert_parts. unfold clean.
  assert (Chars.is_cr_or_tab c = false) as Hcr
    by (apply (one_of_excl _ [Chars.tab; Chars.lf; Chars.vt; Chars.ff; Chars.cr; Chars.space; Chars.nbsp]);
        [incl_list | exact Hsp]).
  assert (Chars.is_lf c = false) as Hlf
    by (apply (one_of_excl _ [Chars.tab; Chars.lf; Chars.vt; Chars.ff; Chars.cr; Chars.space; Chars.nbsp]);
        [incl_list | exact Hsp]).
  now rewrite Hres, Hamp, Hcr, Hlf.
Qed.

Lemma clean_none (p : ascii -> bool) s :
  (forall c, clean c = true -> p c = false) ->
  all_chars clean s = true -> none_of p s = true.
Proof.
  intros Hp. apply all_chars_impl. intros c Hc. now rewrite (Hp c Hc).
Qed.

Lemma inert_none (p : ascii -> bool) s :
  (forall c, inert c = true -> p c = false) ->
  all_chars inert s = true -> none_of p s = true.
Proof.
  intros Hp. apply all_chars_impl. intros c Hc. now rewrite (Hp c Hc).
Qed.

(** On a text of clean characters the global stages change nothing. *)
Lemma strip_characters_id s : all_chars clean s = true -> strip_characters s = s.
Proof.
  intros H. rewrite strip_characters_eq.
  rewrite (subst_chars_none Chars.is_star) by (apply (clean_none _ _ (fun c Hc => proj1 (clean_parts c Hc)) H)).
  rewrite (subst_chars_none Chars.is_reserved)
    by (apply (clean_none _ _ (fun c Hc => proj1 (proj2 (clean_parts c Hc))) H)).
  rewrite (subst_chars_none Chars.is_cr_or_tab)
    by (apply (clean_none _ _ (fun c Hc => proj1 (proj2 (proj2 (clean_parts c Hc)))) H)).
  rewrite (subst_chars_none Chars.is_lf)
    by (apply (clean_none _ _ (fun c Hc => proj1 (proj2 (proj2 (proj2 (clean_parts c Hc))))) H)).
  apply subst_chars_none.
  apply (clean_none _ _ (fun c Hc => proj1 (proj2 (proj2 (proj2 (proj2 (clean_parts c Hc)))))) H).
Qed.

Lemma removeLinks_clean s : all_chars clean s = true -> removeLinks s = s.
Proof.
  intros H. apply removeLinks_no_colon.
  apply (clean_none _ _ (fun c Hc => proj2 (proj2 (proj2 (proj2 (proj2 (clean_parts c Hc)))))) H).
Qed.

(** A second [normalize] only runs the last stages again. *)
Lemma normalize_twice x : normalize (normalize x) = tidy (normalize x).
Proof.
  pose proof (normalize_clean x) as H. unfold normalize at 1.
  now rewrite (removeLinks_clean _ H), (strip_characters_id _ H).
Qed.

(** *** [trim] *)

Lemma trim_start_len s : String.length (trim_start s) <= String.length s.
Proof. induction s as [|c s IH]; simpl; [lia|]. destruct (Chars.is_space c); simpl; lia. Qed.

Lemma trim_end_len s : String.length (trim_end s) <= String.length s.
Proof.
  induction s as [|c s IH]; simpl; [lia|].
  destruct (trim_end s); [destruct (Chars.is_space c)|]; simpl in *; lia.
Qed.

Lemma trim_start_id s : starts_in Chars.is_space s = false -> trim_start s = s.
Proof. destruct s as [|c s]; simpl; [reflexivity|]. now intros ->. Qed.

Lemma trim_start_same_len s :
  String.length (trim_start s) = String.length s -> trim_start s = s.
Proof.
  destruct s as [|c s]; simpl; [reflexivity|].
  destruct (Chars.is_space c); [|reflexivity].
  pose proof (trim_start_len s). simpl. lia.
Qed.

Lemma trim_end_same_len s :
  String.length (trim_end s) = String.length s -> trim_end s = s.
Proof.
  induction s as [|c s IH]; simpl; [reflexivity|].
  pose proof (trim_end_len s) as Hl.
  destruct (trim_end s) as [|d t] eqn:E.
  - destruct (Chars.is_space c); simpl in *; [lia|].
    intros H. destruct s; [reflexivity | simpl in *; lia].
  - simpl. intros H. rewrite IH; [reflexivity | simpl in *; lia].
Qed.

Lemma trim_end_id s : ends_in Chars.is_space s = false -> trim_end s = s.
Proof.
  induction s as [|c s IH]; [reflexivity|].
  intros H. simpl. destruct s as [|d s].
  - simpl in *. now rewrite H.
  - rewrite IH by exact H. reflexivity.
Qed.

Lemma trim_end_twice s : trim_end (trim_end s) = trim_end s.
Proof.
  induction s as [|c s IH]; [reflexivity|]. simpl.
  destruct (trim_end s) as [|d t] eqn:E.
  - destruct (Chars.is_space c) eqn:Hc; [reflexivity|]. simpl. now rewrite Hc.
  - change (trim_end (String c (String d t)))
      with (match trim_end (String d t) with
            | EmptyString => if Chars.is_space c then EmptyString else String c EmptyString
            | u => String c u
            end).
    now rewrite IH.
Qed.

Lemma trim_end_starts s :
  starts_in Chars.is_space s = false -> starts_in Chars.is_space (trim_end s) = false.
Proof.
  destruct s as [|c s]; [reflexivity|]. simpl. intros Hc.
  destruct (trim_end s); [rewrite Hc|]; simpl; now rewrite ?Hc.
Qed.

Lemma trim_start_starts s : starts_in Chars.is_space (trim_start s) = false.
Proof.
  induction s as [|c s IH]; [reflexivity|]. simpl.
  destruct (Chars.is_space c) eqn:Hc; [exact IH | simpl; exact Hc].
Qed.

Lemma trim_twice s : trim (trim s) = trim s.
Proof.
  unfold trim.
  rewrite (trim_start_id (trim_end (trim_start s)))
    by apply trim_end_starts, trim_start_starts.
  apply trim_end_twice.
Qed.

Lemma trim_len s : String.length (trim s) <= String.length s.
Proof.
  unfold trim. pose proof (trim_end_len (trim_start s)). pose proof (trim_start_len s). lia.
Qed.

Lemma trim_same_len s : String.length (trim s) = String.length s -> trim s = s.
Proof.
  unfold trim. intros H.
  pose proof (trim_end_len (trim_start s)). pose proof (trim_start_len s).
  rewrite trim_end_same_len by lia. apply trim_start_same_len. lia.
Qed.

Lemma trim_id s :
  starts_in Chars.is_space s = false -> ends_in Chars.is_space s = false -> trim s = s.
Proof.
  intros H1 H2. unfold trim. rewrite (trim_start_id s H1). now apply trim_end_id.
Qed.

Lemma tidy_trimmed s : trim (tidy s) = tidy s.
Proof. rewrite tidy_eq. apply trim_twice. Qed.

(** *** The last stages: when they change nothing *)

Lemma drop_while_same_len p s :
  String.length (drop_while p s) = String.length s -> drop_while p s = s.
Proof.
  destruct s as [|c s]; simpl; [reflexivity|].
  destruct (p c); [|reflexivity].
  pose proof (drop_while_len p s). lia.
Qed.

Lemma drop_while_take_while p s : drop_while p s = s <-> take_while p s = EmptyString.
Proof.
  destruct s as [|c s]; simpl; [tauto|].
  destruct (p c); [|tauto].
  split; [|discriminate]. intros H.
  pose proof (drop_while_len p s) as Hl. rewrite H in Hl. simpl in Hl. lia.
Qed.

Lemma first_run_len p r0 s :
  String.length (first_run p (String r0 EmptyString) s) <= String.length s.
Proof.
  induction s as [|c s IH]; simpl; [lia|].
  destruct (p c); ssimpl; [pose proof (drop_while_len p s)|]; lia.
Qed.

(** A first-match replace of a run by one character gives the subject back
    exactly when there is no run or the run is that one character. *)
Lemma first_run_fixed p r0 s :
  first_run p (String r0 EmptyString) s = s
  <-> run_is (String r0 EmptyString) (first_run_of p s) = true.
Proof.
  induction s as [|c s IH]; [simpl; tauto|].
  cbn [first_run first_run_of]. destruct (p c).
  - rewrite sapp_cons, sapp_nil_l. unfold run_is. rewrite String.eqb_eq. split.
    + intros [= -> H]. apply drop_while_take_while in H. now rewrite H.
    + intros [= -> H]. apply drop_while_take_while in H. now rewrite H.
  - rewrite <- IH. split; [now intros [= ->] | now intros ->].
Qed.

Lemma first_run_same_len p r0 s :
  (forall c, p c = true -> c = r0) ->
  String.length (first_run p (String r0 EmptyString) s) = String.length s ->
  first_run p (String r0 EmptyString) s = s.
Proof.
  intros Hp. induction s as [|c s IH]; simpl; [reflexivity|].
  destruct (p c) eqn:Hc; ssimpl.
  - intros H. rewrite (Hp c Hc). f_equal. apply drop_while_same_len. lia.
  - intros H. f_equal. apply IH. lia.
Qed.

Lemma drop_leading_len c s : String.length (drop_leading c s) <= String.length s.
Proof. destruct s as [|x s]; simpl; [lia|]. destruct (Ascii.eqb x c); simpl; lia. Qed.

Lemma drop_leading_fixed c s : drop_leading c s = s <-> starts_with c s = false.
Proof.
  destruct s as [|x s]; simpl; [tauto|].
  destruct (Ascii.eqb x c); [|tauto].
  split; [|discriminate]. intros H.
  apply (f_equal String.length) in H. simpl in H. lia.
Qed.

Lemma drop_leading_same_len c s :
  String.length (drop_leading c s) = String.length s -> drop_leading c s = s.
Proof.
  destruct s as [|x s]; simpl; [reflexivity|].
  destruct (Ascii.eqb x c); [simpl; lia | reflexivity].
Qed.

Lemma drop_final_len c s : String.length (drop_final c s) <= String.length s.
Proof.
  induction s as [|x s IH]; [simpl; lia|].
  destruct s as [|y s].
  - simpl. destruct (Ascii.eqb x c); simpl; lia.
  - change (drop_final c (String x (String y s))) with (String x (drop_final c (String y s))).
    simpl in *. lia.
Qed.

Lemma drop_final_fixed c s : drop_final c s = s <-> ends_with c s = false.
Proof.
  induction s as [|x s IH]; [simpl; tauto|].
  destruct s as [|y s].
  - simpl. destruct (Ascii.eqb x c); [|tauto]. split; discriminate.
  - change (drop_final c (String x (String y s))) with (String x (drop_final c (String y s))).
    change (ends_with c (String x (String y s))) with (ends_with c (String y s)).
    rewrite <- IH. split; [intros [= H]; exact H | intros H; f_equal; exact H].
Qed.

Lemma drop_final_same_len c s :
  String.length (drop_final c s) = String.length s -> drop_final c s = s.
Proof.
  induction s as [|x s IH]; [reflexivity|].
  destruct s as [|y s].
  - simpl. destruct (Ascii.eqb x c); [simpl; lia | reflexivity].
  - change (drop_final c (String x (String y s))) with (String x (drop_final c (String y s))).
    intros H. f_equal. apply IH. simpl in *. lia.
Qed.

Lemma strip_dot_end_len s : String.length (strip_dot_end s) <= String.length s.
Proof.
  unfold strip_dot_end. destruct (starts_with Chars.dot s);
    [apply drop_leading_len | apply drop_final_len].
Qed.

Lemma strip_dot_end_fixed s :
  strip_dot_end s = s
  <-> starts_with Chars.dot s = false /\ ends_with Chars.dot s = false.
Proof.
  unfold strip_dot_end. destruct (starts_with Chars.dot s) eqn:E.
  - rewrite drop_leading_fixed, E. split; [discriminate | intros [? _]; discriminate].
  - rewrite drop_final_fixed. tauto.
Qed.

Lemma strip_dot_end_same_len s :
  String.length (strip_dot_end s) = String.length s -> strip_dot_end s = s.
Proof.
  unfold strip_dot_end. destruct (starts_with Chars.dot s);
    [apply drop_leading_same_len | apply drop_final_same_len].
Qed.

Lemma is_dot_eq c : Chars.is_dot c = true -> c = Chars.dot.
Proof.
  unfold Chars.is_dot, Chars.one_of. simpl. rewrite orb_false_r. apply Ascii.eqb_eq.
Qed.

(** A settled text that has no white space at its ends is left as it is. *)
Lemma settled_tidy y : settled y = true -> trim y = y -> tidy y = y.
Proof.
  unfold settled. intros H Htrim.
  apply andb_true_iff in H as [H Hsp]. apply andb_true_iff in H as [H Hdots].
  apply andb_true_iff in H as [H Hend]. apply andb_true_iff in H as [Htilde Hstart].
  apply negb_true_iff in Htilde, Hstart, Hend.
  rewrite tidy_eq.
  rewrite (proj2 (first_run_fixed Chars.is_dot "." y) Hdots).
  rewrite (proj2 (drop_leading_fixed Chars.tilde y) Htilde).
  rewrite (proj2 (strip_dot_end_fixed y) (conj Hstart Hend)).
  rewrite (proj2 (first_run_fixed Chars.is_space " " y) Hsp).
  exact Htrim.
Qed.

(** A text that the last stages leave as it is is settled. *)
Lemma tidy_settled y : tidy y = y -> settled y = true.
Proof.
  rewrite tidy_eq. intros H.
  remember (first_run Chars.is_dot "." y) as a eqn:Ea.
  remember (drop_leading Chars.tilde a) as b eqn:Eb.
  remember (strip_dot_end b) as c eqn:Ec.
  remember (first_run Chars.is_space " " c) as d eqn:Ed.
  assert (String.length a <= String.length y) by (rewrite Ea; apply first_run_len).
  assert (String.length b <= String.length a) by (rewrite Eb; apply drop_leading_len).
  assert (String.length c <= String.length b) by (rewrite Ec; apply strip_dot_end_len).
  assert (String.length d <= String.length c) by (rewrite Ed; apply first_run_len).
  assert (String.length y <= String.length d) by (rewrite <- H at 1; apply trim_len).
  assert (a = y) as Ha.
  { rewrite Ea. apply first_run_same_len; [exact is_dot_eq | rewrite <- Ea; lia]. }
  assert (b = a) as Hb.
  { rewrite Eb. apply drop_leading_same_len. rewrite <- Eb. lia. }
  assert (c = b) as Hc.
  { rewrite Ec. apply strip_dot_end_same_len. rewrite <- Ec. lia. }
  assert (d = y) as Hd.
  { rewrite <- H. symmetry. apply trim_same_len. rewrite H. lia. }
  assert (first_run Chars.is_dot "." y = y) as F1 by congruence.
  assert (drop_leading Chars.tilde y = y) as F2 by congruence.
  assert (strip_dot_end y = y) as F3 by congruence.
  assert (first_run Chars.is_space " " y = y) as F4 by congruence.
  apply drop_leading_fixed in F2. apply strip_dot_end_fixed in F3 as [F3 F3'].
  apply first_run_fixed in F1, F4.
  unfold settled. now rewrite F1, F2, F3, F3', F4.
Qed.

(** [normalize] gives the same text again exactly when its result is
    settled. *)
Lemma normalize_idempotent_iff x :
  normalize (normalize x) = normalize x <-> settled (normalize x) = true.
Proof.
  rewrite normalize_twice. split.
  - apply tidy_settled.
  - intros H. apply settled_tidy; [exact H|]. unfold normalize. apply tidy_trimmed.
Qed.

(** *** [normalize] on texts of a known shape *)

Lemma drop_while_none p s : none_of p s = true -> drop_while p s = s.
Proof.
  unfold none_of. destruct s as [|c s]; simpl; [reflexivity|].
  intros [Hc _]%andb_true_iff. apply negb_true_iff in Hc. now rewrite Hc.
Qed.

Lemma starts_in_app p a b : a <> EmptyString -> starts_in p (a +:+ b) = starts_in p a.
Proof. destruct a; [contradiction | reflexivity]. Qed.

Lemma starts_in_none p s : none_of p s = true -> starts_in p s = false.
Proof.
  unfold none_of. destruct s as [|c s]; simpl; [reflexivity|].
  intros [Hc _]%andb_true_iff. now apply negb_true_iff in Hc.
Qed.

Lemma ends_in_app p a b : b <> EmptyString -> ends_in p (a +:+ b) = ends_in p b.
Proof.
  intros Hb. induction a as [|c a IH]; [reflexivity|].
  rewrite sapp_cons. destruct (a +:+ b) as [|d r] eqn:E.
  - destruct a; [rewrite sapp_nil_l in E; contradiction | discriminate].
  - exact IH.
Qed.

Lemma ends_in_none p s : none_of p s = true -> ends_in p s = false.
Proof.
  unfold none_of. induction s as [|c s IH]; [reflexivity|].
  intros [Hc Hs]%andb_true_iff. apply negb_true_iff in Hc.
  destruct s as [|d s]; [exact Hc | now apply IH].
Qed.

Lemma starts_with_in c s : starts_with c s = starts_in (fun x => Ascii.eqb x c) s.
Proof. destruct s; reflexivity. Qed.

Lemma ends_with_in c s : ends_with c s = ends_in (fun x => Ascii.eqb x c) s.
Proof.
  induction s as [|x s IH]; [reflexivity|].
  destruct s as [|y s]; [reflexivity | exact IH].
Qed.

Lemma no_dot_char c : Chars.is_dot c = false -> Ascii.eqb c Chars.dot = false.
Proof. unfold Chars.is_dot, Chars.one_of. simpl. now rewrite orb_false_r. Qed.

Lemma none_of_eqb (p : ascii -> bool) c s :
  (forall x, p x = false -> Ascii.eqb x c = false) ->
  none_of p s = true -> none_of (fun x => Ascii.eqb x c) s = true.
Proof.
  intros Hp. unfold none_of. apply all_chars_impl.
  intros x Hx. apply negb_true_iff in Hx. now rewrite (Hp x Hx).
Qed.

(** With no dot in the text and no tilde at its start, what is left of the
    last stages is the first run of white space and [trim]. *)
Lemma tidy_no_dot s :
  none_of Chars.is_dot s = true -> starts_with Chars.tilde s = false ->
  tidy s = trim (first_run Chars.is_space " " s).
Proof.
  intros Hdot Htilde. rewrite tidy_eq.
  rewrite (first_run_none _ _ _ Hdot).
  rewrite (proj2 (drop_leading_fixed _ _) Htilde).
  rewrite (proj2 (strip_dot_end_fixed s)); [reflexivity|].
  pose proof (none_of_eqb _ Chars.dot s no_dot_char Hdot) as H.
  rewrite starts_with_in, ends_with_in.
  split; [now apply starts_in_none | now apply ends_in_none].
Qed.

Section Inert.
Variables a b : string.
Hypothesis Ha : all_chars inert a = true.
Hypothesis Hb : all_chars inert b = true.

Let inert_no (p : ascii -> bool) (Hp : forall c, inert c = true -> p c = false) :
  none_of p a = true /\ none_of p b = true.
Proof. split; now apply inert_none. Qed.

Lemma inert_no_space : none_of Chars.is_space a = true /\ none_of Chars.is_space b = true.
Proof. apply inert_no. intros c Hc. apply (inert_parts c Hc). Qed.

Lemma inert_no_dot : none_of Chars.is_dot a = true /\ none_of Chars.is_dot b = true.
Proof. apply inert_no. intros c Hc. apply (inert_parts c Hc). Qed.

Lemma inert_no_tilde :
  none_of (fun x => Ascii.eqb x Chars.tilde) a = true
  /\ none_of (fun x => Ascii.eqb x Chars.tilde) b = true.
Proof. apply inert_no. intros c Hc. apply (inert_parts c Hc). Qed.

Lemma inert_all_clean : all_chars clean a = true /\ all_chars clean b = true.
Proof.
  split; [apply (all_chars_impl inert clean a inert_clean Ha)
         | apply (all_chars_impl inert clean b inert_clean Hb)].
Qed.

(** Two inert texts around a middle part [m] in which the global stages put
    [m'], where [m'] has no dot and white space only as single spaces that
    are not at its ends, or is two spaces: the result of the last stages. *)
Lemma tidy_around m :
  none_of Chars.is_dot m = true ->
  starts_with Chars.tilde (a +:+ m +:+ b) = false ->
  tidy (a +:+ m +:+ b) = trim (a +:+ first_run Chars.is_space " " (m +:+ b)).
Proof.
  intros Hm Htilde. rewrite tidy_no_dot; [| | exact Htilde].
  - now rewrite (first_run_app_none _ _ a _ (proj1 inert_no_space)).
  - destruct inert_no_dot as [H1 H2]. unfold none_of in *.
    now rewrite !all_chars_app, H1, H2, Hm.
Qed.

Lemma starts_tilde_inert m : a <> EmptyString -> starts_with Chars.tilde (a +:+ m) = false.
Proof.
  intros Hne. rewrite starts_with_in, starts_in_app by exact Hne.
  apply starts_in_none, inert_no_tilde.
Qed.

Lemma trim_around m :
  a <> EmptyString -> b <> EmptyString -> trim (a +:+ m +:+ b) = a +:+ m +:+ b.
Proof.
  intros Hane Hbne. apply trim_id.
  - rewrite starts_in_app by exact Hane. apply starts_in_none, inert_no_space.
  - rewrite <- sapp_assoc, ends_in_app by exact Hbne. apply ends_in_none, inert_no_space.
Qed.

Lemma strip_characters_around m :
  strip_characters (a +:+ m +:+ b) = a +:+ strip_characters m +:+ b.
Proof.
  destruct inert_all_clean as [Hca Hcb].
  pose proof (strip_characters_id a Hca) as Ea. rewrite strip_characters_eq in Ea.
  pose proof (strip_characters_id b Hcb) as Eb. rewrite strip_characters_eq in Eb.
  rewrite !strip_characters_eq, !subst_chars_app.
  now rewrite Ea, Eb.
Qed.

Lemma removeLinks_around m :
  none_of (Chars.one_of [Chars.colon]) m = true ->
  removeLinks (a +:+ m +:+ b) = a +:+ m +:+ b.
Proof.
  intros Hm. apply removeLinks_no_colon. unfold none_of. rewrite !all_chars_app.
  destruct inert_all_clean as [Hca Hcb].
  pose proof (clean_none _ _ (fun c Hc => proj2 (proj2 (proj2 (proj2 (proj2 (clean_parts c Hc)))))) Hca) as H1.
  pose proof (clean_none _ _ (fun c Hc => proj2 (proj2 (proj2 (proj2 (proj2 (clean_parts c Hc)))))) Hcb) as H2.
  unfold none_of in *. now rewrite H1, H2, Hm.
Qed.

(** An ampersand between inert texts becomes [and]. *)
Lemma normalize_ampersand : normalize (a +:+ "&" +:+ b) = a +:+ "and" +:+ b.
Proof.
  unfold normalize. rewrite removeLinks_around by reflexivity.
  rewrite strip_characters_around.
  replace (strip_characters "&") with "and" by reflexivity.
  assert (all_chars inert (a +:+ "and" +:+ b) = true) as Hall
    by (rewrite !all_chars_app, Ha, Hb; reflexivity).
  assert (starts_with Chars.tilde (a +:+ "and" +:+ b) = false) as Htilde.
  { rewrite starts_with_in. apply starts_in_none.
    apply (inert_none _ _ (fun c Hc => proj1 (proj2 (proj2 (proj2 (inert_parts c Hc))))) Hall). }
  rewrite tidy_no_dot; [| apply (inert_none _ _ (fun c Hc => proj1 (proj2 (proj2 (inert_parts c Hc)))) Hall) | exact Htilde].
  pose proof (inert_none _ _ (fun c Hc => proj1 (proj2 (inert_parts c Hc))) Hall) as Hsp.
  rewrite (first_run_none _ _ _ Hsp).
  apply trim_id; [now apply starts_in_none | now apply ends_in_none].
Qed.

(** A line feed between inert texts becomes a hyphen between two spaces. *)
Lemma normalize_newline :
  a <> EmptyString -> b <> EmptyString ->
  normalize (a +:+ Chars.newline +:+ b) = a +:+ " - " +:+ b.
Proof.
  intros Hane Hbne. unfold normalize. rewrite removeLinks_around by reflexivity.
  rewrite strip_characters_around.
  replace (strip_characters Chars.newline) with " - " by reflexivity.
  rewrite tidy_around; [| reflexivity | now apply starts_tilde_inert].
  replace (first_run Chars.is_space " " (" - " +:+ b)) with (" - " +:+ b) by reflexivity.
  now apply trim_around.
Qed.

(** A link between inert texts, set off by spaces, goes with all its
    characters; the two spaces left are the first run of white space, which
    becomes one space. *)
Lemma normalize_link h c u :
  a <> EmptyString -> b <> EmptyString ->
  h = "http://" \/ h = "https://" ->
  all_chars Chars.not_space_tilde (String c u) = true ->
  normalize (a +:+ " " +:+ h +:+ String c u +:+ " " +:+ b) = a +:+ " " +:+ b.
Proof.
  intros Hane Hbne Hh Hu. unfold normalize.
  rewrite (removeLinks_app a) by reflexivity.
  rewrite (removeLinks_unfold (" " +:+ _)).
  rewrite (re_link_delimited true (" " +:+ _)) by reflexivity.
  rewrite sapp_cons, sapp_nil_l.
  rewrite (removeLinks_link h c u (" " +:+ b) Hh Hu eq_refl).
  destruct inert_all_clean as [Hca Hcb].
  rewrite (removeLinks_clean a Hca).
  rewrite (removeLinks_clean (" " +:+ b)) by (rewrite all_chars_app, Hcb; reflexivity).
  change (a +:+ String " " (" " +:+ b)) with (a +:+ "  " +:+ b).
  rewrite strip_characters_around.
  replace (strip_characters "  ") with "  " by reflexivity.
  rewrite tidy_around; [| reflexivity | now apply starts_tilde_inert].
  replace (first_run Chars.is_space " " ("  " +:+ b))
    with (" " +:+ drop_while Chars.is_space b) by reflexivity.
  rewrite (drop_while_none _ b (proj2 inert_no_space)).
  now apply trim_around.
Qed.

End Inert.

(** *** The claims about the sanitizer *)






(** *** The texts that [normalize] leaves as they are *)

(** X13.  [normalize] returns its input as it is exactly when the input has
    no reserved character, carriage return, tab, line feed or ampersand, has
    no white space at either end, and is settled: no tilde or dot at its
    start, no dot at its end, a first run of dots of one dot and a first run
    of white space of one space. *)
Theorem normalize_fixed_points (x : string) :
  normalize x = x
  <-> all_chars clean x = true /\ settled x = true /\ trim x = x.
Proof.
  split.
  - intros H.
    assert (all_chars clean x = true) as Hc by (rewrite <- H; apply normalize_clean).
    assert (tidy x = x) as Ht.
    { unfold normalize in H.
      now rewrite (removeLinks_clean x Hc), (strip_characters_id x Hc) in H. }
    split; [exact Hc|]. split; [now apply tidy_settled|].
    rewrite <- Ht at 1. rewrite tidy_trimmed. exact Ht.
  - intros (Hc & Hs & Ht). unfold normalize.
    rewrite (removeLinks_clean x Hc), (strip_characters_id x Hc).
    now apply settled_tidy.
Qed.

End NormalizeFacts.

(** ** [encode] and [decode] *)

Module EncodeFacts.
Import Regex Scan StringFacts NormalizeUtils URI.

(** A fact about every code unit, checked on each of the 256. *)
Ltac each_unit c :=
  destruct c as [[|] [|] [|] [|] [|] [|] [|] [|]]; vm_compute;
  try reflexivity; try (intros; congruence).

Lemma replace_with_class_loop p f fuel : forall b s,
  String.length s < fuel ->
  replace_with_loop fuel (re_class p) f b s = subst_with p f s.
Proof.
  induction fuel as [|fuel IH]; intros b s Hlen; [lia|].
  destruct s as [|c s]; [reflexivity|].
  cbn [replace_with_loop subst_with re_class]. cbn [String.length] in Hlen.
  destruct (p c).
  - rewrite IH by lia. f_equal. f_equal.
    replace (String.length (String c s) - String.length s) with 1
      by (cbn [String.length]; lia).
    cbn [substring]. now destruct s.
  - rewrite IH by lia. reflexivity.
Qed.

Lemma subst_with_app p f a b :
  subst_with p f (a +:+ b) = subst_with p f a +:+ subst_with p f b.
Proof.
  induction a as [|c a IH]; ssimpl; [reflexivity|].
  destruct (p c); rewrite IH; [now rewrite sapp_assoc | reflexivity].
Qed.

(** The encoder works one code unit at a time. *)
Lemma encodeRFC3986URIComponent_cons c s :
  encodeRFC3986URIComponent (String c s)
  = encoded_unit c +:+ encodeRFC3986URIComponent s.
Proof.
  unfold encodeRFC3986URIComponent, replace_all_with.
  rewrite !replace_with_class_loop by lia.
  cbn [encodeURIComponent]. now rewrite subst_with_app.
Qed.

Lemma encodeRFC3986URIComponent_nil : encodeRFC3986URIComponent EmptyString = EmptyString.
Proof. reflexivity. Qed.

Lemma encoded_unit_alphabet c : all_chars is_uri_char (encoded_unit c) = true.
Proof. each_unit c. Qed.

Lemma encoded_unit_length c :
  1 <= String.length (encoded_unit c)
  /\ (String.length (encoded_unit c) = 1 -> is_unreserved c = true).
Proof.
  destruct c as [[|] [|] [|] [|] [|] [|] [|] [|]]; vm_compute;
    (split; [lia | intros H; first [reflexivity | discriminate H]]).
Qed.

Lemma encoded_unit_unreserved c :
  is_unreserved c = true -> encoded_unit c = String c EmptyString.
Proof. each_unit c. Qed.

(** The scan of [decodeURIComponent] reads back, from what the encoder made
    of a code unit, that code unit. *)
Lemma encoded_unit_head c t :
  exists c0 r0,
    encoded_unit c +:+ t = String c0 r0
    /\ decode_head c0 r0 = Some (N_of_ascii c, t).
Proof.
  destruct c as [[|] [|] [|] [|] [|] [|] [|] [|]];
    (eexists; eexists; split; [vm_compute; reflexivity | vm_compute; reflexivity]).
Qed.

Lemma push_unit c t : push (N_of_ascii c) (Decoded t) = Decoded (String c t).
Proof.
  unfold push. pose proof (N_ascii_bounded c) as H.
  apply N.ltb_lt in H. rewrite H. now rewrite ascii_N_embedding.
Qed.

Lemma encodeRFC3986URIComponent_length s :
  String.length s <= String.length (encodeRFC3986URIComponent s).
Proof.
  induction s as [|c s IH]; [cbn; lia|].
  rewrite encodeRFC3986URIComponent_cons, slen_app. cbn [String.length].
  pose proof (proj1 (encoded_unit_length c)). lia.
Qed.

(** X14.  What [encodeRFC3986URIComponent] makes of a text holds letters,
    digits, the characters [- . _ ~] and the percent sign, and nothing else:
    none of [! ' ( ) *] that [encodeURIComponent] lets through.  The texts it
    leaves as they are are those of unreserved characters. *)
Theorem encodeRFC3986URIComponent_alphabet (s : string) :
  all_chars is_uri_char (encodeRFC3986URIComponent s) = true
  /\ none_of is_mark (encodeRFC3986URIComponent s) = true
  /\ (encodeRFC3986URIComponent s = s <-> all_chars is_unreserved s = true).
Proof.
  assert (all_chars is_uri_char (encodeRFC3986URIComponent s) = true) as Ha.
  { induction s as [|c s IH]; [reflexivity|].
    now rewrite encodeRFC3986URIComponent_cons, NormalizeFacts.all_chars_app, encoded_unit_alphabet, IH. }
  split; [exact Ha|]. split.
  - unfold none_of. revert Ha. apply NormalizeFacts.all_chars_impl. intros c. each_unit c.
  - clear Ha. split.
    + induction s as [|c s IH]; [reflexivity|].
      rewrite encodeRFC3986URIComponent_cons. intros H. cbn [all_chars].
      pose proof (f_equal String.length H) as Hlen.
      rewrite slen_app in Hlen. cbn [String.length] in Hlen.
      pose proof (encodeRFC3986URIComponent_length s) as Hs.
      destruct (encoded_unit_length c) as [H1 Hone].
      assert (is_unreserved c = true) as Hc by (apply Hone; lia).
      rewrite Hc. cbn [andb]. apply IH.
      rewrite (encoded_unit_unreserved c Hc) in H. rewrite sapp_cons, sapp_nil_l in H.
      now injection H.
    + induction s as [|c s IH]; [reflexivity|]. cbn [all_chars].
      intros [Hc Hs]%andb_true_iff.
      rewrite encodeRFC3986URIComponent_cons, (encoded_unit_unreserved c Hc), (IH Hs).
      reflexivity.
Qed.

Lemma decode_loop_encoded s : forall fuel,
  String.length (encodeRFC3986URIComponent s) <= fuel ->
  decode_loop fuel (encodeRFC3986URIComponent s) = Decoded s.
Proof.
  induction s as [|c s IH]; intros fuel Hlen.
  - rewrite encodeRFC3986URIComponent_nil. now destruct fuel.
  - rewrite encodeRFC3986URIComponent_cons in *.
    destruct (encoded_unit_head c (encodeRFC3986URIComponent s)) as (c0 & r0 & E & Hh).
    pose proof (f_equal String.length E) as Hl.
    rewrite slen_app in Hl. cbn [String.length] in Hl.
    pose proof (proj1 (encoded_unit_length c)) as H1.
    rewrite E in *. cbn [String.length] in Hlen.
    destruct fuel as [|fuel]; [lia|].
    cbn [decode_loop]. rewrite Hh, IH by lia. apply push_unit.
Qed.

(** X15.  [decodeURIComponent] undoes [encodeRFC3986URIComponent]: the
    encoded form of any text decodes, without a URIError, to that text. *)
Theorem decodeURIComponent_encodeRFC3986URIComponent (s : string) :
  decodeURIComponent (encodeRFC3986URIComponent s) = Decoded s.
Proof. unfold decodeURIComponent. now apply decode_loop_encoded. Qed.

(** A text with no percent sign decodes to itself. *)
Lemma decode_loop_plain s : forall fuel,
  none_of is_percent s = true ->
  String.length s <= fuel ->
  decode_loop fuel s = Decoded s.
Proof.
  unfold none_of. induction s as [|c s IH]; intros fuel H Hlen; [now destruct fuel|].
  cbn [all_chars] in H. apply andb_true_iff in H as [Hc Hs].
  apply negb_true_iff in Hc. cbn [String.length] in Hlen.
  destruct fuel as [|fuel]; [lia|].
  cbn [decode_loop]. unfold decode_head. rewrite Hc, IH by (auto; lia).
  apply push_unit.
Qed.

Lemma normalize_no_percent text : none_of is_percent (normalize text) = true.
Proof.
  unfold none_of. generalize (NormalizeFacts.normalize_clean text).
  apply NormalizeFacts.all_chars_impl. intros c. each_unit c.
Qed.

Lemma decode_eq text : decode text = Decoded (normalize text).
Proof.
  unfold decode, decodeURIComponent.
  apply decode_loop_plain; [apply normalize_no_percent | lia].
Qed.

(** X16.  [decode] decodes nothing: [normalize] takes every percent sign
    out of the text before [decodeURIComponent] sees it, so that [decode]
    never throws a URIError and gives what [normalize] gives. *)
Theorem decode_is_normalize (text : string) :
  decode text = Decoded (normalize text)
  /\ none_of is_percent (normalize text) = true.
Proof. split; [apply decode_eq | apply normalize_no_percent]. Qed.

(** [normalize] on an encoded text: the percent signs go, and nothing comes
    that was not there. *)
Lemma normalize_encoded e :
  all_chars is_uri_char e = true ->
  all_chars is_unreserved (normalize e) = true.
Proof.
  intros He. unfold normalize.
  assert (removeLinks e = e) as ->.
  { apply NormalizeFacts.removeLinks_no_colon. unfold none_of. revert He.
    apply NormalizeFacts.all_chars_impl. intros c. each_unit c. }
  assert (all_chars is_unreserved (strip_characters e) = true) as Hs.
  { rewrite NormalizeFacts.strip_characters_eq.
    set (t2 := subst_chars Chars.is_reserved EmptyString
                 (subst_chars Chars.is_star EmptyString e)).
    assert (all_chars is_unreserved t2 = true) as H2.
    { subst t2. apply (NormalizeFacts.subst_chars_all is_uri_char); [|reflexivity|].
      - intros c. each_unit c.
      - apply (NormalizeFacts.subst_chars_all is_uri_char); [auto | reflexivity | exact He]. }
    set (t3 := subst_chars Chars.is_cr_or_tab EmptyString t2).
    assert (all_chars is_unreserved t3 = true) as H3.
    { subst t3. apply (NormalizeFacts.subst_chars_all is_unreserved); [auto | reflexivity | exact H2]. }
    rewrite (NormalizeFacts.subst_chars_none Chars.is_lf _ t3).
    2:{ unfold none_of. revert H3. apply NormalizeFacts.all_chars_impl. intros c. each_unit c. }
    rewrite (NormalizeFacts.subst_chars_none Chars.is_amp _ t3).
    2:{ unfold none_of. revert H3. apply NormalizeFacts.all_chars_impl. intros c. each_unit c. }
    exact H3. }
  rewrite NormalizeFacts.tidy_eq.
  apply NormalizeFacts.all_chars_trim.
  rewrite NormalizeFacts.first_run_none.
  2:{ unfold none_of.
      assert (all_chars is_unreserved
                (strip_dot_end (drop_leading Chars.tilde
                   (first_run Chars.is_dot "." (strip_characters e)))) = true) as H.
      { apply NormalizeFacts.all_chars_strip_dot_end, NormalizeFacts.all_chars_drop_leading,
          NormalizeFacts.all_chars_first_run; [reflexivity | exact Hs]. }
      revert H. apply NormalizeFacts.all_chars_impl. intros c. each_unit c. }
  apply NormalizeFacts.all_chars_strip_dot_end, NormalizeFacts.all_chars_drop_leading,
    NormalizeFacts.all_chars_first_run; [reflexivity | exact Hs].
Qed.

(** X17.  [decode] does not undo [encode].  What [decode] gives for an
    encoded text holds unreserved characters only: the percent signs of the
    escapes are gone and their digits are left in the text.  So whenever the
    normalized text has a character that is not unreserved, a space for one,
    [decode(encode(text))] is not that normalized text. *)
Theorem decode_encode_not_inverse (text : string) :
  exists y,
    decode (encode text) = Decoded y
    /\ all_chars is_unreserved y = true
    /\ (all_chars is_unreserved (normalize text) = false -> y <> normalize text).
Proof.
  exists (normalize (encode text)). split; [apply decode_eq|].
  assert (all_chars is_unreserved (normalize (encode text)) = true) as H.
  { apply normalize_encoded. unfold encode.
    induction (normalize text) as [|c s IH]; [reflexivity|].
    now rewrite encodeRFC3986URIComponent_cons, NormalizeFacts.all_chars_app, encoded_unit_alphabet, IH. }
  split; [exact H|]. intros Hn E. rewrite E in H. congruence.
Qed.

Lemma decode_encode_not_inverse_witness :
  exists y,
    decode (encode "a b") = Decoded y
    /\ y = "a20b"
    /\ y <> normalize "a b".
Proof.
  destruct (decode_encode_not_inverse "a b") as (y & Hy & _ & Hne).
  exists y. split; [exact Hy|]. split.
  - vm_compute in Hy. now injection Hy.
  - apply Hne. reflexivity.
Defined.

End EncodeFacts.
